(** * Productivity Timer browser extension: the background script

    A shallow embedding of the extension's background script
    (website blocker, punishment lockout, AI NSFW pipeline, usage
    queue) and the properties of its rule matching and state
    handling.

    Conventions of the model
    - a JavaScript string is a [string] of 8-bit characters; the URLs
      handed to a request listener are ASCII (punycode hosts,
      percent-encoded paths), and case folding acts on [A-Z]/[a-z];
    - a [RegExp] is compiled from its pattern text by a parser for the
      part of the pattern grammar the script uses, and run by a
      backtracking matcher that lists the successes in priority order;
    - [new URL(url).hostname] is computed as the URL Standard does for
      a URL written in ASCII; the Unicode processing of a domain is
      not modelled;
    - the module-level [let] variables of the script are the fields of
      one record [State]; [browser.storage.local] is a record of
      optional values whose writes succeed; a [Set] is a [gset], so the
      order in which [Array.from] lists it is not kept; requests sent
      without awaiting their answer are appended to a trace;
    - an awaited [fetch] is an input of the function that awaits it,
      and an [async] function runs from its first line to its last;
      the section on runs of the script interleaves the handlers and
      cuts [checkPageContent] at its [await]s.

    The usage tracker has a model of its own, over its two variables
    and the readings of the clock, and so has the popup, over its two
    variables and the elements of its page. The timers are not part of
    the model: a tick of a timer is a run of its handler. *)

From Stdlib Require Import String Ascii List Bool Arith Lia.
From stdpp Require Import gmap strings pretty.
Import ListNotations.

Local Open Scope stdpp_scope.

(** ** JavaScript strings *)

Module Js.

Definition is_upper (c : ascii) : bool :=
  (65 <=? nat_of_ascii c) && (nat_of_ascii c <=? 90).

Definition is_lower (c : ascii) : bool :=
  (97 <=? nat_of_ascii c) && (nat_of_ascii c <=? 122).

Definition lower_char (c : ascii) : ascii :=
  if is_upper c then ascii_of_nat (nat_of_ascii c + 32) else c.

Definition upper_char (c : ascii) : ascii :=
  if is_lower c then ascii_of_nat (nat_of_ascii c - 32) else c.

(** [s.toLowerCase()] *)
Fixpoint toLowerCase (s : string) : string :=
  match s with
  | EmptyString => EmptyString
  | String c r => String (lower_char c) (toLowerCase r)
  end.

(** [s.startsWith(p)] *)
Fixpoint startsWith (s p : string) {struct p} : bool :=
  match p with
  | EmptyString => true
  | String a p' =>
      match s with
      | EmptyString => false
      | String b s' => Ascii.eqb b a && startsWith s' p'
      end
  end.

(** [s.endsWith(p)] is used through its reverse. *)
Definition endsWith (s p : string) : bool :=
  startsWith (String.rev s) (String.rev p).

(** [s.includes(p)] *)
Fixpoint includes (s p : string) : bool :=
  startsWith s p ||
  match s with
  | EmptyString => false
  | String _ s' => includes s' p
  end.

(** [s.substring(n)] *)
Fixpoint drop (n : nat) (s : string) : string :=
  match n, s with
  | O, _ => s
  | S n', String _ s' => drop n' s'
  | S _, EmptyString => EmptyString
  end.

(** [s.substring(0, n)] *)
Fixpoint take (n : nat) (s : string) : string :=
  match n, s with
  | O, _ => EmptyString
  | S n', String c s' => String c (take n' s')
  | S _, EmptyString => EmptyString
  end.

(** [l.join(sep)] *)
Fixpoint join (sep : string) (l : list string) : string :=
  match l with
  | [] => EmptyString
  | [x] => x
  | x :: rest => x +:+ sep +:+ join sep rest
  end.

(** [l.includes(x)] on an array of strings *)
Definition array_includes (l : list string) (x : string) : bool :=
  existsb (String.eqb x) l.

End Js.

(** ** Regular expressions *)

Module RegExp.

(** The pattern forms the script uses: pattern characters and
    identity escapes, [^], sequences, [|], the [?] quantifier and
    groups. *)
Inductive regex : Type :=
| REmpty
| RChar (c : ascii)
| RBol
| RSeq (r1 r2 : regex)
| RAlt (r1 r2 : regex)
| ROpt (r : regex)
| RGroup (r : regex).

Record t : Type := mk { source : regex; ignoreCase : bool }.

(** The fourteen syntax characters of the pattern grammar. *)
Definition syntax_characters : string := "^$\.*+?()[]{}|".

Definition is_syntax_char (c : ascii) : bool :=
  existsb (Ascii.eqb c) (list_ascii_of_string syntax_characters).

(** *** Parsing a pattern

    Recursive descent on Disjunction / Alternative / Term / Atom.
    Every call spends one unit of fuel; [None] is a syntax error or
    a form outside the fragment. *)

(** The next character of the input is [c]. *)
Definition peek (c : ascii) (s : string) : bool :=
  match s with
  | String x _ => Ascii.eqb x c
  | EmptyString => false
  end.

(** An Alternative ends at the end of the pattern, at [|] and at [)]. *)
Definition at_end (s : string) : bool :=
  String.eqb s "" || peek "|" s || peek ")" s.

Fixpoint parse_disjunction (fuel : nat) (s : string) : option (regex * string) :=
  match fuel with
  | O => None
  | S f =>
      match parse_alternative f s with
      | Some (r, rest) =>
          if peek "|" rest then
            match parse_disjunction f (Js.drop 1 rest) with
            | Some (r', rest') => Some (RAlt r r', rest')
            | None => None
            end
          else Some (r, rest)
      | None => None
      end
  end
with parse_alternative (fuel : nat) (s : string) : option (regex * string) :=
  match fuel with
  | O => None
  | S f =>
      if at_end s then Some (REmpty, s)
      else
        match parse_term f s with
        | Some (r, rest) =>
            match parse_alternative f rest with
            | Some (r', rest') => Some (RSeq r r', rest')
            | None => None
            end
        | None => None
        end
  end
with parse_term (fuel : nat) (s : string) : option (regex * string) :=
  match fuel with
  | O => None
  | S f =>
      if peek "^" s then Some (RBol, Js.drop 1 s)
      else
        match parse_atom f s with
        | Some (r, rest) =>
            if peek "?" rest then Some (ROpt r, Js.drop 1 rest) else Some (r, rest)
        | None => None
        end
  end
with parse_atom (fuel : nat) (s : string) : option (regex * string) :=
  match fuel with
  | O => None
  | S f =>
      match s with
      | EmptyString => None
      | String c s' =>
          if Ascii.eqb c "(" then
            match parse_disjunction f s' with
            | Some (r, rest) =>
                if peek ")" rest then Some (RGroup r, Js.drop 1 rest) else None
            | None => None
            end
          else if Ascii.eqb c "\" then
            match s' with
            | String e s'' =>
                if is_syntax_char e || Ascii.eqb e "/" then Some (RChar e, s'') else None
            | EmptyString => None
            end
          else if is_syntax_char c then None
          else Some (RChar c, s')
      end
  end.

(** [new RegExp(pattern, flags)]; [None] stands for the SyntaxError.
    Flags: [""] or ["i"]. *)
Definition parse_flags (flags : string) : option bool :=
  if String.eqb flags "" then Some false
  else if String.eqb flags "i" then Some true
  else None.

Definition compile (pattern flags : string) : option t :=
  match parse_flags flags with
  | None => None
  | Some ic =>
      match parse_disjunction (2 * String.length pattern + 4) pattern with
      | Some (r, EmptyString) => Some (mk r ic)
      | _ => None
      end
  end.

(** *** Matching *)

(** Character comparison; with the [i] flag both sides are
    canonicalized (upper-cased). *)
Definition char_match (ic : bool) (c x : ascii) : bool :=
  if ic then Ascii.eqb (Js.upper_char c) (Js.upper_char x) else Ascii.eqb c x.

(** All the ways [r] matches at index [i], where [s] is the input from
    [i] on: the index after the match and the remaining input, in the
    order backtracking tries them. An optional part is tried first
    with its body, then without; the bodies the script writes under
    [?] never match the empty string. *)
Fixpoint run (ic : bool) (r : regex) (i : nat) (s : string) : list (nat * string) :=
  match r with
  | REmpty => [(i, s)]
  | RChar c =>
      match s with
      | String x s' => if char_match ic c x then [(S i, s')] else []
      | EmptyString => []
      end
  | RBol => if Nat.eqb i 0 then [(i, s)] else []
  | RSeq r1 r2 => flat_map (fun p => run ic r2 (fst p) (snd p)) (run ic r1 i s)
  | RAlt r1 r2 => run ic r1 i s ++ run ic r2 i s
  | ROpt r => run ic r i s ++ [(i, s)]
  | RGroup r => run ic r i s
  end.

(** The first match whose start is at index [i] or later: start index
    and what [run] returned. *)
Fixpoint exec_from (re : t) (i : nat) (s : string) : option (nat * (nat * string)) :=
  match run (ignoreCase re) (source re) i s with
  | m :: _ => Some (i, m)
  | [] =>
      match s with
      | EmptyString => None
      | String _ s' => exec_from re (S i) s'
      end
  end.

(** [re.test(s)] for a regex without the [g] and [y] flags. *)
Definition test (re : t) (s : string) : bool :=
  match exec_from re 0 s with Some _ => true | None => false end.

(** [s.replace(re, '')] for a regex without the [g] flag: the first
    match is cut out. *)
Definition remove_first (re : t) (s : string) : string :=
  match exec_from re 0 s with
  | Some (i, (_, rest)) => Js.take i s +:+ rest
  | None => s
  end.

(** A regex literal [/pattern/flags] of the script. The literals below
    all parse; a literal that did not would match nothing. *)
Definition literal (pattern flags : string) : t :=
  match compile pattern flags with
  | Some re => re
  | None => mk (RSeq RBol (RChar "000")) false
  end.

End RegExp.

(** ** Rule matching *)

(** [/^(https?:\/\/)?(www\.)?/] *)
Definition re_protocol_www : RegExp.t := RegExp.literal "^(https?:\/\/)?(www\.)?" "".

(** [/^https?:\/\//] *)
Definition re_protocol : RegExp.t := RegExp.literal "^https?:\/\/" "".

(** [/^www\./] *)
Definition re_www : RegExp.t := RegExp.literal "^www\." "".

(** The character class of [/[.*+?^${}()|[\]\\]/g]. *)
Definition regex_specials : string := ".*+?^${}()|[]\".

(** [site.replace(/[.*+?^${}()|[\]\\]/g, '\\$&')] *)
Fixpoint escapeRegExp (s : string) : string :=
  match s with
  | EmptyString => EmptyString
  | String c r =>
      if existsb (Ascii.eqb c) (list_ascii_of_string regex_specials)
      then String "\" (String c (escapeRegExp r))
      else String c (escapeRegExp r)
  end.

(** The callback of [sites.map]: remove protocol and www, then escape. *)
Definition stripSite (site : string) : string :=
  RegExp.remove_first re_protocol_www site.

Definition escapeSite (site : string) : string :=
  escapeRegExp (stripSite site).

Definition patternSource (sites : list string) : string :=
  "^https?://(www\.)?(" +:+ Js.join "|" (map escapeSite sites) +:+ ")".

(** [buildPatternForSites(sites)]: [None] is the [null] of an empty
    list and, after it, of a pattern that does not compile. *)
Definition buildPatternForSites (sites : list string) : option RegExp.t :=
  match sites with
  | [] => None
  | _ => RegExp.compile (patternSource sites) "i"
  end.

(** [buildBlockPattern()] of the first version of the script
    ([browser_extension/background.js]), over its [blockedSites]. *)
Definition buildBlockPattern_v1 (blockedSites : list string) : option RegExp.t :=
  match blockedSites with
  | [] => None
  | _ =>
      RegExp.compile
        ("^https?://(www\.)?(" +:+ Js.join "|" (map escapeSite blockedSites) +:+ ")") "i"
  end.

(** [pattern && pattern.test(url)] *)
Definition pattern_test (pattern : option RegExp.t) (url : string) : bool :=
  match pattern with
  | Some re => RegExp.test re url
  | None => false
  end.

(** ** URLs *)

Module Url.

(** [new URL(url).hostname], as the URL Standard computes it for a
    URL written in ASCII and parsed without a base: the scheme, the
    authority with its credentials and port, and the host parser with
    its domain, IPv4, IPv6 and opaque forms. Path, query and fragment
    never make the constructor throw and are not read.

    Outside the model is the Unicode (IDNA) processing of a domain: a
    domain with a byte above 127, percent-encoded or not, is refused
    here, and an [xn--] label is kept as it is written. *)

(** *** Characters *)

Definition code (c : ascii) : nat := nat_of_ascii c.

Definition is_alpha (c : ascii) : bool :=
  (65 <=? code c) && (code c <=? 90) || (97 <=? code c) && (code c <=? 122).

Definition is_digit (c : ascii) : bool := (48 <=? code c) && (code c <=? 57).

(** The value of a digit in a radix up to 16, [None] for another character. *)
Definition digit_value (radix : N) (c : ascii) : option N :=
  let v :=
    if is_digit c then Some (N.of_nat (code c - 48))
    else if (97 <=? code c) && (code c <=? 102) then Some (N.of_nat (code c - 87))
    else if (65 <=? code c) && (code c <=? 70) then Some (N.of_nat (code c - 55))
    else None in
  match v with
  | Some n => if (n <? radix)%N then Some n else None
  | None => None
  end.

(** The number written by [s] in [radix], [None] when a character is
    not a digit of the radix; the empty text is 0. *)
Fixpoint number_from (radix : N) (acc : N) (s : string) : option N :=
  match s with
  | EmptyString => Some acc
  | String c r =>
      match digit_value radix c with
      | Some v => number_from radix (acc * radix + v)%N r
      | None => None
      end
  end.

Definition hex_char (n : N) : ascii :=
  if (n <? 10)%N then ascii_of_N (48 + n) else ascii_of_N (87 + n).

(** The shortest lower-case hexadecimal text of a 16-bit piece. *)
Definition to_hex (n : N) : string :=
  let digits := [hex_char (n / 4096 mod 16); hex_char (n / 256 mod 16);
                 hex_char (n / 16 mod 16); hex_char (n mod 16)]%N in
  let fix strip (l : list ascii) : list ascii :=
    match l with
    | c :: (_ :: _) as r => if Ascii.eqb c "0" then strip r else l
    | _ => l
    end in
  string_of_list_ascii (strip digits).

(** The text before the first character that [stop] accepts, and the
    text from that character on. *)
Fixpoint span_until (stop : ascii -> bool) (s : string) : string * string :=
  match s with
  | EmptyString => (EmptyString, EmptyString)
  | String c r =>
      if stop c then (EmptyString, s)
      else let (a, b) := span_until stop r in (String c a, b)
  end.

(** [s] strictly split on [sep]. *)
Fixpoint split_on (sep : ascii) (s : string) : list string :=
  match s with
  | EmptyString => [EmptyString]
  | String c r =>
      match split_on sep r with
      | x :: rest => if Ascii.eqb c sep then EmptyString :: x :: rest else String c x :: rest
      | [] => [EmptyString]
      end
  end.

(** *** The input

    Leading and trailing C0 controls and spaces are removed, then
    every tab and newline. *)
Fixpoint trim_start (s : string) : string :=
  match s with
  | EmptyString => EmptyString
  | String c r => if code c <=? 32 then trim_start r else s
  end.

Definition trim (s : string) : string :=
  String.rev (trim_start (String.rev (trim_start s))).

Fixpoint remove_tab_newline (s : string) : string :=
  match s with
  | EmptyString => EmptyString
  | String c r =>
      if (code c =? 9) || (code c =? 10) || (code c =? 13) then remove_tab_newline r
      else String c (remove_tab_newline r)
  end.

(** *** The scheme *)

(** The scheme state: the rest of the scheme, lower-cased, and the
    text after its [:]. *)
Fixpoint scheme_state (s : string) : option (string * string) :=
  match s with
  | EmptyString => None
  | String c r =>
      if Ascii.eqb c ":" then Some (EmptyString, r)
      else if is_alpha c || is_digit c || existsb (Ascii.eqb c) (list_ascii_of_string "+-.")
      then match scheme_state r with
           | Some (scheme, rest) => Some (String (Js.lower_char c) scheme, rest)
           | None => None
           end
      else None
  end.

(** The scheme start state. Without a scheme, and without a base,
    parsing fails. *)
Definition split_scheme (s : string) : option (string * string) :=
  match s with
  | EmptyString => None
  | String c r =>
      if is_alpha c then
        match scheme_state r with
        | Some (scheme, rest) => Some (String (Js.lower_char c) scheme, rest)
        | None => None
        end
      else None
  end.

(** The special schemes other than [file]. *)
Definition is_special (scheme : string) : bool :=
  existsb (String.eqb scheme) ["http"; "https"; "ws"; "wss"; "ftp"].

(** *** IPv4 *)

(** The IPv4 number parser: hexadecimal after [0x], octal after [0],
    decimal otherwise. *)
Definition ipv4_number (s : string) : option N :=
  match s with
  | EmptyString => None
  | String "0" (String x r) =>
      if Ascii.eqb x "x" || Ascii.eqb x "X" then number_from 16 0 r
      else number_from 8 0 (String x r)
  | _ => number_from 10 0 s
  end.

(** The parts between the dots, without one empty last part. *)
Definition dotted_parts (s : string) : list string :=
  let parts := split_on "." s in
  match rev parts with
  | EmptyString :: (_ :: _) as r => rev r
  | _ => parts
  end.

Definition all_digits (s : string) : bool :=
  forallb is_digit (list_ascii_of_string s).

(** A domain ends in a number when its last part, one empty last
    part aside, is made of digits or is an IPv4 number. *)
Definition ends_in_number (s : string) : bool :=
  let parts := split_on "." s in
  let parts' :=
    match rev parts with
    | EmptyString :: r => r
    | r => r
    end in
  match rev parts, parts' with
  | [EmptyString], _ => false
  | _, last :: _ =>
      (negb (String.eqb last "") && all_digits last)
      || match ipv4_number last with Some _ => true | None => false end
  | _, [] => false
  end.

Fixpoint numbers_of (parts : list string) : option (list N) :=
  match parts with
  | [] => Some []
  | p :: rest =>
      match ipv4_number p, numbers_of rest with
      | Some n, Some l => Some (n :: l)
      | _, _ => None
      end
  end.

(** The address of the numbers: every number but the last is one
    byte, the last fills the bytes that are left. *)
Fixpoint ipv4_value (left : nat) (numbers : list N) : option N :=
  match numbers, left with
  | [], _ => None
  | [n], _ => if (n <? 256 ^ N.of_nat left)%N then Some n else None
  | n :: rest, S left' =>
      if (255 <? n)%N then None
      else match ipv4_value left' rest with
           | Some v => Some (n * 256 ^ N.of_nat left' + v)%N
           | None => None
           end
  | _ :: _, O => None
  end.

Definition ipv4_parse (s : string) : option N :=
  let parts := dotted_parts s in
  if 4 <? length parts then None
  else match numbers_of parts with
       | Some numbers => ipv4_value 4 numbers
       | None => None
       end.

Definition ipv4_serialize (a : N) : string :=
  pretty (a / 16777216 mod 256)%N +:+ "." +:+ pretty (a / 65536 mod 256)%N +:+ "."
  +:+ pretty (a / 256 mod 256)%N +:+ "." +:+ pretty (a mod 256)%N.

(** *** IPv6 *)

(** Up to [n] hexadecimal digits at the start of [s]: their value,
    how many they are, and the text after them. *)
Fixpoint read_hex (n : nat) (acc : N) (len : nat) (s : string) : N * nat * string :=
  match n, s with
  | S n', String c r =>
      match digit_value 16 c with
      | Some v => read_hex n' (acc * 16 + v)%N (S len) r
      | None => (acc, len, s)
      end
  | _, _ => (acc, len, s)
  end.

(** One number of the IPv4 ending of an IPv6 address: decimal digits
    without a leading zero, at most 255. *)
Definition ipv4_piece (s : string) : option N :=
  match s with
  | EmptyString => None
  | String "0" (String _ _) => None
  | _ =>
      if all_digits s && (String.length s <=? 3) then
        match number_from 10 0 s with
        | Some n => if (255 <? n)%N then None else Some n
        | None => None
        end
      else None
  end.

(** The IPv4 ending: four numbers, two pieces. *)
Definition ipv4_in_ipv6 (s : string) : option (N * N) :=
  match map ipv4_piece (split_on "." s) with
  | [Some a; Some b; Some c; Some d] => Some (a * 256 + b, c * 256 + d)%N
  | _ => None
  end.

(** The pieces read so far: those before the compression, and those
    after it once [::] was met. *)
Definition piece_index (before : list N) (after : option (list N)) : nat :=
  length before + match after with Some l => S (length l) | None => 0 end.

Definition push_piece (v : N) (before : list N) (after : option (list N))
    : list N * option (list N) :=
  match after with
  | Some l => (before, Some (l ++ [v]))
  | None => (before ++ [v], None)
  end.

(** The main loop of the IPv6 parser; every round reads at least one
    character. *)
Fixpoint ipv6_loop (fuel : nat) (s : string) (before : list N) (after : option (list N))
    : option (list N * option (list N)) :=
  match fuel with
  | O => None
  | S fuel' =>
      match s with
      | EmptyString => Some (before, after)
      | String c r =>
          if piece_index before after =? 8 then None
          else if Ascii.eqb c ":" then
            match after with
            | Some _ => None
            | None => ipv6_loop fuel' r before (Some [])
            end
          else
            let '(value, len, rest) := read_hex 4 0 0 s in
            match rest with
            | EmptyString => Some (push_piece value before after)
            | String d rest' =>
                if Ascii.eqb d "." then
                  if (len =? 0) || (6 <? piece_index before after) then None
                  else match ipv4_in_ipv6 s with
                       | Some (p1, p2) =>
                           let (b1, a1) := push_piece p1 before after in
                           Some (push_piece p2 b1 a1)
                       | None => None
                       end
                else if Ascii.eqb d ":" then
                  match rest' with
                  | EmptyString => None
                  | _ =>
                      let (b1, a1) := push_piece value before after in
                      ipv6_loop fuel' rest' b1 a1
                  end
                else None
            end
      end
  end.

(** The eight pieces of an IPv6 address. *)
Definition ipv6_parse (s : string) : option (list N) :=
  let start :=
    match s with
    | String ":" (String ":" r) => Some (r, Some [])
    | String ":" _ => None
    | _ => Some (s, None)
    end in
  match start with
  | None => None
  | Some (s', after) =>
      match ipv6_loop (S (String.length s')) s' [] after with
      | Some (before, Some l) =>
          Some (before ++ repeat 0%N (8 - length before - length l) ++ l)
      | Some (before, None) => if length before =? 8 then Some before else None
      | None => None
      end
  end.

(** The length of the run of zero pieces at the start of [l]. *)
Fixpoint zero_run (l : list N) : nat :=
  match l with
  | 0%N :: r => S (zero_run r)
  | _ => 0
  end.

(** Where the first longest run of two zero pieces or more starts,
    and its length. *)
Fixpoint longest_zero_run (i : nat) (l : list N) (best : option (nat * nat))
    : option (nat * nat) :=
  match l with
  | [] => best
  | _ :: r =>
      let n := zero_run l in
      let best' :=
        match best with
        | Some (_, m) => if m <? n then Some (i, n) else best
        | None => if 2 <=? n then Some (i, n) else None
        end in
      longest_zero_run (S i) r best'
  end.

Definition ipv6_serialize (pieces : list N) : string :=
  match longest_zero_run 0 pieces None with
  | Some (i, n) =>
      Js.join ":" (map to_hex (firstn i pieces)) +:+ "::"
      +:+ Js.join ":" (map to_hex (skipn (i + n) pieces))
  | None => Js.join ":" (map to_hex pieces)
  end.

(** *** The host parser *)

(** The forbidden host code points. *)
Definition forbidden_host (c : ascii) : bool :=
  existsb (Nat.eqb (code c)) [0; 9; 10; 13; 32]
  || existsb (Ascii.eqb c) (list_ascii_of_string "#/:<>?@[\]^|").

(** The forbidden domain code points. *)
Definition forbidden_domain (c : ascii) : bool :=
  forbidden_host c || (code c <=? 31) || Ascii.eqb c "%" || (code c =? 127).

Definition byte_hex (n : nat) : string :=
  let digit d := ascii_of_nat (if d <? 10 then 48 + d else 55 + d) in
  String "%" (String (digit (n / 16)) (String (digit (n mod 16)) EmptyString)).

(** The host of a scheme that is not special: kept as written, with
    the C0 controls and the bytes above [~] percent-encoded. *)
Fixpoint opaque_encode (s : string) : string :=
  match s with
  | EmptyString => EmptyString
  | String c r =>
      if (code c <=? 31) || (126 <? code c) then byte_hex (code c) +:+ opaque_encode r
      else String c (opaque_encode r)
  end.

Definition opaque_host (s : string) : option string :=
  if existsb forbidden_host (list_ascii_of_string s) then None
  else Some (opaque_encode s).

Fixpoint percent_decode (s : string) : string :=
  match s with
  | EmptyString => EmptyString
  | String c r =>
      match r with
      | String a (String b r') =>
          match Ascii.eqb c "%", digit_value 16 a, digit_value 16 b with
          | true, Some x, Some y =>
              String (ascii_of_N (x * 16 + y)) (percent_decode r')
          | _, _, _ => String c (percent_decode r)
          end
      | _ => String c (percent_decode r)
      end
  end.

(** The host parser; [opaque] for a scheme that is not special. *)
Definition host_parse (opaque : bool) (s : string) : option string :=
  if Js.startsWith s "[" then
    if Js.endsWith s "]" then
      match ipv6_parse (Js.drop 1 (String.rev (Js.drop 1 (String.rev s)))) with
      | Some pieces => Some ("[" +:+ ipv6_serialize pieces +:+ "]")
      | None => None
      end
    else None
  else if opaque then opaque_host s
  else
    let domain := percent_decode s in
    if existsb (fun c => 127 <? code c) (list_ascii_of_string domain) then None
    else
      let asciiDomain := Js.toLowerCase domain in
      if String.eqb asciiDomain "" then None
      else if existsb forbidden_domain (list_ascii_of_string asciiDomain) then None
      else if ends_in_number asciiDomain then
        match ipv4_parse asciiDomain with
        | Some a => Some (ipv4_serialize a)
        | None => None
        end
      else Some asciiDomain.

(** *** Authority, host and port *)

(** What ends the authority: [/], [?], [#], and [\] after a special scheme. *)
Definition ends_authority (special : bool) (c : ascii) : bool :=
  existsb (Ascii.eqb c) (list_ascii_of_string "/?#") || special && Ascii.eqb c "\".

(** The text after the last [@], when there is one. *)
Fixpoint after_last_at (s : string) : option string :=
  match s with
  | EmptyString => None
  | String c r =>
      match after_last_at r with
      | Some x => Some x
      | None => if Ascii.eqb c "@" then Some r else None
      end
  end.

(** The host state: the text before the first [:] that is not inside
    brackets, and the text after it when there is one. *)
Fixpoint split_port (inside : bool) (s : string) : string * option string :=
  match s with
  | EmptyString => (EmptyString, None)
  | String c r =>
      if Ascii.eqb c ":" && negb inside then (EmptyString, Some r)
      else
        let inside' :=
          if Ascii.eqb c "[" then true else if Ascii.eqb c "]" then false else inside in
        let (h, p) := split_port inside' r in (String c h, p)
  end.

(** The port state: digits, at most 65535. *)
Definition port_ok (s : string) : bool :=
  all_digits s
  && match number_from 10 0 s with Some n => (n <=? 65535)%N | None => false end.

(** From the authority state on. *)
Definition authority (special : bool) (s : string) : option string :=
  let buffer := fst (span_until (ends_authority special) s) in
  let host_port :=
    match after_last_at buffer with
    | Some x => if String.eqb x "" then None else Some x
    | None => Some buffer
    end in
  match host_port with
  | None => None
  | Some hp =>
      match split_port false hp with
      | (h, Some port) =>
          if String.eqb h "" then None
          else match host_parse (negb special) h with
               | Some host => if port_ok port then Some host else None
               | None => None
               end
      | (h, None) =>
          if special && String.eqb h "" then None else host_parse (negb special) h
      end
  end.

(** *** The [file] scheme *)

Definition is_slash (c : ascii) : bool := Ascii.eqb c "/" || Ascii.eqb c "\".

Definition is_drive_letter (s : string) : bool :=
  match s with
  | String a (String b EmptyString) => is_alpha a && (Ascii.eqb b ":" || Ascii.eqb b "|")
  | _ => false
  end.

(** The file, file slash and file host states. *)
Definition file_host (s : string) : option string :=
  match s with
  | String c1 (String c2 r) =>
      if is_slash c1 && is_slash c2 then
        let buffer :=
          fst (span_until (fun c => is_slash c || Ascii.eqb c "?" || Ascii.eqb c "#") r) in
        if is_drive_letter buffer || String.eqb buffer "" then Some EmptyString
        else match host_parse false buffer with
             | Some host => if String.eqb host "localhost" then Some EmptyString else Some host
             | None => None
             end
      else Some EmptyString
  | _ => Some EmptyString
  end.

(** *** [hostname] *)

Fixpoint skip_slashes (s : string) : string :=
  match s with
  | EmptyString => EmptyString
  | String c r => if is_slash c then skip_slashes r else s
  end.

(** [new URL(url).hostname]; [None] is the TypeError. *)
Definition hostname (url : string) : option string :=
  match split_scheme (remove_tab_newline (trim url)) with
  | None => None
  | Some (scheme, rest) =>
      if String.eqb scheme "file" then file_host rest
      else if is_special scheme then authority true (skip_slashes rest)
      else if Js.startsWith rest "//" then authority false (Js.drop 2 rest)
      else Some EmptyString
  end.

(** [host] is a proper subdomain of [domain]. *)
Definition is_subdomain_of (host domain : string) : bool :=
  Js.endsWith host ("." +:+ domain) && negb (String.eqb host ("." +:+ domain)).

End Url.

(** ** Collaborators: the control server, storage, the browser *)

(** What awaiting [fetch(...)] gives: a rejection, or a response with
    its [ok] flag and its body ([None] when [response.json()] rejects). *)
Inductive fetch_result (B : Type) : Type :=
| NetworkError
| Response (ok : bool) (body : option B).
Arguments NetworkError {B}.
Arguments Response {B} ok body.

(** [/status] *)
Record StatusBody : Type := { status_isBlocking : bool }.

(** [/punishment-status] and [/adult-strike] *)
Record PunishmentRecord : Type := { is_locked : bool; lock_time_remaining : Z }.

(** [/sites]; a field is [None] when the body lacks it. *)
Record SitesBody : Type := {
  sites : option (list string);
  alwaysBlocked : option (list string);
  whitelist : option (list string)
}.

(** [/nsfw-cache] *)
Record NsfwCacheBody : Type := { checked_domains : option (list string) }.

(** [/check-content] (the fields the script branches on) *)
Record CheckResult : Type := { is_nsfw : bool; method : string }.

(** What [extractPageSignals] returns when it is not [null]. *)
Record Signals : Type := { title : string; meta_description : string; body_text : string }.

Record Payload : Type := {
  p_url : string; p_domain : string;
  p_title : string; p_meta_description : string; p_body_text : string
}.

Record Report : Type := { r_domain : string; r_seconds : Z }.

(** [browser.storage.local] *)
Record Storage : Type := {
  s_blockedSites : option (list string);
  s_alwaysBlockedSites : option (list string);
  s_whitelistedUrls : option (list string);
  s_blockCount : option nat;
  s_punishmentState : option PunishmentRecord;
  s_aiCheckedDomains : option (list string);
  s_isBlocking : option bool
}.

Definition empty_storage : Storage :=
  {| s_blockedSites := None; s_alwaysBlockedSites := None; s_whitelistedUrls := None;
     s_blockCount := None; s_punishmentState := None; s_aiCheckedDomains := None;
     s_isBlocking := None |}.

(** The three [onBeforeRequest] listeners. *)
Inductive Listener : Type :=
| L_blockRequest
| L_alwaysBlockRequest
| L_punishmentBlockRequest.

Global Instance Listener_eq_dec : EqDecision Listener.
Proof. solve_decision. Defined.

(** What a request listener returns: [{}] or [{redirectUrl}]. *)
Inductive BlockingResponse : Type :=
| Allow
| Redirect (redirectUrl : string).

(** Requests and browser calls whose completion nobody awaits, and the
    POST requests, in the order they are issued. *)
Inductive Effect : Type :=
| PostAdultStrike
| PostCheckContent (payload : Payload)
| PostUsage (report : Report)
| TabsUpdate (tabId : nat) (url : string)
| SetBadgeText (text : string).

(** ** State *)

Record State : Type := {
  isBlocking : bool;
  blockedSites : list string;
  alwaysBlockedSites : list string;
  whitelistedUrls : list string;
  blockCount : nat;
  appConnected : bool;
  isPunishmentLocked : bool;
  usageReportQueue : list Report;
  aiCheckedDomains : gset string;
  aiCheckInProgress : gset string;
  storage : Storage;
  listeners : list Listener;
  trace : list Effect
}.

Definition DEFAULT_BLOCKED_SITES : list string :=
  ["facebook.com"; "twitter.com"; "x.com"; "instagram.com"; "tiktok.com";
   "reddit.com"; "youtube.com"; "twitch.tv"; "netflix.com"; "discord.com"].

(** The values of the [let] declarations at the top of the script. *)
Definition initial_state (sto : Storage) : State :=
  {| isBlocking := false; blockedSites := []; alwaysBlockedSites := [];
     whitelistedUrls := []; blockCount := 0; appConnected := false;
     isPunishmentLocked := false; usageReportQueue := [];
     aiCheckedDomains := ∅; aiCheckInProgress := ∅;
     storage := sto; listeners := []; trace := [] |}.

Definition set_isBlocking (v : bool) (st : State) : State :=
  {| isBlocking := v; blockedSites := blockedSites st;
     alwaysBlockedSites := alwaysBlockedSites st; whitelistedUrls := whitelistedUrls st;
     blockCount := blockCount st; appConnected := appConnected st;
     isPunishmentLocked := isPunishmentLocked st; usageReportQueue := usageReportQueue st;
     aiCheckedDomains := aiCheckedDomains st; aiCheckInProgress := aiCheckInProgress st;
     storage := storage st; listeners := listeners st; trace := trace st |}.

Definition set_blockedSites (v : list string) (st : State) : State :=
  {| isBlocking := isBlocking st; blockedSites := v;
     alwaysBlockedSites := alwaysBlockedSites st; whitelistedUrls := whitelistedUrls st;
     blockCount := blockCount st; appConnected := appConnected st;
     isPunishmentLocked := isPunishmentLocked st; usageReportQueue := usageReportQueue st;
     aiCheckedDomains := aiCheckedDomains st; aiCheckInProgress := aiCheckInProgress st;
     storage := storage st; listeners := listeners st; trace := trace st |}.

Definition set_alwaysBlockedSites (v : list string) (st : State) : State :=
  {| isBlocking := isBlocking st; blockedSites := blockedSites st;
     alwaysBlockedSites := v; whitelistedUrls := whitelistedUrls st;
     blockCount := blockCount st; appConnected := appConnected st;
     isPunishmentLocked := isPunishmentLocked st; usageReportQueue := usageReportQueue st;
     aiCheckedDomains := aiCheckedDomains st; aiCheckInProgress := aiCheckInProgress st;
     storage := storage st; listeners := listeners st; trace := trace st |}.

Definition set_whitelistedUrls (v : list string) (st : State) : State :=
  {| isBlocking := isBlocking st; blockedSites := blockedSites st;
     alwaysBlockedSites := alwaysBlockedSites st; whitelistedUrls := v;
     blockCount := blockCount st; appConnected := appConnected st;
     isPunishmentLocked := isPunishmentLocked st; usageReportQueue := usageReportQueue st;
     aiCheckedDomains := aiCheckedDomains st; aiCheckInProgress := aiCheckInProgress st;
     storage := storage st; listeners := listeners st; trace := trace st |}.

Definition set_blockCount (v : nat) (st : State) : State :=
  {| isBlocking := isBlocking st; blockedSites := blockedSites st;
     alwaysBlockedSites := alwaysBlockedSites st; whitelistedUrls := whitelistedUrls st;
     blockCount := v; appConnected := appConnected st;
     isPunishmentLocked := isPunishmentLocked st; usageReportQueue := usageReportQueue st;
     aiCheckedDomains := aiCheckedDomains st; aiCheckInProgress := aiCheckInProgress st;
     storage := storage st; listeners := listeners st; trace := trace st |}.

Definition set_appConnected (v : bool) (st : State) : State :=
  {| isBlocking := isBlocking st; blockedSites := blockedSites st;
     alwaysBlockedSites := alwaysBlockedSites st; whitelistedUrls := whitelistedUrls st;
     blockCount := blockCount st; appConnected := v;
     isPunishmentLocked := isPunishmentLocked st; usageReportQueue := usageReportQueue st;
     aiCheckedDomains := aiCheckedDomains st; aiCheckInProgress := aiCheckInProgress st;
     storage := storage st; listeners := listeners st; trace := trace st |}.

Definition set_isPunishmentLocked (v : bool) (st : State) : State :=
  {| isBlocking := isBlocking st; blockedSites := blockedSites st;
     alwaysBlockedSites := alwaysBlockedSites st; whitelistedUrls := whitelistedUrls st;
     blockCount := blockCount st; appConnected := appConnected st;
     isPunishmentLocked := v; usageReportQueue := usageReportQueue st;
     aiCheckedDomains := aiCheckedDomains st; aiCheckInProgress := aiCheckInProgress st;
     storage := storage st; listeners := listeners st; trace := trace st |}.

Definition set_usageReportQueue (v : list Report) (st : State) : State :=
  {| isBlocking := isBlocking st; blockedSites := blockedSites st;
     alwaysBlockedSites := alwaysBlockedSites st; whitelistedUrls := whitelistedUrls st;
     blockCount := blockCount st; appConnected := appConnected st;
     isPunishmentLocked := isPunishmentLocked st; usageReportQueue := v;
     aiCheckedDomains := aiCheckedDomains st; aiCheckInProgress := aiCheckInProgress st;
     storage := storage st; listeners := listeners st; trace := trace st |}.

Definition set_aiCheckedDomains (v : gset string) (st : State) : State :=
  {| isBlocking := isBlocking st; blockedSites := blockedSites st;
     alwaysBlockedSites := alwaysBlockedSites st; whitelistedUrls := whitelistedUrls st;
     blockCount := blockCount st; appConnected := appConnected st;
     isPunishmentLocked := isPunishmentLocked st; usageReportQueue := usageReportQueue st;
     aiCheckedDomains := v; aiCheckInProgress := aiCheckInProgress st;
     storage := storage st; listeners := listeners st; trace := trace st |}.

Definition set_aiCheckInProgress (v : gset string) (st : State) : State :=
  {| isBlocking := isBlocking st; blockedSites := blockedSites st;
     alwaysBlockedSites := alwaysBlockedSites st; whitelistedUrls := whitelistedUrls st;
     blockCount := blockCount st; appConnected := appConnected st;
     isPunishmentLocked := isPunishmentLocked st; usageReportQueue := usageReportQueue st;
     aiCheckedDomains := aiCheckedDomains st; aiCheckInProgress := v;
     storage := storage st; listeners := listeners st; trace := trace st |}.

Definition set_storage (v : Storage) (st : State) : State :=
  {| isBlocking := isBlocking st; blockedSites := blockedSites st;
     alwaysBlockedSites := alwaysBlockedSites st; whitelistedUrls := whitelistedUrls st;
     blockCount := blockCount st; appConnected := appConnected st;
     isPunishmentLocked := isPunishmentLocked st; usageReportQueue := usageReportQueue st;
     aiCheckedDomains := aiCheckedDomains st; aiCheckInProgress := aiCheckInProgress st;
     storage := v; listeners := listeners st; trace := trace st |}.

Definition set_listeners (v : list Listener) (st : State) : State :=
  {| isBlocking := isBlocking st; blockedSites := blockedSites st;
     alwaysBlockedSites := alwaysBlockedSites st; whitelistedUrls := whitelistedUrls st;
     blockCount := blockCount st; appConnected := appConnected st;
     isPunishmentLocked := isPunishmentLocked st; usageReportQueue := usageReportQueue st;
     aiCheckedDomains := aiCheckedDomains st; aiCheckInProgress := aiCheckInProgress st;
     storage := storage st; listeners := v; trace := trace st |}.

Definition set_trace (v : list Effect) (st : State) : State :=
  {| isBlocking := isBlocking st; blockedSites := blockedSites st;
     alwaysBlockedSites := alwaysBlockedSites st; whitelistedUrls := whitelistedUrls st;
     blockCount := blockCount st; appConnected := appConnected st;
     isPunishmentLocked := isPunishmentLocked st; usageReportQueue := usageReportQueue st;
     aiCheckedDomains := aiCheckedDomains st; aiCheckInProgress := aiCheckInProgress st;
     storage := storage st; listeners := listeners st; trace := v |}.

(** Writes of [browser.storage.local.set({key})]. *)
Definition put_blockedSites (v : list string) (s : Storage) : Storage :=
  {| s_blockedSites := Some v; s_alwaysBlockedSites := s_alwaysBlockedSites s;
     s_whitelistedUrls := s_whitelistedUrls s; s_blockCount := s_blockCount s;
     s_punishmentState := s_punishmentState s; s_aiCheckedDomains := s_aiCheckedDomains s;
     s_isBlocking := s_isBlocking s |}.

Definition put_alwaysBlockedSites (v : list string) (s : Storage) : Storage :=
  {| s_blockedSites := s_blockedSites s; s_alwaysBlockedSites := Some v;
     s_whitelistedUrls := s_whitelistedUrls s; s_blockCount := s_blockCount s;
     s_punishmentState := s_punishmentState s; s_aiCheckedDomains := s_aiCheckedDomains s;
     s_isBlocking := s_isBlocking s |}.

Definition put_whitelistedUrls (v : list string) (s : Storage) : Storage :=
  {| s_blockedSites := s_blockedSites s; s_alwaysBlockedSites := s_alwaysBlockedSites s;
     s_whitelistedUrls := Some v; s_blockCount := s_blockCount s;
     s_punishmentState := s_punishmentState s; s_aiCheckedDomains := s_aiCheckedDomains s;
     s_isBlocking := s_isBlocking s |}.

Definition put_blockCount (v : nat) (s : Storage) : Storage :=
  {| s_blockedSites := s_blockedSites s; s_alwaysBlockedSites := s_alwaysBlockedSites s;
     s_whitelistedUrls := s_whitelistedUrls s; s_blockCount := Some v;
     s_punishmentState := s_punishmentState s; s_aiCheckedDomains := s_aiCheckedDomains s;
     s_isBlocking := s_isBlocking s |}.

Definition put_punishmentState (v : PunishmentRecord) (s : Storage) : Storage :=
  {| s_blockedSites := s_blockedSites s; s_alwaysBlockedSites := s_alwaysBlockedSites s;
     s_whitelistedUrls := s_whitelistedUrls s; s_blockCount := s_blockCount s;
     s_punishmentState := Some v; s_aiCheckedDomains := s_aiCheckedDomains s;
     s_isBlocking := s_isBlocking s |}.

Definition put_aiCheckedDomains (v : list string) (s : Storage) : Storage :=
  {| s_blockedSites := s_blockedSites s; s_alwaysBlockedSites := s_alwaysBlockedSites s;
     s_whitelistedUrls := s_whitelistedUrls s; s_blockCount := s_blockCount s;
     s_punishmentState := s_punishmentState s; s_aiCheckedDomains := Some v;
     s_isBlocking := s_isBlocking s |}.

Definition put_isBlocking (v : bool) (s : Storage) : Storage :=
  {| s_blockedSites := s_blockedSites s; s_alwaysBlockedSites := s_alwaysBlockedSites s;
     s_whitelistedUrls := s_whitelistedUrls s; s_blockCount := s_blockCount s;
     s_punishmentState := s_punishmentState s; s_aiCheckedDomains := s_aiCheckedDomains s;
     s_isBlocking := Some v |}.

(** ** Control flow: state and exceptions *)

Inductive outcome (A : Type) : Type :=
| Returned (a : A)
| Thrown.
Arguments Returned {A} a.
Arguments Thrown {A}.

(** A computation of the script: it reads and writes the state and
    either returns or throws. *)
Definition M (A : Type) : Type := State -> outcome A * State.

Definition ret {A : Type} (a : A) : M A := fun st => (Returned a, st).

Definition bind {A B : Type} (m : M A) (k : A -> M B) : M B := fun st =>
  match m st with
  | (Returned a, st') => k a st'
  | (Thrown, st') => (Thrown, st')
  end.

Declare Scope script_scope.
Delimit Scope script_scope with script.
Bind Scope script_scope with M.
Notation "x ← y ; z" := (bind y (fun x => z))
  (at level 20, y at level 100, z at level 200, only parsing) : script_scope.
Notation "x ;; z" := (bind x (fun _ => z))
  (at level 100, z at level 200, only parsing, right associativity) : script_scope.
Local Open Scope script_scope.

Definition throw {A : Type} : M A := fun st => (Thrown, st).

Definition gets {A : Type} (f : State -> A) : M A := fun st => (Returned (f st), st).

Definition modify (f : State -> State) : M unit := fun st => (Returned tt, f st).

(** [try { body } catch (error) { handler }] *)
Definition try_catch {A : Type} (body handler : M A) : M A := fun st =>
  match body st with
  | (Thrown, st') => handler st'
  | r => r
  end.

(** [try { body } finally { fin }] *)
Definition try_finally {A : Type} (body : M A) (fin : M unit) : M A := fun st =>
  match body st with
  | (r, st') =>
      match fin st' with
      | (Returned _, st'') => (r, st'')
      | (Thrown, st'') => (Thrown, st'')
      end
  end.

Definition skip : M unit := ret tt.

(** The state a computation leaves, and its result. *)
Definition exec {A : Type} (m : M A) (st : State) : State := snd (m st).
Definition eval {A : Type} (m : M A) (st : State) : outcome A := fst (m st).

(** *** Awaiting a fetch *)

Record response (B : Type) : Type := { ok : bool; json_body : option B }.
Arguments ok {B} r.
Arguments json_body {B} r.

(** [await fetch(...)] *)
Definition fetch {B : Type} (r : fetch_result B) : M (response B) :=
  match r with
  | NetworkError => throw
  | Response o b => ret {| ok := o; json_body := b |}
  end.

(** [await response.json()] *)
Definition json {B : Type} (r : response B) : M B :=
  match json_body r with
  | Some b => ret b
  | None => throw
  end.

(** *** Browser calls *)

Definition emit (e : Effect) : M unit :=
  modify (fun st => set_trace (trace st ++ [e]) st).

Definition storage_set (put : Storage -> Storage) : M unit :=
  modify (fun st => set_storage (put (storage st)) st).

Definition hasListener (l : Listener) (st : State) : bool :=
  bool_decide (l ∈ listeners st).

Definition removeListener (l : Listener) : M unit :=
  modify (fun st => set_listeners (filter (fun x => x ≠ l) (listeners st)) st).

Definition addListener (l : Listener) : M unit :=
  modify (fun st =>
    if hasListener l st then st else set_listeners (listeners st ++ [l]) st).

(** [encodeURIComponent]: every byte outside [A-Z a-z 0-9 - _ . ! ~ * ' ( )]
    becomes [%XX]. *)
Definition is_digit (c : ascii) : bool :=
  (48 <=? nat_of_ascii c) && (nat_of_ascii c <=? 57).

Definition uri_unreserved (c : ascii) : bool :=
  Js.is_upper c || Js.is_lower c || is_digit c ||
  existsb (Ascii.eqb c) (list_ascii_of_string "-_.!~*'()").

Definition hex_digit (n : nat) : ascii :=
  if n <? 10 then ascii_of_nat (48 + n) else ascii_of_nat (55 + n).

Fixpoint encodeURIComponent (s : string) : string :=
  match s with
  | EmptyString => EmptyString
  | String c r =>
      if uri_unreserved c then String c (encodeURIComponent r)
      else String "%" (String (hex_digit (nat_of_ascii c / 16))
             (String (hex_digit (nat_of_ascii c mod 16)) (encodeURIComponent r)))
  end.

(** ** The background script *)

Section Background.

(** [browser.runtime.getURL('')]: the origin of the extension's own
    pages, [moz-extension://<uuid>/]. *)
Variable extension_base : string.

Definition getURL (path : string) : string := extension_base +:+ path.

(** *** Listeners on and off *)

Definition startBlocking : M unit :=
  has ← gets (hasListener L_blockRequest);
  (if has then removeListener L_blockRequest else skip);;
  addListener L_blockRequest.

Definition stopBlocking : M unit :=
  has ← gets (hasListener L_blockRequest);
  if has then removeListener L_blockRequest else skip.

Definition startAlwaysBlocking : M unit :=
  has ← gets (hasListener L_alwaysBlockRequest);
  (if has then removeListener L_alwaysBlockRequest else skip);;
  addListener L_alwaysBlockRequest.

Definition startPunishmentBlocking : M unit :=
  has ← gets (hasListener L_punishmentBlockRequest);
  (if has then removeListener L_punishmentBlockRequest else skip);;
  addListener L_punishmentBlockRequest.

Definition stopPunishmentBlocking : M unit :=
  has ← gets (hasListener L_punishmentBlockRequest);
  if has then removeListener L_punishmentBlockRequest else skip.

(** [updateIcon]: the badge text (the icon follows [isBlocking] too). *)
Definition updateIcon : M unit :=
  blocking ← gets isBlocking;
  connected ← gets appConnected;
  if blocking then emit (SetBadgeText "ON")
  else if connected then emit (SetBadgeText "")
  else emit (SetBadgeText "!").

(** *** Punishment status *)

Definition checkCachedPunishmentStatus : M unit :=
  try_catch
    (data ← gets storage;
     match s_punishmentState data with
     | Some status =>
         wasLocked ← gets isPunishmentLocked;
         if is_locked status && (0 <? lock_time_remaining status)%Z then
           modify (set_isPunishmentLocked true);;
           if negb wasLocked then startPunishmentBlocking else skip
         else
           modify (set_isPunishmentLocked false);;
           if wasLocked then stopPunishmentBlocking else skip
     | None => skip
     end)
    skip.

Definition checkPunishmentStatus (r : fetch_result PunishmentRecord) : M unit :=
  try_catch
    (resp ← fetch r;
     if ok resp then
       status ← json resp;
       storage_set (put_punishmentState status);;
       wasLocked ← gets isPunishmentLocked;
       modify (set_isPunishmentLocked (is_locked status));;
       locked ← gets isPunishmentLocked;
       if locked && negb wasLocked then startPunishmentBlocking
       else if negb locked && wasLocked then stopPunishmentBlocking
       else skip
     else skip)
    checkCachedPunishmentStatus.

(** *** Rule sets *)

(** [x && x.length > 0] on an optional array *)
Definition nonempty_array (x : option (list string)) : option (list string) :=
  match x with
  | Some (y :: l) => Some (y :: l)
  | _ => None
  end.

Definition fetchBlockedSites (r : fetch_result SitesBody) : M unit :=
  try_catch
    (resp ← fetch r;
     if ok resp then
       data ← json resp;
       match nonempty_array (sites data) with
       | Some l =>
           modify (set_blockedSites l);;
           storage_set (put_blockedSites l)
       | None => skip
       end;;
       match nonempty_array (alwaysBlocked data) with
       | Some l =>
           modify (set_alwaysBlockedSites l);;
           storage_set (put_alwaysBlockedSites l)
       | None => skip
       end;;
       match whitelist data with
       | Some l =>
           modify (set_whitelistedUrls l);;
           storage_set (put_whitelistedUrls l)
       | None => skip
       end
     else skip)
    skip.

(** One whitelist entry against the lower-cased URL: the body of the
    loop of [isWhitelisted]. *)
Definition whitelist_entry_allows (normalizedUrl whitelistEntry : string) : bool :=
  let normalizedWhitelist := Js.toLowerCase whitelistEntry in
  if String.eqb normalizedUrl normalizedWhitelist then true
  else if Js.startsWith normalizedUrl normalizedWhitelist then true
  else
    let urlWithoutProtocol := RegExp.remove_first re_protocol normalizedUrl in
    let whitelistWithoutProtocol := RegExp.remove_first re_protocol normalizedWhitelist in
    if String.eqb urlWithoutProtocol whitelistWithoutProtocol then true
    else if Js.startsWith urlWithoutProtocol whitelistWithoutProtocol then true
    else
      let urlNoWww := RegExp.remove_first re_www urlWithoutProtocol in
      let whitelistNoWww := RegExp.remove_first re_www whitelistWithoutProtocol in
      String.eqb urlNoWww whitelistNoWww || Js.startsWith urlNoWww whitelistNoWww.

Definition isWhitelisted (st : State) (url : string) : bool :=
  match whitelistedUrls st with
  | [] => false
  | entries => existsb (whitelist_entry_allows (Js.toLowerCase url)) entries
  end.

Definition buildBlockPattern (st : State) : option RegExp.t :=
  buildPatternForSites (blockedSites st).

Definition buildAlwaysBlockPattern (st : State) : option RegExp.t :=
  buildPatternForSites (alwaysBlockedSites st).

(** *** Request listeners *)

Definition count_block : M unit :=
  modify (fun st => set_blockCount (S (blockCount st)) st);;
  n ← gets blockCount;
  storage_set (put_blockCount n).

Definition blockRequest (url : string) : M BlockingResponse :=
  allowed ← gets (fun st => isWhitelisted st url);
  if allowed then ret Allow
  else
    pattern ← gets buildBlockPattern;
    if pattern_test pattern url then
      count_block;;
      ret (Redirect (getURL "blocked.html" +:+ "?url=" +:+ encodeURIComponent url))
    else ret Allow.

(** [reportAdultStrike()], called without [await]: the POST leaves at
    once; [reportAdultStrike_done] is what runs when its answer comes. *)
Definition reportAdultStrike : M unit := emit PostAdultStrike.

Definition reportAdultStrike_done (r : fetch_result PunishmentRecord) : M unit :=
  try_catch
    (resp ← fetch r;
     if ok resp then
       data ← json resp;
       storage_set (put_punishmentState data)
     else skip)
    skip.

Definition alwaysBlockRequest (url : string) : M BlockingResponse :=
  pattern ← gets buildAlwaysBlockPattern;
  if pattern_test pattern url then
    count_block;;
    reportAdultStrike;;
    ret (Redirect (getURL "blocked.html" +:+ "?url=" +:+ encodeURIComponent url
                    +:+ "&adult=1"))
  else ret Allow.

Definition punishmentBlockRequest (url : string) : M BlockingResponse :=
  if Js.startsWith url (getURL "") then ret Allow
  else if Js.includes url "127.0.0.1" || Js.includes url "localhost" then ret Allow
  else
    ret (Redirect (getURL "blocked.html" +:+ "?url=" +:+ encodeURIComponent url
                    +:+ "&adult=1&punishment=1")).

(** *** AI cache *)

Definition syncAICache (r : fetch_result NsfwCacheBody) : M unit :=
  try_catch
    (resp ← fetch r;
     if ok resp then
       data ← json resp;
       match checked_domains data with
       | Some l =>
           modify (set_aiCheckedDomains (list_to_set l));;
           checked ← gets aiCheckedDomains;
           storage_set (put_aiCheckedDomains (elements checked))
       | None => skip
       end
     else skip)
    skip.

(** *** The sync cycle *)

(** The answers of the server to the requests of one cycle. *)
Record SyncNet : Type := {
  net_status : fetch_result StatusBody;
  net_sites : fetch_result SitesBody;
  net_punishment : fetch_result PunishmentRecord;
  net_cache : fetch_result NsfwCacheBody
}.

Definition syncWithApp (net : SyncNet) : M unit :=
  try_catch
    (resp ← fetch (net_status net);
     (if ok resp then
        status ← json resp;
        modify (set_appConnected true);;
        wasBlocking ← gets isBlocking;
        modify (set_isBlocking (status_isBlocking status));;
        blocking ← gets isBlocking;
        (if blocking && negb wasBlocking then
           fetchBlockedSites (net_sites net);;
           startBlocking
         else if negb blocking && wasBlocking then stopBlocking
         else skip);;
        updateIcon
      else modify (set_appConnected false));;
     checkPunishmentStatus (net_punishment net);;
     syncAICache (net_cache net))
    (modify (set_appConnected false);;
     blocking ← gets isBlocking;
     (if blocking then
        modify (set_isBlocking false);;
        stopBlocking;;
        updateIcon
      else skip);;
     checkCachedPunishmentStatus).

(** [startSync]: the first poll and the 2-second timer. The poll's
    request leaves at once and its handling is a later [syncWithApp]. *)
Definition startSync : M unit := skip.

(** [initialize], up to its return; [data] is what storage holds. *)
Definition initialize : M unit :=
  data ← gets storage;
  modify (set_blockedSites (default DEFAULT_BLOCKED_SITES (s_blockedSites data)));;
  modify (set_alwaysBlockedSites (default [] (s_alwaysBlockedSites data)));;
  modify (set_whitelistedUrls (default [] (s_whitelistedUrls data)));;
  modify (set_blockCount (default 0 (s_blockCount data)));;
  match s_aiCheckedDomains data with
  | Some l => modify (set_aiCheckedDomains (list_to_set l))
  | None => skip
  end;;
  match s_punishmentState data with
  | Some p =>
      if is_locked p then
        modify (set_isPunishmentLocked true);;
        startPunishmentBlocking
      else skip
  | None => skip
  end;;
  startSync;;
  startAlwaysBlocking;;
  updateIcon.

(** *** Messages from the popup *)

Inductive Message : Type :=
| GetStatus
| ManualToggle
| ResetCount
| ForceSync (net : SyncNet).

Record StatusReply : Type := {
  reply_isBlocking : bool;
  reply_blockedSites : list string;
  reply_alwaysBlockedSites : list string;
  reply_whitelistedUrls : list string;
  reply_blockCount : nat;
  reply_appConnected : bool;
  reply_isPunishmentLocked : bool
}.

Inductive Reply : Type :=
| ReplyStatus (r : StatusReply)
| ReplyToggled (isBlocking : bool)
| ReplyError (error : string)
| ReplySuccess
| ReplySynced (isBlocking appConnected : bool).

Definition onMessage (message : Message) : M Reply :=
  match message with
  | GetStatus =>
      st ← gets id;
      ret (ReplyStatus
             {| reply_isBlocking := isBlocking st;
                reply_blockedSites := blockedSites st;
                reply_alwaysBlockedSites := alwaysBlockedSites st;
                reply_whitelistedUrls := whitelistedUrls st;
                reply_blockCount := blockCount st;
                reply_appConnected := appConnected st;
                reply_isPunishmentLocked := isPunishmentLocked st |})
  | ManualToggle =>
      connected ← gets appConnected;
      if negb connected then
        modify (fun st => set_isBlocking (negb (isBlocking st)) st);;
        blocking ← gets isBlocking;
        (if blocking then startBlocking else stopBlocking);;
        storage_set (put_isBlocking blocking);;
        updateIcon;;
        ret (ReplyToggled blocking)
      else ret (ReplyError "Controlled by desktop app")
  | ResetCount =>
      modify (set_blockCount 0);;
      storage_set (put_blockCount 0);;
      ret ReplySuccess
  | ForceSync net =>
      syncWithApp net;;
      blocking ← gets isBlocking;
      connected ← gets appConnected;
      ret (ReplySynced blocking connected)
  end.

(** *** AI NSFW detection *)

Definition shouldCheckDomain (st : State) (domain : string) : bool :=
  if String.eqb domain "" then false
  else if bool_decide (domain ∈ aiCheckedDomains st) then false
  else if bool_decide (domain ∈ aiCheckInProgress st) then false
  else if String.eqb domain "127.0.0.1" || String.eqb domain "localhost" then false
  else if Js.endsWith domain ".local" then false
  else if pattern_test (buildAlwaysBlockPattern st) ("https://" +:+ domain) then false
  else if pattern_test (buildBlockPattern st) ("https://" +:+ domain) then false
  else true.

(** The on-demand ping at the head of [checkPageContent]. *)
Definition classify_ping (ping : fetch_result unit) : M unit :=
  connected ← gets appConnected;
  if negb connected then
    try_catch
      (resp ← fetch ping;
       if ok resp then modify (set_appConnected true) else skip)
      skip
  else skip.

(** From the ping's answer to the [aiCheckInProgress.add]: no [await]
    in between. The result tells whether the domain was marked. *)
Definition classify_enter (domain : string) : M bool :=
  connected ← gets appConnected;
  if negb connected then ret false
  else
    should ← gets (fun st => shouldCheckDomain st domain);
    if negb should then ret false
    else
      modify (fun st => set_aiCheckInProgress ({[domain]} ∪ aiCheckInProgress st) st);;
      ret true.

Definition make_payload (url domain : string) (signals : option Signals) : Payload :=
  {| p_url := url; p_domain := domain;
     p_title := match signals with Some s => title s | None => "" end;
     p_meta_description := match signals with Some s => meta_description s | None => "" end;
     p_body_text := match signals with Some s => body_text s | None => "" end |}.

(** The [try] block of [checkPageContent]. [signals] is what
    [extractPageSignals] resolved to, which never rejects. *)
Definition classify_try (tabId : nat) (url domain : string)
    (signals : option Signals) (r : fetch_result CheckResult) : M unit :=
  emit (PostCheckContent (make_payload url domain signals));;
  resp ← fetch r;
  if ok resp then
    result ← json resp;
    (if negb (String.eqb (method result) "disabled")
        && negb (String.eqb (method result) "no_api_key") then
       modify (fun st => set_aiCheckedDomains ({[domain]} ∪ aiCheckedDomains st) st);;
       checked ← gets aiCheckedDomains;
       storage_set (put_aiCheckedDomains (elements checked))
     else skip);;
    if is_nsfw result then
      listed ← gets (fun st => Js.array_includes (alwaysBlockedSites st) domain);
      (if negb listed then
         modify (fun st => set_alwaysBlockedSites (alwaysBlockedSites st ++ [domain]) st);;
         l ← gets alwaysBlockedSites;
         storage_set (put_alwaysBlockedSites l)
       else skip);;
      emit (TabsUpdate tabId
              (getURL "blocked.html" +:+ "?url=" +:+ encodeURIComponent url
               +:+ "&adult=1&ai=1"));;
      reportAdultStrike
    else skip
  else skip.

(** [try { ... } catch { ... }]: the [catch] only logs. *)
Definition classify_answer (tabId : nat) (url domain : string)
    (signals : option Signals) (r : fetch_result CheckResult) : M unit :=
  try_catch (classify_try tabId url domain signals r) skip.

(** [finally { aiCheckInProgress.delete(domain) }] *)
Definition classify_finally (domain : string) : M unit :=
  modify (fun st => set_aiCheckInProgress (aiCheckInProgress st ∖ {[domain]}) st).

(** [try { ... } catch { ... } finally { ... }] *)
Definition classify_run (tabId : nat) (url domain : string)
    (signals : option Signals) (r : fetch_result CheckResult) : M unit :=
  try_finally (classify_answer tabId url domain signals r) (classify_finally domain).

Definition checkPageContent (tabId : nat) (url domain : string)
    (ping : fetch_result unit) (signals : option Signals)
    (r : fetch_result CheckResult) : M unit :=
  classify_ping ping;;
  marked ← classify_enter domain;
  if marked then classify_run tabId url domain signals r else skip.

(** *** Usage reports *)

Definition push_report (report : Report) : M unit :=
  modify (fun st => set_usageReportQueue (usageReportQueue st ++ [report]) st).

(** The [for] loop of [flushUsageQueue] over its copy of the queue;
    [answers i] is the answer to the [i]-th POST of the pass. The
    inner result is [true] after [break]. *)
Fixpoint flush_loop (answers : nat -> fetch_result unit) (i : nat)
    (queue : list Report) : M unit :=
  match queue with
  | [] => skip
  | report :: rest =>
      broke ← try_catch
                (emit (PostUsage report);;
                 resp ← fetch (answers i);
                 (if negb (ok resp) then push_report report else skip);;
                 ret false)
                (push_report report;;
                 ret true);
      if broke then skip else flush_loop answers (S i) rest
  end.

Definition flushUsageQueue (answers : nat -> fetch_result unit) : M unit :=
  queue ← gets usageReportQueue;
  match queue with
  | [] => skip
  | _ =>
      modify (set_usageReportQueue []);;
      flush_loop answers 0 queue
  end.

(** [reportWebsiteUsage(domain, seconds)]; [r] answers its own POST and
    [answers] those of the flush it starts after a success. *)
Definition reportWebsiteUsage (domain : string) (seconds : Z)
    (r : fetch_result unit) (answers : nat -> fetch_result unit) : M unit :=
  if String.eqb domain "" || (seconds <=? 0)%Z then skip
  else
    let report := {| r_domain := domain; r_seconds := seconds |} in
    try_catch
      (emit (PostUsage report);;
       resp ← fetch r;
       if ok resp then flushUsageQueue answers
       else push_report report)
      (push_report report).

(** [extractDomain(url)]; [None] is [null]. *)
Definition extractDomain (url : string) : option string :=
  match Url.hostname url with
  | Some host => Some (Js.toLowerCase (RegExp.remove_first re_www host))
  | None => None
  end.

End Background.

(** ** Runs of the script

    The event loop runs one handler at a time. A [checkPageContent]
    call is cut at its [await]s in three: up to the mark in
    [aiCheckInProgress]; the handling of the classifier's answer; the
    [finally]. Between them any other handler may run, and so may the
    parts of other calls. *)

Section Runs.

Variable extension_base : string.

Inductive Handler : Type :=
| H_syncWithApp (net : SyncNet)
| H_blockRequest (url : string)
| H_alwaysBlockRequest (url : string)
| H_punishmentBlockRequest (url : string)
| H_onMessage (message : Message)
| H_reportAdultStrike_done (r : fetch_result PunishmentRecord)
| H_reportWebsiteUsage (domain : string) (seconds : Z)
    (r : fetch_result unit) (answers : nat -> fetch_result unit)
| H_flushUsageQueue (answers : nat -> fetch_result unit)
| H_classify_ping (ping : fetch_result unit).

Definition run_handler (h : Handler) (st : State) : State :=
  match h with
  | H_syncWithApp net => exec (syncWithApp net) st
  | H_blockRequest url => exec (blockRequest extension_base url) st
  | H_alwaysBlockRequest url => exec (alwaysBlockRequest extension_base url) st
  | H_punishmentBlockRequest url => exec (punishmentBlockRequest extension_base url) st
  | H_onMessage message => exec (onMessage message) st
  | H_reportAdultStrike_done r => exec (reportAdultStrike_done r) st
  | H_reportWebsiteUsage domain seconds r answers =>
      exec (reportWebsiteUsage domain seconds r answers) st
  | H_flushUsageQueue answers => exec (flushUsageQueue answers) st
  | H_classify_ping ping => exec (classify_ping ping) st
  end.

(** The state of the script and the domains of the classification
    calls that have marked their domain and not yet reached their
    [finally], one entry per call. *)
Record Config : Type := { now : State; outstanding : list string }.

Fixpoint remove_one (d : string) (l : list string) : list string :=
  match l with
  | [] => []
  | x :: l' => if String.eqb d x then l' else x :: remove_one d l'
  end.

Inductive step : Config -> Config -> Prop :=
| step_handler (h : Handler) (c : Config) :
    step c {| now := run_handler h (now c); outstanding := outstanding c |}
| step_classify_enter (domain : string) (c : Config) :
    step c {| now := exec (classify_enter domain) (now c);
              outstanding :=
                match eval (classify_enter domain) (now c) with
                | Returned true => domain :: outstanding c
                | _ => outstanding c
                end |}
| step_classify_answer (tabId : nat) (url domain : string)
    (signals : option Signals) (r : fetch_result CheckResult) (c : Config) :
    In domain (outstanding c) ->
    step c {| now := exec (classify_answer extension_base tabId url domain signals r) (now c);
              outstanding := outstanding c |}
| step_classify_finally (domain : string) (c : Config) :
    In domain (outstanding c) ->
    step c {| now := exec (classify_finally domain) (now c);
              outstanding := remove_one domain (outstanding c) |}.

Inductive reachable : Config -> Prop :=
| reachable_start (sto : Storage) :
    reachable {| now := exec initialize (initial_state sto); outstanding := [] |}
| reachable_step (c c' : Config) :
    reachable c -> step c c' -> reachable c'.

End Runs.

(** ** Shapes used in the statements *)

(** The terms of a literal string in front of the terms of [k], as
    [parse_alternative] builds them. *)
Fixpoint lits_then (s : string) (k : RegExp.regex) : RegExp.regex :=
  match s with
  | EmptyString => k
  | String c r => RegExp.RSeq (RegExp.RChar c) (lits_then r k)
  end.

Definition lits (s : string) : RegExp.regex := lits_then s RegExp.REmpty.

(** The regex of [d1|d2|...|dn], as [parse_disjunction] builds it. *)
Fixpoint alts (l : list string) : RegExp.regex :=
  match l with
  | [] => RegExp.REmpty
  | [d] => lits d
  | d :: rest => RegExp.RAlt (lits d) (alts rest)
  end.

(** The regex of [^https?://(www\.)?(d1|...|dn)]. *)
Definition block_regex (domains : list string) : RegExp.regex :=
  RegExp.RSeq RegExp.RBol
    (lits_then "http"
       (RegExp.RSeq (RegExp.ROpt (RegExp.RChar "s"))
          (lits_then "://"
             (RegExp.RSeq (RegExp.ROpt (RegExp.RGroup (lits "www.")))
                (RegExp.RSeq (RegExp.RGroup (alts domains)) RegExp.REmpty))))).

(** [s] begins with [p], characters compared as the matcher compares
    them under the flag [ic]. *)
Fixpoint starts_with (ic : bool) (s p : string) {struct p} : bool :=
  match p with
  | EmptyString => true
  | String a p' =>
      match s with
      | EmptyString => false
      | String b s' => RegExp.char_match ic a b && starts_with ic s' p'
      end
  end.

(** The four prefixes the block pattern accepts before a domain. *)
Definition block_prefixes : list string :=
  ["http://"; "http://www."; "https://"; "https://www."].

(** A URL begins, case-insensitively, with one of the four prefixes
    followed by the stripped form of one of the sites. *)
Definition begins_with_site (sites : list string) (url : string) : bool :=
  existsb (fun site =>
    existsb (fun prefix =>
      Js.startsWith (Js.toLowerCase url) (Js.toLowerCase (prefix +:+ stripSite site)))
      block_prefixes) sites.

(** Every run of a computation relates the state before to the state
    after by [R]. *)
Definition keeps {A : Type} (R : State -> State -> Prop) (m : M A) : Prop :=
  forall st, R st (snd (m st)).

(** The observation [f] has the same value in both states. *)
Definition same {B : Type} (f : State -> B) : State -> State -> Prop :=
  fun st st' => f st' = f st.

(** A computation leaves an observation of the state as it was. *)
Definition preserves {A B : Type} (f : State -> B) (m : M A) : Prop :=
  keeps (same f) m.

(** The always-blocked list only gains entries. *)
Definition grows : State -> State -> Prop :=
  fun st st' => incl (alwaysBlockedSites st) (alwaysBlockedSites st').

(** A computation never throws. *)
Definition returns {A : Type} (m : M A) : Prop :=
  forall st, exists a, fst (m st) = Returned a.

(** The shape shared by [startBlocking], [startAlwaysBlocking] and
    [startPunishmentBlocking], and by the two [stop] functions. *)
Definition arm (l : Listener) : M unit :=
  has ← gets (hasListener l);
  (if has then removeListener l else skip);;
  addListener l.

Definition disarm (l : Listener) : M unit :=
  has ← gets (hasListener l);
  if has then removeListener l else skip.

(** The [/status] poll ends in the [catch] of [syncWithApp]: [fetch]
    rejects, or the body of an OK response does not parse. *)
Definition status_poll_rejected (r : fetch_result StatusBody) : bool :=
  match r with
  | NetworkError => true
  | Response true None => true
  | _ => false
  end.

(** The [/status] poll gives no status: rejected, or not OK. *)
Definition status_poll_failed (r : fetch_result StatusBody) : bool :=
  match r with
  | Response true (Some _) => false
  | _ => true
  end.

(** A delivery of a usage report fails: [fetch] rejects or the
    response is not OK. *)
Definition delivery_failed (r : fetch_result unit) : bool :=
  match r with
  | Response true _ => false
  | _ => true
  end.

(** The variables the punishment and cache polls leave alone. *)
Definition sync_core (st : State) :=
  (isBlocking st, appConnected st, blockedSites st, whitelistedUrls st,
   alwaysBlockedSites st, blockCount st).

(** ** Sample inputs *)

Definition sample_base : string := "moz-extension://0a1b2c3d/".

Definition all_down : SyncNet :=
  {| net_status := NetworkError; net_sites := NetworkError;
     net_punishment := NetworkError; net_cache := NetworkError |}.

Definition status_http_500 : SyncNet :=
  {| net_status := Response false None; net_sites := NetworkError;
     net_punishment := Response false None; net_cache := Response false None |}.

(** ** Shapes used in the statements on patterns *)

(** With fuel [n] or more, the parser reads [r] off the front of [s] and
    leaves [rest]. *)
Definition parses_alt (s : string) (r : RegExp.regex) (rest : string) (n : nat) : Prop :=
  forall f, n <= f -> RegExp.parse_alternative f s = Some (r, rest).

Definition parses_disj (s : string) (r : RegExp.regex) (rest : string) (n : nat) : Prop :=
  forall f, n <= f -> RegExp.parse_disjunction f s = Some (r, rest).

Definition parses_term (s : string) (r : RegExp.regex) (rest : string) (n : nat) : Prop :=
  forall f, n <= f -> RegExp.parse_term f s = Some (r, rest).

(** Fuel that suffices for the alternatives [d1|...|dn]. *)
Fixpoint fuel_for (ds : list string) : nat :=
  match ds with
  | [] => 0
  | [d] => String.length d + 4
  | d :: ds' => S (Nat.max (String.length d + 3) (fuel_for ds'))
  end.

(** Some match of [r] at index [i], letter case aside. *)
Definition matches_at (r : RegExp.regex) (i : nat) (s : string) : bool :=
  existsb (fun _ => true) (RegExp.run true r i s).

(** [s] without its prefix [p], when it has it. *)
Definition strip_prefix (p s : string) : string :=
  if Js.startsWith s p then Js.drop (String.length p) s else s.

(** [s] without a leading [https://] or [http://]. *)
Definition strip_protocol (s : string) : string :=
  if Js.startsWith s "https://" then Js.drop 8 s
  else if Js.startsWith s "http://" then Js.drop 7 s
  else s.

(** What may follow the host in a URL: nothing, or the start of a port,
    path, query or fragment. *)
Definition url_boundary (rest : string) : bool :=
  match rest with
  | EmptyString => true
  | String c _ => existsb (Ascii.eqb c) (list_ascii_of_string "/:?#")
  end.

(** ** The first version of the script

    [browser_extension/background.js] has the session blocking alone:
    no always-blocked list, no punishment lock, no classifier, no usage
    queue. Its [isWhitelisted], [blockRequest], [startBlocking],
    [stopBlocking] and [updateIcon] are, word for word, those of the
    current script; the functions below are the ones that differ. *)

Module V1.

Definition fetchBlockedSites (r : fetch_result SitesBody) : M unit :=
  try_catch
    (resp ← fetch r;
     if ok resp then
       data ← json resp;
       match nonempty_array (sites data) with
       | Some l =>
           modify (set_blockedSites l);;
           storage_set (put_blockedSites l)
       | None => skip
       end;;
       match whitelist data with
       | Some l =>
           modify (set_whitelistedUrls l);;
           storage_set (put_whitelistedUrls l)
       | None => skip
       end
     else skip)
    skip.

(** [status] and [sites] are the answers to the requests of the cycle. *)
Definition syncWithApp (status : fetch_result StatusBody)
    (sites : fetch_result SitesBody) : M unit :=
  try_catch
    (resp ← fetch status;
     if ok resp then
       status ← json resp;
       modify (set_appConnected true);;
       wasBlocking ← gets isBlocking;
       modify (set_isBlocking (status_isBlocking status));;
       blocking ← gets isBlocking;
       (if blocking && negb wasBlocking then
          fetchBlockedSites sites;;
          startBlocking
        else if negb blocking && wasBlocking then stopBlocking
        else skip);;
       updateIcon
     else modify (set_appConnected false))
    (modify (set_appConnected false);;
     blocking ← gets isBlocking;
     if blocking then
       modify (set_isBlocking false);;
       stopBlocking;;
       updateIcon
     else skip).

Definition initialize : M unit :=
  data ← gets storage;
  modify (set_blockedSites (default DEFAULT_BLOCKED_SITES (s_blockedSites data)));;
  modify (set_whitelistedUrls (default [] (s_whitelistedUrls data)));;
  modify (set_blockCount (default 0 (s_blockCount data)));;
  startSync;;
  updateIcon.

End V1.

(** ** The popup

    [browser_extension/popup.js]: the two variables of the popup
    script and the elements of its page that [updateUI] writes. The
    page itself is not part of the sources, so the elements are as the
    script finds them. A message to the background script is the run of
    its [onMessage] listener. *)

Module Popup.

Record Vars : Type := { isBlocking : bool; appConnected : bool }.

(** An element's [classList] is the list of its class names. *)
Record Dom : Type := {
  connectionDot_classList : list string;
  connectionText_textContent : string;
  controlledMessage_display : string;
  toggleBtn_classList : list string;
  toggleBtn_textContent : string;
  statusText_textContent : string;
  statusIndicator_classList : list string;
  blockCount_textContent : string;
  sitesCount_textContent : string;
  sitesPreview_innerHTML : string
}.

(** [classList.add(name)] and [classList.remove(name)] *)
Definition classList_add (name : string) (l : list string) : list string :=
  if Js.array_includes l name then l else l ++ [name].

Definition classList_remove (name : string) (l : list string) : list string :=
  filter (fun x => x <> name) l.

(** [/^(www\.)?/] *)
Definition re_optional_www : RegExp.t := RegExp.literal "^(www\.)?" "".

(** The preview of the first eight sites and the count of the rest. *)
Definition sites_preview (sites : list string) : string :=
  match sites with
  | [] => "<span>No sites configured</span>"
  | _ =>
      let preview :=
        Js.join "" (map (fun s => "<span>" +:+ RegExp.remove_first re_optional_www s
                                  +:+ "</span>") (firstn 8 sites)) in
      let more :=
        if 8 <? length sites
        then "<span>+" +:+ pretty (length sites - 8) +:+ " more</span>"
        else "" in
      preview +:+ more
  end.

(** [updateUI(status)] *)
Definition updateUI (status : StatusReply) (dom : Dom) : Vars * Dom :=
  let isBlocking := reply_isBlocking status in
  let appConnected := reply_appConnected status in
  let connectionDot :=
    if appConnected then classList_add "connected" (connectionDot_classList dom)
    else classList_remove "connected" (connectionDot_classList dom) in
  let connectionText :=
    if appConnected then "Connected to Desktop App" else "Desktop App Not Running" in
  let controlledMessage := if appConnected then "block" else "none" in
  let toggleBtn1 :=
    if appConnected then classList_add "disabled" (toggleBtn_classList dom)
    else classList_remove "disabled" (toggleBtn_classList dom) in
  let toggleText1 :=
    if appConnected
    then (if isBlocking then "Blocking Active" else "Waiting for Session")
    else toggleBtn_textContent dom in
  let statusText := if isBlocking then "Blocking Active" else "Blocking Inactive" in
  let statusIndicator :=
    if isBlocking then classList_add "active" (statusIndicator_classList dom)
    else classList_remove "active" (statusIndicator_classList dom) in
  let toggleText2 :=
    if negb appConnected
    then (if isBlocking then "Stop Blocking" else "Start Blocking")
    else toggleText1 in
  let toggleBtn2 :=
    if negb appConnected
    then (if isBlocking then ["toggle-btn"; "stop"] else ["toggle-btn"; "start"])
    else toggleBtn1 in
  ({| isBlocking := isBlocking; appConnected := appConnected |},
   {| connectionDot_classList := connectionDot;
      connectionText_textContent := connectionText;
      controlledMessage_display := controlledMessage;
      toggleBtn_classList := toggleBtn2;
      toggleBtn_textContent := toggleText2;
      statusText_textContent := statusText;
      statusIndicator_classList := statusIndicator;
      blockCount_textContent := pretty (reply_blockCount status);
      sitesCount_textContent := pretty (length (reply_blockedSites status));
      sitesPreview_innerHTML := sites_preview (reply_blockedSites status) |}).

(** [loadStatus()] *)
Definition loadStatus (p : Vars * Dom) : M (Vars * Dom) :=
  response ← onMessage GetStatus;
  match response with
  | ReplyStatus status => ret (updateUI status (snd p))
  | _ => ret p
  end.

(** [toggleBlocking()], the click on the toggle button. *)
Definition toggleBlocking (p : Vars * Dom) : M (Vars * Dom) :=
  if appConnected (fst p) then ret p
  else
    response ← onMessage ManualToggle;
    match response with
    | ReplyError _ => ret p
    | _ => loadStatus p
    end.

End Popup.

(** ** Usage tracking

    The tracker keeps [currentDomain] and [trackingStartTime]. Its calls
    [reportWebsiteUsage(domain, seconds)] are not awaited and are listed
    by their arguments, in the order they are made. [Date.now()] is an
    input: one reading for the elapsed time, one for the new start.
    After the [await] of its tabs query [trackActiveTab] runs to its end
    without another [await], so a run of the tracker is a sequence of
    whole steps. *)

Record Tracker : Type := {
  currentDomain : option string;
  trackingStartTime : option Z
}.

(** [currentDomain = null; trackingStartTime = null] *)
Definition not_tracking : Tracker :=
  {| currentDomain := None; trackingStartTime := None |}.

(** [currentDomain && trackingStartTime]: the two values when both are
    truthy (a domain that is not empty, a start that is not 0). *)
Definition tracked (tr : Tracker) : option (string * Z) :=
  match currentDomain tr, trackingStartTime tr with
  | Some d, Some t => if String.eqb d "" || (t =? 0)%Z then None else Some (d, t)
  | _, _ => None
  end.

(** [Math.floor((Date.now() - trackingStartTime) / 1000)] *)
Definition elapsed_seconds (now start : Z) : Z := ((now - start) / 1000)%Z.

(** What [browser.tabs.query] resolves to: the tabs, each with its
    [url] when it has one. *)
Inductive tabs_query : Type :=
| QueryRejected
| QueryTabs (urls : list (option string)).

(** [tabs.length === 0 || !tabs[0].url] is false: the URL of the first tab. *)
Definition first_tab_url (urls : list (option string)) : option string :=
  match urls with
  | Some url :: _ => if String.eqb url "" then None else Some url
  | _ => None
  end.

(** The internal pages that [trackActiveTab] and the [onUpdated]
    listener skip. *)
Definition is_internal_page (url : string) : bool :=
  Js.startsWith url "about:" || Js.startsWith url "chrome:"
  || Js.startsWith url "moz-extension:" || Js.startsWith url "chrome-extension:"
  || Js.startsWith url "edge:".

(** The block the tracker repeats: with a domain tracked, the whole
    seconds since the start are reported when there is at least one. *)
Definition report_current (now : Z) (tr : Tracker) : list (string * Z) :=
  match tracked tr with
  | Some (d, t) =>
      if (0 <? elapsed_seconds now t)%Z then [(d, elapsed_seconds now t)] else []
  | None => []
  end.

Section Tracking.

(** [new URL(url).hostname], [None] when the constructor throws. The
    tracker is modelled over any URL parser. *)
Variable url_hostname : string -> option string.

(** [extractDomain(url)] over that parser; [extractDomain] above is
    the instance with [Url.hostname]. *)
Definition extractDomain_of (url : string) : option string :=
  match url_hostname url with
  | Some host => Some (Js.toLowerCase (RegExp.remove_first re_www host))
  | None => None
  end.

(** [trackActiveTab()] from the answer of the tabs query on. *)
Definition trackActiveTab (tabs : tabs_query) (now_report now_start : Z)
    (tr : Tracker) : Tracker * list (string * Z) :=
  match tabs with
  | QueryRejected => (tr, [])
  | QueryTabs urls =>
      match first_tab_url urls with
      | None => (not_tracking, report_current now_report tr)
      | Some url =>
          if is_internal_page url then (tr, [])
          else
            match extractDomain_of url with
            | None => (tr, [])
            | Some domain =>
                if String.eqb domain "" then (tr, [])
                else if bool_decide (currentDomain tr = Some domain) then (tr, [])
                else
                  ({| currentDomain := Some domain; trackingStartTime := Some now_start |},
                   report_current now_report tr)
            end
      end
  end.

(** [periodicUsageReport()] *)
Definition periodicUsageReport (now_report now_start : Z) (tr : Tracker)
    : Tracker * list (string * Z) :=
  match tracked tr with
  | Some (d, t) =>
      if (10 <=? elapsed_seconds now_report t)%Z then
        ({| currentDomain := currentDomain tr; trackingStartTime := Some now_start |},
         [(d, elapsed_seconds now_report t)])
      else (tr, [])
  | None => (tr, [])
  end.

(** The [onFocusChanged] listener with [WINDOW_ID_NONE]. With another
    window id it calls [trackActiveTab]. *)
Definition focusLost (now_report now_start : Z) (tr : Tracker)
    : Tracker * list (string * Z) :=
  match tracked tr with
  | Some _ =>
      ({| currentDomain := currentDomain tr; trackingStartTime := Some now_start |},
       report_current now_report tr)
  | None => (tr, [])
  end.

(** The steps of the tracker. *)
Inductive TrackerEvent : Type :=
| E_trackActiveTab (tabs : tabs_query) (now_report now_start : Z)
| E_periodicUsageReport (now_report now_start : Z)
| E_focusLost (now_report now_start : Z).

Definition tracker_step (e : TrackerEvent) (tr : Tracker) : Tracker * list (string * Z) :=
  match e with
  | E_trackActiveTab tabs now_report now_start => trackActiveTab tabs now_report now_start tr
  | E_periodicUsageReport now_report now_start => periodicUsageReport now_report now_start tr
  | E_focusLost now_report now_start => focusLost now_report now_start tr
  end.

(** The tracker after the events, and the calls made on the way. *)
Fixpoint tracker_run (events : list TrackerEvent) (tr : Tracker)
    : Tracker * list (string * Z) :=
  match events with
  | [] => (tr, [])
  | e :: rest =>
      let (tr1, calls1) := tracker_step e tr in
      let (tr2, calls2) := tracker_run rest tr1 in
      (tr2, calls1 ++ calls2)
  end.

(** *** The [onUpdated] listener *)

(** [changeInfo]: its [url] when the URL changed, and whether its
    [status] is ['complete']. [tab]: its [url] and [active]. *)
Record ChangeInfo : Type := { change_url : option string; status_complete : bool }.
Record Tab : Type := { tab_url : option string; tab_active : bool }.

(** A truthy string: there and not empty. *)
Definition truthy (s : option string) : option string :=
  match s with
  | Some x => if String.eqb x "" then None else Some x
  | None => None
  end.

(** What the listener starts: whether it calls [trackActiveTab], and
    the arguments of its [checkPageContent] call when it makes one. *)
Definition onUpdated (tabId : nat) (changeInfo : ChangeInfo) (tab : Tab)
    : bool * option (nat * string * string) :=
  (match truthy (change_url changeInfo) with
   | Some _ => tab_active tab
   | None => false
   end,
   if status_complete changeInfo then
     match truthy (tab_url tab) with
     | Some url =>
         if is_internal_page url then None
         else
           match extractDomain_of url with
           | Some domain => if String.eqb domain "" then None else Some (tabId, url, domain)
           | None => None
           end
     | None => None
     end
   else None).

End Tracking.

(** The clock readings of a step: for the elapsed time, then for the
    new start. *)
Definition report_reading (e : TrackerEvent) : Z :=
  match e with
  | E_trackActiveTab _ t _ | E_periodicUsageReport t _ | E_focusLost t _ => t
  end.

Definition start_reading (e : TrackerEvent) : Z :=
  match e with
  | E_trackActiveTab _ _ t | E_periodicUsageReport _ t | E_focusLost _ t => t
  end.

(** The readings never go back, from [t] on. *)
Fixpoint clock_monotone (t : Z) (events : list TrackerEvent) : bool :=
  match events with
  | [] => true
  | e :: rest =>
      (t <=? report_reading e)%Z && (report_reading e <=? start_reading e)%Z
      && clock_monotone (start_reading e) rest
  end.

(** The last reading, [t] when there is no event. *)
Fixpoint last_reading (t : Z) (events : list TrackerEvent) : Z :=
  match events with
  | [] => t
  | e :: rest => last_reading (start_reading e) rest
  end.

Definition total_seconds (calls : list (string * Z)) : Z :=
  fold_right (fun c acc => (snd c + acc)%Z) 0%Z calls.

(** ** More shapes used in the statements *)

(** A property of the state that a computation carries over. *)
Definition invariant (P : State -> Prop) : State -> State -> Prop :=
  fun st st' => P st -> P st'.

(** The always-block listener is registered. *)
Definition always_armed (st : State) : Prop :=
  hasListener L_alwaysBlockRequest st = true.

(** The punishment listener is registered exactly when the lock is on. *)
Definition lock_armed (st : State) : Prop :=
  hasListener L_punishmentBlockRequest st = isPunishmentLocked st.

(** The variable [var] holds what [stored] reads off storage. *)
Definition mirrors {A : Type} (var : State -> A) (stored : Storage -> A) : State -> Prop :=
  fun st => var st = stored (storage st).

(** The variables that [initialize] loads hold what storage holds, or
    their defaults where storage holds nothing. *)
Definition mirrored (st : State) : Prop :=
  mirrors blockedSites (fun s => default DEFAULT_BLOCKED_SITES (s_blockedSites s)) st
  /\ mirrors alwaysBlockedSites (fun s => default [] (s_alwaysBlockedSites s)) st
  /\ mirrors whitelistedUrls (fun s => default [] (s_whitelistedUrls s)) st
  /\ mirrors blockCount (fun s => default 0 (s_blockCount s)) st
  /\ mirrors aiCheckedDomains
       (fun s => match s_aiCheckedDomains s with
                 | Some l => list_to_set l
                 | None => ∅
                 end) st.

(** What the first version of the script has of the state. *)
Definition session_fields (st : State) :=
  (isBlocking st, appConnected st, blockedSites st, whitelistedUrls st, blockCount st,
   s_blockedSites (storage st), s_whitelistedUrls (storage st), s_blockCount (storage st),
   s_isBlocking (storage st), trace st).

(** Every character of [s] satisfies [p]. *)
Fixpoint string_forall (p : ascii -> bool) (s : string) : bool :=
  match s with
  | EmptyString => true
  | String c r => p c && string_forall p r
  end.

(** The trace only grows. *)
Definition trace_extends : State -> State -> Prop :=
  fun st st' => exists more, trace st' = trace st ++ more.

(** The time tracked and not yet reported at [now]. *)
Definition unreported (tr : Tracker) (now : Z) : Z :=
  match tracked tr with
  | Some (_, t) => (now - t)%Z
  | None => 0%Z
  end.

(** The start of the tracking is not after [now]. *)
Definition started_by (tr : Tracker) (now : Z) : Prop :=
  forall d t, tracked tr = Some (d, t) -> (t <= now)%Z.

(** A request listener answered with a redirect. *)
Definition is_redirect (r : outcome BlockingResponse) : bool :=
  match r with
  | Returned (Redirect _) => true
  | _ => false
  end.

(** The characters [encodeURIComponent] writes: the unreserved ones and
    the percent sign of an escape. *)
Definition uri_encoded_char (c : ascii) : bool :=
  uri_unreserved c || Ascii.eqb c "%".

(** The classifier's answer puts the domain in the set of checked
    domains: an OK response whose method is neither [disabled] nor
    [no_api_key]. *)
Definition answer_is_kept (r : fetch_result CheckResult) : bool :=
  match r with
  | Response true (Some result) =>
      negb (String.eqb (method result) "disabled")
      && negb (String.eqb (method result) "no_api_key")
  | _ => false
  end.

(** The classifier's answer flags the page. *)
Definition answer_is_nsfw (r : fetch_result CheckResult) : bool :=
  match r with
  | Response true (Some result) => is_nsfw result
  | _ => false
  end.

Import RegExp.

(** * Properties *)

(** ** A calculus for what a computation keeps *)

Global Instance same_preorder {B : Type} (f : State -> B) : PreOrder (same f).
Proof.
  split.
  - intros st. reflexivity.
  - intros a b c Hab Hbc. unfold same in *. congruence.
Qed.

Global Instance grows_preorder : PreOrder grows.
Proof.
  split.
  - intros st. apply incl_refl.
  - intros a b c Hab Hbc. unfold grows in *. eapply incl_tran; eassumption.
Qed.

Section Keeps.

Context (R : State -> State -> Prop) `{!PreOrder R}.

Lemma keeps_ret {A} (a : A) : keeps R (ret a).
Proof. intros st. reflexivity. Qed.

Lemma keeps_throw {A} : keeps R (@throw A).
Proof. intros st. reflexivity. Qed.

Lemma keeps_gets {A} (g : State -> A) : keeps R (gets g).
Proof. intros st. reflexivity. Qed.

Lemma keeps_modify (g : State -> State) :
  (forall st, R st (g st)) -> keeps R (modify g).
Proof. intros H st. apply H. Qed.

Lemma keeps_bind {A C} (m : M A) (k : A -> M C) :
  keeps R m -> (forall a, keeps R (k a)) -> keeps R (bind m k).
Proof.
  intros Hm Hk st. unfold bind. specialize (Hm st).
  destruct (m st) as [[a|] st']; simpl in *.
  - etransitivity; [exact Hm | apply Hk].
  - exact Hm.
Qed.

Lemma keeps_try_catch {A} (body handler : M A) :
  keeps R body -> keeps R handler -> keeps R (try_catch body handler).
Proof.
  intros Hb Hh st. unfold try_catch. specialize (Hb st).
  destruct (body st) as [[a|] st']; simpl in *.
  - exact Hb.
  - etransitivity; [exact Hb | apply Hh].
Qed.

Lemma keeps_try_finally {A} (body : M A) (fin : M unit) :
  keeps R body -> keeps R fin -> keeps R (try_finally body fin).
Proof.
  intros Hb Hf st. unfold try_finally. specialize (Hb st).
  destruct (body st) as [r st']; simpl in *.
  specialize (Hf st'). destruct (fin st') as [[[]|] st'']; simpl in *;
    (etransitivity; [exact Hb | exact Hf]).
Qed.

Lemma keeps_fetch {B} (r : fetch_result B) : keeps R (fetch r).
Proof. destruct r; intros st; reflexivity. Qed.

Lemma keeps_json {B} (r : response B) : keeps R (json r).
Proof. unfold json. destruct (json_body r); intros st; reflexivity. Qed.

End Keeps.

Lemma exec_preserves {A B} (f : State -> B) (m : M A) st :
  preserves f m -> f (exec m st) = f st.
Proof. intros H. apply H. Qed.

Create HintDb preserve.

Ltac split_ifs :=
  repeat match goal with
         | |- context [if ?b then _ else _] => destruct b
         end.

(** One step of a [keeps] or [preserves] goal: a known computation, a
    combinator, a setter, or a case split on what the code tests. *)
Ltac frame_step :=
  first
    [ solve [auto with preserve]
    | match goal with
      | |- keeps (same ?f) ?m => change (preserves f m); solve [auto with preserve]
      end
    | apply keeps_ret; solve [typeclasses eauto]
    | apply keeps_throw; solve [typeclasses eauto]
    | apply keeps_gets; solve [typeclasses eauto]
    | apply keeps_fetch; solve [typeclasses eauto]
    | apply keeps_json; solve [typeclasses eauto]
    | apply keeps_bind; [ solve [typeclasses eauto] | | intros ? ]
    | apply keeps_try_catch; [ solve [typeclasses eauto] | | ]
    | apply keeps_try_finally; [ solve [typeclasses eauto] | | ]
    | apply keeps_modify; intros ?; simpl; split_ifs; reflexivity
    | match goal with
      | |- keeps _ (if ?b then _ else _) => destruct b
      | |- keeps _ (match ?x with _ => _ end) => destruct x
      end ].

Ltac frame := unfold preserves; repeat frame_step.

(** ** A calculus for computations that never throw *)

Section Returns.

Lemma returns_ret {A} (a : A) : returns (ret a).
Proof. intros st. eexists. reflexivity. Qed.

Lemma returns_gets {A} (g : State -> A) : returns (gets g).
Proof. intros st. eexists. reflexivity. Qed.

Lemma returns_modify g : returns (modify g).
Proof. intros st. eexists. reflexivity. Qed.

Lemma returns_bind {A C} (m : M A) (k : A -> M C) :
  returns m -> (forall a, returns (k a)) -> returns (bind m k).
Proof.
  intros Hm Hk st. unfold bind. destruct (Hm st) as [a Ha].
  destruct (m st) as [o st']; simpl in Ha; subst o. apply Hk.
Qed.

Lemma returns_try_catch {A} (body handler : M A) :
  returns handler -> returns (try_catch body handler).
Proof.
  intros Hh st. unfold try_catch. destruct (body st) as [[a|] st'].
  - eexists. reflexivity.
  - apply Hh.
Qed.

Lemma returns_try_finally {A} (body : M A) (fin : M unit) :
  returns body -> returns fin -> returns (try_finally body fin).
Proof.
  intros Hb Hf st. unfold try_finally. destruct (Hb st) as [a Ha].
  destruct (body st) as [o st']; simpl in Ha; subst o.
  destruct (Hf st') as [[] Hu]. destruct (fin st') as [o st'']; simpl in Hu; subst o.
  eexists. reflexivity.
Qed.

End Returns.

Create HintDb returns.

Ltac returns_step :=
  first
    [ solve [auto with returns]
    | apply returns_ret
    | apply returns_gets
    | apply returns_modify
    | apply returns_bind; [ | intros ? ]
    | apply returns_try_catch
    | apply returns_try_finally
    | match goal with
      | |- returns (if ?b then _ else _) => destruct b
      | |- returns (match ?x with _ => _ end) => destruct x
      end ].

Ltac total := repeat returns_step.

(** ** Running a sequence *)

Lemma bind_ret_l {A C} (a : A) (k : A -> M C) : bind (ret a) k = k a.
Proof. reflexivity. Qed.

Lemma exec_bind_gets {A C} (g : State -> A) (k : A -> M C) st :
  exec (bind (gets g) k) st = exec (k (g st)) st.
Proof. reflexivity. Qed.

Lemma exec_bind_modify {C} (g : State -> State) (k : unit -> M C) st :
  exec (bind (modify g) k) st = exec (k tt) (g st).
Proof. reflexivity. Qed.

Lemma exec_seq {C} (m : M unit) (k : M C) st :
  returns m -> exec (bind m (fun _ => k)) st = exec k (exec m st).
Proof.
  intros H. unfold exec, bind. destruct (H st) as [a Ha].
  destruct (m st) as [o st']; simpl in *; subst o. reflexivity.
Qed.

Lemma eval_seq {C} (m : M unit) (k : M C) st :
  returns m -> eval (bind m (fun _ => k)) st = eval k (exec m st).
Proof.
  intros H. unfold eval, exec, bind. destruct (H st) as [a Ha].
  destruct (m st) as [o st']; simpl in *; subst o. reflexivity.
Qed.

Lemma exec_try_catch_thrown {A} (body handler : M A) st :
  body st = (Thrown, st) -> exec (try_catch body handler) st = exec handler st.
Proof. unfold exec, try_catch. intros ->. reflexivity. Qed.

Lemma exec_try_catch_returns {A} (body handler : M A) st :
  returns body -> exec (try_catch body handler) st = exec body st.
Proof.
  intros H. unfold exec, try_catch. destruct (H st) as [a Ha].
  destruct (body st) as [o st']; simpl in *; subst o. reflexivity.
Qed.

Lemma returns_unit (m : M unit) st : returns m -> eval m st = Returned tt.
Proof. intros H. destruct (H st) as [[] Ha]. exact Ha. Qed.

Lemma storage_set_returns f : returns (storage_set f).
Proof. unfold storage_set. total. Qed.

Lemma emit_returns e : returns (emit e).
Proof. unfold emit. total. Qed.

#[export] Hint Resolve storage_set_returns emit_returns : returns.

(** ** Listeners *)

Lemma startBlocking_arm : startBlocking = arm L_blockRequest.
Proof. reflexivity. Qed.

Lemma stopBlocking_disarm : stopBlocking = disarm L_blockRequest.
Proof. reflexivity. Qed.

Lemma startAlwaysBlocking_arm : startAlwaysBlocking = arm L_alwaysBlockRequest.
Proof. reflexivity. Qed.

Lemma startPunishmentBlocking_arm : startPunishmentBlocking = arm L_punishmentBlockRequest.
Proof. reflexivity. Qed.

Lemma stopPunishmentBlocking_disarm : stopPunishmentBlocking = disarm L_punishmentBlockRequest.
Proof. reflexivity. Qed.

Lemma arm_listeners l l' st :
  l' ∈ listeners (exec (arm l) st) <-> l' = l \/ l' ∈ listeners st.
Proof.
  unfold arm, exec, bind, gets, modify, skip, ret, removeListener, addListener, hasListener; simpl.
  destruct (bool_decide (l ∈ listeners st)) eqn:E; simpl.
  - unfold hasListener; simpl.
    destruct (bool_decide (l ∈ filter (λ x : Listener, x ≠ l) (listeners st))) eqn:E2; simpl.
    + apply bool_decide_eq_true in E2. apply list_elem_of_filter in E2 as [? _]. congruence.
    + rewrite elem_of_app, list_elem_of_filter, list_elem_of_singleton.
      destruct (decide (l' = l)); naive_solver.
  - rewrite E; simpl. apply bool_decide_eq_false in E.
    rewrite elem_of_app, list_elem_of_singleton. naive_solver.
Qed.

Lemma disarm_listeners l l' st :
  l' ∈ listeners (exec (disarm l) st) <-> l' ≠ l /\ l' ∈ listeners st.
Proof.
  unfold disarm, exec, bind, gets, modify, skip, ret, removeListener, hasListener; simpl.
  destruct (bool_decide (l ∈ listeners st)) eqn:E; simpl.
  - rewrite list_elem_of_filter. reflexivity.
  - apply bool_decide_eq_false in E. split; [|naive_solver].
    intros H. split; [|assumption]. intros ->. contradiction.
Qed.

(** Arming is idempotent on what is armed: [l] is armed afterwards, and
    the others are as before. *)
Lemma arm_has l l' st :
  hasListener l' (exec (arm l) st) = bool_decide (l' = l) || hasListener l' st.
Proof.
  unfold hasListener. rewrite <- bool_decide_or. apply bool_decide_ext, arm_listeners.
Qed.

Lemma disarm_has l l' st :
  hasListener l' (exec (disarm l) st) = negb (bool_decide (l' = l)) && hasListener l' st.
Proof.
  unfold hasListener. rewrite <- bool_decide_not, <- bool_decide_and.
  apply bool_decide_ext, disarm_listeners.
Qed.

Lemma arm_frame {B} (f : State -> B) l :
  (forall ls st, f (set_listeners ls st) = f st) -> preserves f (arm l).
Proof.
  intros H. unfold arm, removeListener, addListener, skip. frame.
  all: apply keeps_modify; intros ?; unfold same; split_ifs; auto.
Qed.

Lemma disarm_frame {B} (f : State -> B) l :
  (forall ls st, f (set_listeners ls st) = f st) -> preserves f (disarm l).
Proof.
  intros H. unfold disarm, removeListener, skip. frame.
  all: apply keeps_modify; intros ?; unfold same; split_ifs; auto.
Qed.

Lemma arm_returns l : returns (arm l).
Proof. unfold arm, removeListener, addListener, skip. total. Qed.

Lemma disarm_returns l : returns (disarm l).
Proof. unfold disarm, removeListener, skip. total. Qed.

Lemma updateIcon_returns : returns updateIcon.
Proof. unfold updateIcon, emit. total. Qed.

Lemma stopBlocking_returns : returns stopBlocking.
Proof. apply (disarm_returns L_blockRequest). Qed.

Lemma startBlocking_returns : returns startBlocking.
Proof. apply (arm_returns L_blockRequest). Qed.

Lemma startPunishmentBlocking_returns : returns startPunishmentBlocking.
Proof. apply (arm_returns L_punishmentBlockRequest). Qed.

Lemma stopPunishmentBlocking_returns : returns stopPunishmentBlocking.
Proof. apply (disarm_returns L_punishmentBlockRequest). Qed.

Lemma startAlwaysBlocking_returns : returns startAlwaysBlocking.
Proof. apply (arm_returns L_alwaysBlockRequest). Qed.

#[export] Hint Resolve arm_returns disarm_returns updateIcon_returns stopBlocking_returns
  startBlocking_returns startPunishmentBlocking_returns stopPunishmentBlocking_returns
  startAlwaysBlocking_returns : returns.

Lemma checkCachedPunishmentStatus_returns : returns checkCachedPunishmentStatus.
Proof. unfold checkCachedPunishmentStatus, skip. total. Qed.

#[export] Hint Resolve checkCachedPunishmentStatus_returns : returns.

Lemma checkPunishmentStatus_returns r : returns (checkPunishmentStatus r).
Proof. unfold checkPunishmentStatus. total. Qed.

Lemma syncAICache_returns r : returns (syncAICache r).
Proof. unfold syncAICache, skip. total. Qed.

Lemma fetchBlockedSites_returns r : returns (fetchBlockedSites r).
Proof. unfold fetchBlockedSites, skip. total. Qed.

#[export] Hint Resolve checkPunishmentStatus_returns syncAICache_returns
  fetchBlockedSites_returns : returns.

(** A sync cycle never throws: every failure is caught inside it. *)
Lemma syncWithApp_returns net : returns (syncWithApp net).
Proof. unfold syncWithApp, skip. total. Qed.

#[export] Hint Resolve syncWithApp_returns : returns.

(** ** The sync cycle *)

Lemma startPunishmentBlocking_keeps_session :
  preserves (hasListener L_blockRequest) startPunishmentBlocking.
Proof. intros st. rewrite startPunishmentBlocking_arm. apply arm_has. Qed.

Lemma stopPunishmentBlocking_keeps_session :
  preserves (hasListener L_blockRequest) stopPunishmentBlocking.
Proof. intros st. rewrite stopPunishmentBlocking_disarm. apply disarm_has. Qed.

#[export] Hint Resolve startPunishmentBlocking_keeps_session
  stopPunishmentBlocking_keeps_session : preserve.

Lemma checkCachedPunishmentStatus_keeps_session :
  preserves (hasListener L_blockRequest) checkCachedPunishmentStatus.
Proof. unfold checkCachedPunishmentStatus, skip. frame. Qed.

#[export] Hint Resolve checkCachedPunishmentStatus_keeps_session : preserve.

Lemma checkPunishmentStatus_keeps_session r :
  preserves (hasListener L_blockRequest) (checkPunishmentStatus r).
Proof. unfold checkPunishmentStatus, skip, storage_set. frame. Qed.

Lemma syncAICache_keeps_session r :
  preserves (hasListener L_blockRequest) (syncAICache r).
Proof. unfold syncAICache, skip, storage_set. frame. Qed.

Lemma updateIcon_keeps_listeners : preserves listeners updateIcon.
Proof. unfold updateIcon, emit. frame. Qed.

#[export] Hint Resolve checkPunishmentStatus_keeps_session syncAICache_keeps_session
  updateIcon_keeps_listeners : preserve.

Lemma checkCachedPunishmentStatus_core : preserves sync_core checkCachedPunishmentStatus.
Proof.
  unfold checkCachedPunishmentStatus, startPunishmentBlocking, stopPunishmentBlocking,
    removeListener, addListener, skip. frame.
Qed.

#[export] Hint Resolve checkCachedPunishmentStatus_core : preserve.

Lemma checkPunishmentStatus_core r : preserves sync_core (checkPunishmentStatus r).
Proof.
  unfold checkPunishmentStatus, startPunishmentBlocking,
    stopPunishmentBlocking, removeListener, addListener, skip, storage_set. frame.
Qed.

Lemma syncAICache_core r : preserves sync_core (syncAICache r).
Proof. unfold syncAICache, skip, storage_set. frame. Qed.

Lemma updateIcon_core : preserves sync_core updateIcon.
Proof. unfold updateIcon, emit. frame. Qed.

Lemma stopBlocking_core : preserves sync_core stopBlocking.
Proof. apply (disarm_frame sync_core L_blockRequest). reflexivity. Qed.

Lemma startBlocking_core : preserves sync_core startBlocking.
Proof. apply (arm_frame sync_core L_blockRequest). reflexivity. Qed.

#[export] Hint Resolve checkPunishmentStatus_core syncAICache_core updateIcon_core
  stopBlocking_core startBlocking_core : preserve.

(** When the poll is rejected the cycle is the [catch] block, run on the
    state as it was. *)
Lemma syncWithApp_rejected net st :
  status_poll_rejected (net_status net) = true ->
  exec (syncWithApp net) st =
    exec (bind (modify (set_appConnected false)) (fun _ =>
          bind (gets isBlocking) (fun blocking =>
          bind (if blocking then
                  bind (modify (set_isBlocking false)) (fun _ =>
                  bind stopBlocking (fun _ => updateIcon))
                else skip) (fun _ => checkCachedPunishmentStatus)))) st.
Proof.
  intros H. unfold syncWithApp. apply exec_try_catch_thrown.
  destruct (net_status net) as [|[] []]; try discriminate; reflexivity.
Qed.

(** When the response is not OK the cycle is the [else] branch and the
    two other polls. *)
Lemma syncWithApp_not_ok net st b :
  net_status net = Response false b ->
  exec (syncWithApp net) st =
    exec (syncAICache (net_cache net))
      (exec (checkPunishmentStatus (net_punishment net)) (set_appConnected false st)).
Proof.
  intros H. unfold syncWithApp. rewrite H.
  simpl fetch. rewrite bind_ret_l. simpl ok. cbv iota.
  rewrite exec_try_catch_returns by total.
  rewrite exec_bind_modify, exec_seq by total. reflexivity.
Qed.

(** The part of the poll-failure rule the code keeps: a rejected poll
    (server unreachable, or a body that does not parse) while blocking
    stops the blocking. *)
Lemma syncWithApp_rejected_stops_blocking net st :
  status_poll_rejected (net_status net) = true ->
  isBlocking st = true ->
  let st' := exec (syncWithApp net) st in
  appConnected st' = false /\ isBlocking st' = false /\ hasListener L_blockRequest st' = false.
Proof.
  intros Hr Hb st'. subst st'. rewrite (syncWithApp_rejected _ _ Hr).
  rewrite exec_bind_modify, exec_bind_gets. simpl isBlocking. rewrite Hb.
  rewrite exec_seq by total.
  rewrite exec_bind_modify, !exec_seq by total.
  set (s1 := set_isBlocking false (set_appConnected false st)).
  assert (H3 : sync_core (exec checkCachedPunishmentStatus (exec updateIcon (exec stopBlocking s1)))
               = sync_core s1).
  { rewrite !(exec_preserves sync_core) by auto with preserve. reflexivity. }
  unfold sync_core in H3. injection H3 as H3a H3b _ _ _ _.
  split; [exact H3b|]. split; [exact H3a|].
  rewrite (exec_preserves (hasListener L_blockRequest) checkCachedPunishmentStatus)
    by auto with preserve.
  unfold hasListener. rewrite (exec_preserves listeners updateIcon) by auto with preserve.
  fold (hasListener L_blockRequest (exec stopBlocking s1)).
  rewrite stopBlocking_disarm, disarm_has.
  rewrite bool_decide_eq_true_2 by reflexivity. reflexivity.
Qed.

(** A response that is not OK marks the app as not connected and leaves
    [isBlocking] and the session listener as they were. *)
Lemma syncWithApp_not_ok_keeps_blocking net st b :
  net_status net = Response false b ->
  let st' := exec (syncWithApp net) st in
  appConnected st' = false /\ isBlocking st' = isBlocking st
  /\ hasListener L_blockRequest st' = hasListener L_blockRequest st.
Proof.
  intros H st'. subst st'. rewrite (syncWithApp_not_ok _ _ _ H).
  set (s1 := set_appConnected false st).
  assert (Hc : sync_core (exec (syncAICache (net_cache net))
                 (exec (checkPunishmentStatus (net_punishment net)) s1)) = sync_core s1).
  { rewrite !(exec_preserves sync_core) by auto with preserve. reflexivity. }
  unfold sync_core in Hc. injection Hc as Ha Hb _ _ _ _.
  split; [exact Hb|]. split; [exact Ha|].
  rewrite !(exec_preserves (hasListener L_blockRequest)) by auto with preserve.
  reflexivity.
Qed.

(** C3, as the code has it. While [isBlocking] is true: a [/status]
    poll that is rejected (the server is unreachable, or the body of an
    OK response does not parse) leaves [appConnected] false,
    [isBlocking] false and the session listener removed; a response
    that is not OK leaves [appConnected] false, and [isBlocking] and the
    session listener as they were. *)
Theorem syncWithApp_poll_failure (net : SyncNet) (st : State) :
  isBlocking st = true ->
  let st' := exec (syncWithApp net) st in
  (status_poll_rejected (net_status net) = true ->
   appConnected st' = false /\ isBlocking st' = false
   /\ hasListener L_blockRequest st' = false)
  /\ (forall body, net_status net = Response false body ->
      appConnected st' = false /\ isBlocking st' = true
      /\ hasListener L_blockRequest st' = hasListener L_blockRequest st).
Proof.
  intros Hb st'. split.
  - intros Hr. exact (syncWithApp_rejected_stops_blocking net st Hr Hb).
  - intros body Hn.
    destruct (syncWithApp_not_ok_keeps_blocking net st body Hn) as (Ha & Hb' & Hl).
    fold st' in Ha, Hb', Hl. rewrite Hb' in *. auto.
Qed.

Lemma syncWithApp_poll_failure_witness :
  let st := exec (onMessage ManualToggle) (exec initialize (initial_state empty_storage)) in
  let st' := exec (syncWithApp all_down) st in
  isBlocking st = true
  /\ appConnected st' = false /\ isBlocking st' = false
  /\ hasListener L_blockRequest st' = false.
Proof.
  intros st st'.
  assert (Hb : isBlocking st = true) by (vm_compute; reflexivity).
  split; [exact Hb|].
  exact (proj1 (syncWithApp_poll_failure all_down st Hb) eq_refl).
Defined.

(** C3, as stated, fails on a response that is not OK: blocking was on
    and armed, the poll got an HTTP error, and blocking is still on and
    armed. *)
Lemma not_ok_poll_keeps_blocking :
  let st := exec (onMessage ManualToggle) (exec initialize (initial_state empty_storage)) in
  let st' := exec (syncWithApp status_http_500) st in
  (isBlocking st = true /\ hasListener L_blockRequest st = true)
  /\ status_poll_failed (net_status status_http_500) = true
  /\ appConnected st' = false
  /\ isBlocking st' = true
  /\ hasListener L_blockRequest st' = true.
Proof. vm_compute. repeat split; reflexivity. Qed.

(** ** Startup and the default list *)

Lemma initialize_core sto :
  sync_core (exec initialize (initial_state sto)) =
    (false, false, default DEFAULT_BLOCKED_SITES (s_blockedSites sto),
     default [] (s_whitelistedUrls sto), default [] (s_alwaysBlockedSites sto),
     default 0 (s_blockCount sto)).
Proof.
  unfold initialize. rewrite exec_bind_gets, !exec_bind_modify.
  rewrite (exec_preserves sync_core); [reflexivity|].
  unfold startPunishmentBlocking, startAlwaysBlocking, startSync, updateIcon, skip,
    removeListener, addListener, emit.
  frame.
Qed.

Lemma syncWithApp_failed_idle net st :
  status_poll_failed (net_status net) = true ->
  isBlocking st = false ->
  sync_core (exec (syncWithApp net) st) = sync_core (set_appConnected false st).
Proof.
  intros Hf Hb.
  assert (Hidle : status_poll_rejected (net_status net) = true ->
            sync_core (exec (syncWithApp net) st) = sync_core (set_appConnected false st)).
  { intros Hr. rewrite syncWithApp_rejected by exact Hr.
    rewrite exec_bind_modify, exec_bind_gets. simpl isBlocking. rewrite Hb.
    rewrite exec_seq by (unfold skip; total). unfold skip at 1.
    apply exec_preserves. auto with preserve. }
  destruct (net_status net) as [|[] [body|]] eqn:E; try discriminate; auto.
  all: rewrite (syncWithApp_not_ok _ _ _ E).
  all: rewrite !(exec_preserves sync_core) by auto with preserve; reflexivity.
Qed.

Lemma manualToggle_on st :
  appConnected st = false ->
  isBlocking st = false ->
  let st' := exec (onMessage ManualToggle) st in
  isBlocking st' = true /\ hasListener L_blockRequest st' = true
  /\ blockedSites st' = blockedSites st /\ whitelistedUrls st' = whitelistedUrls st.
Proof.
  intros Hc Hb st'. subst st'. unfold onMessage.
  rewrite exec_bind_gets, Hc. simpl negb. cbv iota.
  rewrite exec_bind_modify, exec_bind_gets. simpl isBlocking. rewrite Hb. simpl negb. cbv iota.
  rewrite !exec_seq by total.
  change (exec (ret (ReplyToggled true)) ?s) with s.
  assert (Hs : preserves sync_core (storage_set (put_isBlocking true)))
    by (unfold storage_set; frame).
  assert (Hk : sync_core (exec updateIcon (exec (storage_set (put_isBlocking true))
                 (exec startBlocking (set_isBlocking true st))))
               = sync_core (set_isBlocking true st)).
  { rewrite !(exec_preserves sync_core) by auto with preserve. reflexivity. }
  unfold sync_core in Hk. injection Hk as Hk1 _ Hk3 Hk4 _ _.
  repeat split; auto.
  rewrite (exec_preserves (hasListener L_blockRequest) updateIcon)
    by (unfold updateIcon, emit; frame).
  rewrite (exec_preserves (hasListener L_blockRequest) (storage_set _))
    by (unfold storage_set; frame).
  rewrite startBlocking_arm, arm_has.
  rewrite bool_decide_eq_true_2 by reflexivity. reflexivity.
Qed.

Lemma blockRequest_blocks base st url :
  isWhitelisted st url = false ->
  pattern_test (buildBlockPattern st) url = true ->
  blockRequest base url st =
    (Returned (Redirect (getURL base "blocked.html" +:+ "?url=" +:+ encodeURIComponent url)),
     set_storage (put_blockCount (S (blockCount st)) (storage st))
       (set_blockCount (S (blockCount st)) st)).
Proof.
  intros Hw Hp. unfold blockRequest, bind, gets. rewrite Hw, Hp. reflexivity.
Qed.

(** C10. With no [blockedSites] in storage, [initialize] sets the
    session list to the ten built-in domains; after a failed first poll
    a manual toggle turns blocking on, arms the session listener, and
    every URL the pattern of those ten domains matches (and the
    whitelist does not allow) is redirected to the blocked page. *)
Theorem default_block_list_enforced (base : string) (sto : Storage) (net : SyncNet)
    (url : string) :
  let st0 := exec initialize (initial_state sto) in
  let st1 := exec (syncWithApp net) st0 in
  let st2 := exec (onMessage ManualToggle) st1 in
  s_blockedSites sto = None ->
  status_poll_failed (net_status net) = true ->
  isWhitelisted st2 url = false ->
  pattern_test (buildPatternForSites DEFAULT_BLOCKED_SITES) url = true ->
  blockedSites st0 =
    ["facebook.com"; "twitter.com"; "x.com"; "instagram.com"; "tiktok.com";
     "reddit.com"; "youtube.com"; "twitch.tv"; "netflix.com"; "discord.com"]
  /\ appConnected st1 = false
  /\ isBlocking st2 = true
  /\ hasListener L_blockRequest st2 = true
  /\ blockedSites st2 = blockedSites st0
  /\ eval (blockRequest base url) st2 =
       Returned (Redirect (getURL base "blocked.html" +:+ "?url=" +:+ encodeURIComponent url)).
Proof.
  intros st0 st1 st2 Hsto Hfail Hwl Hpat.
  pose proof (initialize_core sto) as H0. fold st0 in H0. rewrite Hsto in H0.
  unfold sync_core in H0. injection H0 as H0b H0c H0s _ _ _.
  pose proof (syncWithApp_failed_idle net st0 Hfail H0b) as H1. fold st1 in H1.
  unfold sync_core in H1. injection H1 as H1b H1c H1s _ _ _.
  simpl in H1b, H1c, H1s.
  destruct (manualToggle_on st1 H1c (eq_trans H1b H0b)) as (H2b & H2l & H2s & H2w).
  fold st2 in H2b, H2l, H2s, H2w.
  assert (Hs2 : blockedSites st2 = DEFAULT_BLOCKED_SITES) by congruence.
  repeat split; auto; try congruence.
  unfold eval. rewrite blockRequest_blocks; [reflexivity | exact Hwl |].
  unfold buildBlockPattern. rewrite Hs2. exact Hpat.
Qed.

Lemma default_block_list_enforced_witness :
  let st2 := exec (onMessage ManualToggle)
               (exec (syncWithApp all_down) (exec initialize (initial_state empty_storage))) in
  isBlocking st2 = true
  /\ eval (blockRequest sample_base "https://www.youtube.com/watch") st2 =
       Returned (Redirect (getURL sample_base "blocked.html" +:+ "?url="
                           +:+ encodeURIComponent "https://www.youtube.com/watch")).
Proof.
  intros st2.
  destruct (default_block_list_enforced sample_base empty_storage all_down
              "https://www.youtube.com/watch") as (_ & _ & Hb & _ & _ & Hr);
    try (vm_compute; reflexivity).
  split; [exact Hb | exact Hr].
Defined.

(** ** Request listeners *)

(** C5. In the session-block filter the whitelist comes first: a URL
    that [isWhitelisted] accepts is allowed and the state, block counter
    included, is untouched, whatever the block pattern says. *)
Theorem blockRequest_whitelist_first (base : string) (st : State) (url : string) :
  isWhitelisted st url = true ->
  blockRequest base url st = (Returned Allow, st).
Proof.
  intros H. unfold blockRequest, bind, gets. rewrite H. reflexivity.
Qed.

Lemma blockRequest_whitelist_first_witness :
  let st := set_whitelistedUrls ["youtube.com/watch?v=abc"]
              (set_blockedSites ["youtube.com"] (initial_state empty_storage)) in
  let url := "https://youtube.com/watch?v=abc" in
  isWhitelisted st url = true
  /\ pattern_test (buildBlockPattern st) url = true
  /\ blockRequest sample_base url st = (Returned Allow, st).
Proof.
  intros st url.
  assert (Hw : isWhitelisted st url = true) by (vm_compute; reflexivity).
  split; [exact Hw|]. split; [vm_compute; reflexivity|].
  exact (blockRequest_whitelist_first sample_base st url Hw).
Defined.

(** C4. A URL the always-block pattern matches is redirected to the
    blocked page with the adult flag, the block counter goes up by one
    and is stored, and a strike report is posted; the whitelist is not
    read, so this holds for every whitelist. *)
Theorem alwaysBlockRequest_ignores_whitelist (base : string) (st : State) (url : string)
    (wl : list string) :
  pattern_test (buildAlwaysBlockPattern st) url = true ->
  let st1 := set_whitelistedUrls wl st in
  let st' := exec (alwaysBlockRequest base url) st1 in
  eval (alwaysBlockRequest base url) st1 =
    Returned (Redirect (getURL base "blocked.html" +:+ "?url=" +:+ encodeURIComponent url
                        +:+ "&adult=1"))
  /\ blockCount st' = S (blockCount st)
  /\ s_blockCount (storage st') = Some (S (blockCount st))
  /\ trace st' = trace st ++ [PostAdultStrike]
  /\ whitelistedUrls st' = wl.
Proof.
  intros H st1 st'. subst st' st1.
  unfold exec, eval, alwaysBlockRequest, bind, gets.
  change (buildAlwaysBlockPattern (set_whitelistedUrls wl st)) with (buildAlwaysBlockPattern st).
  rewrite H. cbn. auto.
Qed.

Lemma alwaysBlockRequest_ignores_whitelist_witness :
  let st := set_alwaysBlockedSites ["x.com"] (initial_state empty_storage) in
  let st1 := set_whitelistedUrls ["https://x.com/"] st in
  let url := "https://x.com/" in
  pattern_test (buildAlwaysBlockPattern st) url = true
  /\ isWhitelisted st1 url = true
  /\ eval (alwaysBlockRequest sample_base url) st1 =
       Returned (Redirect (getURL sample_base "blocked.html" +:+ "?url="
                           +:+ encodeURIComponent url +:+ "&adult=1")).
Proof.
  intros st st1 url.
  assert (Hp : pattern_test (buildAlwaysBlockPattern st) url = true) by (vm_compute; reflexivity).
  split; [exact Hp|]. split; [vm_compute; reflexivity|].
  exact (proj1 (alwaysBlockRequest_ignores_whitelist sample_base st url ["https://x.com/"] Hp)).
Defined.

(** What the punishment filter tests: a prefix of the URL and two
    substrings of the whole URL. *)
Lemma punishmentBlockRequest_allows base st url :
  eval (punishmentBlockRequest base url) st = Returned Allow <->
  Js.startsWith url (getURL base "") = true
  \/ Js.includes url "127.0.0.1" = true \/ Js.includes url "localhost" = true.
Proof.
  unfold eval, punishmentBlockRequest.
  destruct (Js.startsWith url (getURL base "")); simpl; [tauto|].
  destruct (Js.includes url "127.0.0.1"); simpl; [tauto|].
  destruct (Js.includes url "localhost"); simpl; [tauto|].
  split; [discriminate | intros [|[|]]; discriminate].
Qed.

Lemma punishmentBlockRequest_keeps_state base st url :
  exec (punishmentBlockRequest base url) st = st.
Proof.
  unfold exec, punishmentBlockRequest. repeat case_match; reflexivity.
Qed.

(** C2. Under the punishment lockout, a URL whose host is
    [evil.example] and whose query mentions [localhost] is allowed: the
    filter looks for the text anywhere in the URL, not at the host. The
    spec, and the comments of the function, ask for a redirect of every
    URL whose host is not the loopback address or [localhost]. *)
Theorem punishmentBlockRequest_allows_by_substring :
  Url.hostname "https://evil.example/?q=localhost" = Some "evil.example"
  /\ forall (base : string) (st : State),
       punishmentBlockRequest base "https://evil.example/?q=localhost" st = (Returned Allow, st).
Proof.
  split; [vm_compute; reflexivity|].
  intros base st. unfold punishmentBlockRequest.
  replace (Js.includes "https://evil.example/?q=localhost" "localhost") with true
    by (vm_compute; reflexivity).
  rewrite orb_true_r. destruct (Js.startsWith _ _); reflexivity.
Qed.

(** ** The rule sets *)

(** What a refresh leaves in [alwaysBlockedSites]: the server's list
    when the body has a non-empty one, the old list otherwise. *)
Lemma fetchBlockedSites_alwaysBlocked r st :
  alwaysBlockedSites (exec (fetchBlockedSites r) st) =
    match r with
    | Response true (Some data) =>
        match nonempty_array (alwaysBlocked data) with
        | Some l => l
        | None => alwaysBlockedSites st
        end
    | _ => alwaysBlockedSites st
    end.
Proof.
  unfold fetchBlockedSites. destruct r as [|[] [data|]]; try reflexivity.
  simpl fetch. rewrite bind_ret_l. simpl ok. cbv iota.
  rewrite exec_try_catch_returns by (unfold json, skip; simpl; total).
  unfold json. simpl json_body. cbv iota. rewrite bind_ret_l.
  rewrite exec_seq by (unfold skip; total).
  rewrite exec_seq by (unfold skip; total).
  assert (Hw : forall m : M unit, m = match whitelist data with
                 | Some l => bind (modify (set_whitelistedUrls l))
                               (fun _ => storage_set (put_whitelistedUrls l))
                 | None => skip end -> preserves alwaysBlockedSites m).
  { intros m ->. unfold skip, storage_set. frame. }
  rewrite (exec_preserves alwaysBlockedSites _ _ (Hw _ eq_refl)).
  destruct (nonempty_array (alwaysBlocked data)) as [l|].
  - rewrite exec_bind_modify. unfold storage_set, exec, modify; simpl.
    destruct (nonempty_array (sites data)); reflexivity.
  - unfold skip at 1. change (exec (ret tt) ?s) with s.
    destruct (nonempty_array (sites data)); reflexivity.
Qed.

(** ** Classification *)

Lemma reportAdultStrike_returns : returns reportAdultStrike.
Proof. unfold reportAdultStrike. total. Qed.

#[export] Hint Resolve reportAdultStrike_returns : returns.

Lemma classify_ping_returns ping : returns (classify_ping ping).
Proof. unfold classify_ping, skip. total. Qed.

Lemma classify_enter_returns domain : returns (classify_enter domain).
Proof. unfold classify_enter. total. Qed.

Lemma classify_answer_returns base tabId url domain signals r :
  returns (classify_answer base tabId url domain signals r).
Proof. unfold classify_answer, skip. total. Qed.

Lemma classify_finally_returns domain : returns (classify_finally domain).
Proof. unfold classify_finally. total. Qed.

Lemma classify_run_returns base tabId url domain signals r :
  returns (classify_run base tabId url domain signals r).
Proof. unfold classify_run, classify_answer, classify_finally, skip. total. Qed.

(** The run is the handling of the answer and then the [finally]. *)
Lemma classify_run_steps base tabId url domain signals r st :
  exec (classify_run base tabId url domain signals r) st =
    exec (classify_finally domain)
      (exec (classify_answer base tabId url domain signals r) st).
Proof.
  unfold classify_run, exec, try_finally, classify_finally, modify.
  destruct (classify_answer base tabId url domain signals r st) as [o st1]. reflexivity.
Qed.

#[export] Hint Resolve classify_ping_returns classify_enter_returns
  classify_answer_returns classify_finally_returns classify_run_returns : returns.

(** The whole call never throws. *)
Lemma checkPageContent_returns base tabId url domain ping signals r :
  returns (checkPageContent base tabId url domain ping signals r).
Proof. unfold checkPageContent, skip. total. Qed.

Lemma classify_enter_spec domain st :
  classify_enter domain st =
    if appConnected st && shouldCheckDomain st domain
    then (Returned true, set_aiCheckInProgress ({[domain]} ∪ aiCheckInProgress st) st)
    else (Returned false, st).
Proof.
  unfold classify_enter, bind, gets, modify, ret.
  destruct (appConnected st); simpl; [|reflexivity].
  destruct (shouldCheckDomain st domain); reflexivity.
Qed.

Lemma classify_try_grows base tabId url domain signals r :
  keeps grows (classify_try base tabId url domain signals r).
Proof.
  unfold classify_try, reportAdultStrike, emit, storage_set, skip.
  repeat first
    [ apply keeps_modify; intros ?; unfold grows; simpl;
      solve [apply incl_refl | apply incl_appl, incl_refl]
    | frame_step ].
Qed.

Lemma classify_ping_same {B} (f : State -> B) ping :
  (forall b st, f (set_appConnected b st) = f st) -> preserves f (classify_ping ping).
Proof.
  intros H. unfold classify_ping, skip. frame.
  apply keeps_modify. intros st. apply H.
Qed.

Lemma checkPageContent_grows base tabId url domain ping signals r :
  keeps grows (checkPageContent base tabId url domain ping signals r).
Proof.
  unfold checkPageContent.
  apply keeps_bind; [typeclasses eauto | |intros _].
  { intros st. unfold grows.
    rewrite (classify_ping_same alwaysBlockedSites ping (fun _ _ => eq_refl) st).
    apply incl_refl. }
  apply keeps_bind; [typeclasses eauto | |intros marked].
  { intros st. rewrite classify_enter_spec. case_match; apply incl_refl. }
  destruct marked; [|apply keeps_ret; typeclasses eauto].
  unfold classify_run, classify_answer, classify_finally, skip.
  apply keeps_try_finally; [typeclasses eauto | |].
  - apply keeps_try_catch; [typeclasses eauto | apply classify_try_grows |].
    apply keeps_ret; typeclasses eauto.
  - apply keeps_modify. intros st. apply incl_refl.
Qed.

(** C9, as the code has it. Classification only appends to
    [alwaysBlockedSites], so every domain listed before a
    [checkPageContent] call is listed after it; a rule-set refresh
    replaces the list by the server's own when the body carries a
    non-empty [alwaysBlocked], and leaves it alone otherwise. *)
Theorem alwaysBlockedSites_append_or_replace (base : string) :
  (forall (st : State) (tabId : nat) (url domain : string) (ping : fetch_result unit)
          (signals : option Signals) (r : fetch_result CheckResult) (d : string),
      In d (alwaysBlockedSites st) ->
      In d (alwaysBlockedSites
              (exec (checkPageContent base tabId url domain ping signals r) st)))
  /\ (forall (st : State) (r : fetch_result SitesBody),
        alwaysBlockedSites (exec (fetchBlockedSites r) st) =
          match r with
          | Response true (Some data) =>
              match nonempty_array (alwaysBlocked data) with
              | Some l => l
              | None => alwaysBlockedSites st
              end
          | _ => alwaysBlockedSites st
          end).
Proof.
  split.
  - intros st tabId url domain ping signals r d Hd.
    exact (checkPageContent_grows base tabId url domain ping signals r st d Hd).
  - intros st r. apply fetchBlockedSites_alwaysBlocked.
Qed.

Lemma alwaysBlockedSites_append_or_replace_witness :
  let st := set_appConnected true
              (set_alwaysBlockedSites ["x.example"] (initial_state empty_storage)) in
  let st' := exec (checkPageContent sample_base 1 "https://bad.example/" "bad.example"
                     NetworkError None
                     (Response true (Some {| is_nsfw := true; method := "ai" |}))) st in
  alwaysBlockedSites st' = ["x.example"; "bad.example"]
  /\ In "x.example" (alwaysBlockedSites st').
Proof.
  intros st st'. split; [vm_compute; reflexivity|].
  apply (proj1 (alwaysBlockedSites_append_or_replace sample_base)).
  left. reflexivity.
Defined.

(** C9, as stated, fails on a refresh: a domain that classification
    added is gone once the server sends a list without it. *)
Lemma refresh_drops_listed_domain :
  let st := set_alwaysBlockedSites ["x.example"] (initial_state empty_storage) in
  let r := Response true (Some {| sites := None; alwaysBlocked := Some ["y.example"];
                                  whitelist := None |}) in
  In "x.example" (alwaysBlockedSites st)
  /\ ~ In "x.example" (alwaysBlockedSites (exec (fetchBlockedSites r) st)).
Proof.
  split.
  - left. reflexivity.
  - vm_compute. intros [H|[]]. discriminate H.
Qed.

(** ** The usage queue *)

Lemma push_report_returns r : returns (push_report r).
Proof. unfold push_report. total. Qed.

#[export] Hint Resolve push_report_returns : returns.

Lemma flush_loop_returns answers queue : forall i, returns (flush_loop answers i queue).
Proof.
  induction queue as [|r rest IH]; intros i; simpl.
  - unfold skip. total.
  - unfold skip. total.
Qed.

#[export] Hint Resolve flush_loop_returns : returns.

Lemma flushUsageQueue_returns answers : returns (flushUsageQueue answers).
Proof. unfold flushUsageQueue, skip. total. Qed.

(** One turn of the loop, by the answer to its POST. *)
Lemma flush_loop_rejected answers i r rest st :
  answers i = NetworkError ->
  flush_loop answers i (r :: rest) st =
    (Returned tt,
     set_usageReportQueue (usageReportQueue st ++ [r]) (set_trace (trace st ++ [PostUsage r]) st)).
Proof. intros H. simpl. unfold try_catch, bind, emit, modify. simpl. rewrite H. reflexivity. Qed.

Lemma flush_loop_not_ok answers i r rest st b :
  answers i = Response false b ->
  flush_loop answers i (r :: rest) st =
    flush_loop answers (S i) rest
      (set_usageReportQueue (usageReportQueue st ++ [r]) (set_trace (trace st ++ [PostUsage r]) st)).
Proof. intros H. simpl. unfold try_catch, bind, emit, modify. simpl. rewrite H. reflexivity. Qed.

Lemma flush_loop_ok answers i r rest st b :
  answers i = Response true b ->
  flush_loop answers i (r :: rest) st =
    flush_loop answers (S i) rest (set_trace (trace st ++ [PostUsage r]) st).
Proof. intros H. simpl. unfold try_catch, bind, emit, modify. simpl. rewrite H. reflexivity. Qed.

(** A report whose own delivery fails is appended to the queue. *)
Lemma reportWebsiteUsage_failure_queues domain seconds r answers st :
  domain <> "" -> (0 < seconds)%Z -> delivery_failed r = true ->
  usageReportQueue (exec (reportWebsiteUsage domain seconds r answers) st) =
    usageReportQueue st ++ [{| r_domain := domain; r_seconds := seconds |}].
Proof.
  intros Hd Hs Hf. unfold reportWebsiteUsage.
  apply String.eqb_neq in Hd. rewrite Hd.
  replace (seconds <=? 0)%Z with false by (symmetry; apply Z.leb_gt; exact Hs).
  simpl orb. cbv iota.
  destruct r as [|[] b]; try discriminate; reflexivity.
Qed.

(** A pass in which every response is not OK re-queues every report in
    order, and goes through the whole queue. *)
Lemma flush_loop_all_not_ok answers queue :
  (forall i, exists b, answers i = Response false b) ->
  forall i st,
    usageReportQueue (exec (flush_loop answers i queue) st) = usageReportQueue st ++ queue
    /\ trace (exec (flush_loop answers i queue) st) = trace st ++ map PostUsage queue.
Proof.
  intros Hall. induction queue as [|r rest IH]; intros i st.
  - simpl. rewrite !app_nil_r. auto.
  - destruct (Hall i) as [b Hb]. unfold exec. rewrite (flush_loop_not_ok _ _ _ _ _ _ Hb).
    destruct (IH (S i) (set_usageReportQueue (usageReportQueue st ++ [r])
                          (set_trace (trace st ++ [PostUsage r]) st))) as [Hq Ht].
    unfold exec in Hq, Ht. rewrite Hq, Ht. simpl. rewrite <- !app_assoc. auto.
Qed.

Lemma flushUsageQueue_all_not_ok answers st :
  (forall i, exists b, answers i = Response false b) ->
  usageReportQueue (exec (flushUsageQueue answers) st) = usageReportQueue st
  /\ trace (exec (flushUsageQueue answers) st) = trace st ++ map PostUsage (usageReportQueue st).
Proof.
  intros Hall. unfold flushUsageQueue. rewrite exec_bind_gets.
  destruct (usageReportQueue st) as [|r rest] eqn:E.
  - simpl. rewrite app_nil_r. auto.
  - rewrite exec_bind_modify.
    destruct (flush_loop_all_not_ok answers (r :: rest) Hall 0 (set_usageReportQueue [] st))
      as [Hq Ht].
    rewrite Hq, Ht. auto.
Qed.

(** A pass over [pre ++ r :: post] in which the requests for [pre] get
    a response and the request for [r] is rejected: the requests for
    [pre] and [r] are the only ones sent, and [r] is queued again. *)
Lemma flush_loop_stops_at_rejection answers pre r post :
  forall i st,
    (forall k, k < length pre -> exists o b, answers (i + k) = Response o b) ->
    answers (i + length pre) = NetworkError ->
    let st' := exec (flush_loop answers i (pre ++ r :: post)) st in
    trace st' = trace st ++ map PostUsage (pre ++ [r])
    /\ In r (usageReportQueue st').
Proof.
  induction pre as [|p pre IH]; intros i st Hpre Hrej st'; subst st'.
  - simpl length in Hrej. rewrite Nat.add_0_r in Hrej. simpl app.
    unfold exec. rewrite (flush_loop_rejected _ _ _ _ _ Hrej). simpl.
    split; [reflexivity|]. apply in_or_app. right. left. reflexivity.
  - destruct (Hpre 0) as (o & b & Hob); [simpl; lia|]. rewrite Nat.add_0_r in Hob.
    assert (Hpre' : forall k, k < length pre -> exists o b, answers (S i + k) = Response o b).
    { intros k Hk. destruct (Hpre (S k)) as (o' & b' & H'); [simpl; lia|].
      exists o', b'. rewrite <- H'. f_equal. lia. }
    assert (Hrej' : answers (S i + length pre) = NetworkError).
    { rewrite <- Hrej. f_equal. simpl. lia. }
    change ((p :: pre) ++ r :: post) with (p :: (pre ++ r :: post)).
    unfold exec. destruct o.
    + rewrite (flush_loop_ok _ _ _ _ _ _ Hob).
      destruct (IH (S i) (set_trace (trace st ++ [PostUsage p]) st) Hpre' Hrej') as [Ht Hq].
      unfold exec in Ht, Hq. rewrite Ht. split; [|exact Hq].
      simpl. rewrite <- app_assoc. reflexivity.
    + rewrite (flush_loop_not_ok _ _ _ _ _ _ Hob).
      destruct (IH (S i) (set_usageReportQueue (usageReportQueue st ++ [p])
                            (set_trace (trace st ++ [PostUsage p]) st)) Hpre' Hrej')
        as [Ht Hq].
      unfold exec in Ht, Hq. rewrite Ht. split; [|exact Hq].
      simpl. rewrite <- app_assoc. reflexivity.
Qed.

(** C8, as the code has it. A report whose own delivery fails (the
    request is rejected or the response is not OK) is appended to the
    queue. A drain pass empties the queue and takes its reports in
    order. A response that is not OK re-queues the report and the pass
    goes on: when every response is not OK the pass sends every report,
    in order, and leaves the queue as it was. The pass stops at the
    first rejected request: nothing is sent after it in that pass, and
    that report is queued again. *)
Theorem usage_queue_delivery :
  (forall (domain : string) (seconds : Z) (r : fetch_result unit)
          (answers : nat -> fetch_result unit) (st : State),
      domain <> EmptyString -> (0 < seconds)%Z -> delivery_failed r = true ->
      usageReportQueue (exec (reportWebsiteUsage domain seconds r answers) st) =
        usageReportQueue st ++ [{| r_domain := domain; r_seconds := seconds |}])
  /\ (forall (answers : nat -> fetch_result unit) (st : State),
        (forall i, exists b, answers i = Response false b) ->
        let st' := exec (flushUsageQueue answers) st in
        usageReportQueue st' = usageReportQueue st
        /\ trace st' = trace st ++ map PostUsage (usageReportQueue st))
  /\ (forall (answers : nat -> fetch_result unit) (st : State)
             (pre : list Report) (r : Report) (post : list Report),
        usageReportQueue st = pre ++ r :: post ->
        (forall k, k < length pre -> exists o b, answers k = Response o b) ->
        answers (length pre) = NetworkError ->
        let st' := exec (flushUsageQueue answers) st in
        trace st' = trace st ++ map PostUsage (pre ++ [r])
        /\ In r (usageReportQueue st')).
Proof.
  split; [|split].
  - intros. apply reportWebsiteUsage_failure_queues; assumption.
  - intros answers st Hall. apply flushUsageQueue_all_not_ok. exact Hall.
  - intros answers st pre r post Hq Hpre Hrej st'. subst st'.
    unfold flushUsageQueue. rewrite exec_bind_gets, Hq.
    assert (Hgo : exec (match pre ++ r :: post with
                        | [] => skip
                        | _ :: _ => bind (modify (set_usageReportQueue []))
                                      (fun _ => flush_loop answers 0 (pre ++ r :: post))
                        end) st
                  = exec (flush_loop answers 0 (pre ++ r :: post)) (set_usageReportQueue [] st)).
    { destruct pre; reflexivity. }
    rewrite Hgo.
    apply (flush_loop_stops_at_rejection answers pre r post 0 (set_usageReportQueue [] st)).
    + intros k Hk. apply Hpre. exact Hk.
    + exact Hrej.
Qed.

Lemma usage_queue_delivery_witness :
  let r1 := {| r_domain := "a.example"; r_seconds := 12 |} in
  let r2 := {| r_domain := "b.example"; r_seconds := 30 |} in
  let st := set_usageReportQueue [r1; r2] (initial_state empty_storage) in
  let not_ok := fun _ : nat => Response false (None : option unit) in
  usageReportQueue (exec (flushUsageQueue not_ok) st) = [r1; r2]
  /\ trace (exec (flushUsageQueue not_ok) st) = [PostUsage r1; PostUsage r2].
Proof.
  intros r1 r2 st not_ok.
  apply (proj1 (proj2 usage_queue_delivery) not_ok st).
  intros i. exists None. reflexivity.
Defined.

(** C8, as stated, fails: after a response that is not OK the pass goes
    on to the next report; and after a rejected request the reports
    behind it are neither sent nor kept. *)
Lemma drain_goes_on_or_loses_reports :
  let r1 := {| r_domain := "a.example"; r_seconds := 12 |} in
  let r2 := {| r_domain := "b.example"; r_seconds := 30 |} in
  let st := set_usageReportQueue [r1; r2] (initial_state empty_storage) in
  (delivery_failed (Response false None) = true
   /\ trace (exec (flushUsageQueue (fun _ => Response false None)) st)
      = [PostUsage r1; PostUsage r2])
  /\ (delivery_failed NetworkError = true
      /\ usageReportQueue (exec (flushUsageQueue (fun _ => NetworkError)) st) = [r1]).
Proof. vm_compute. repeat split; reflexivity. Qed.

(** ** Classification, continued *)

Lemma classify_try_keeps_inProgress base tabId url domain signals r :
  preserves aiCheckInProgress (classify_try base tabId url domain signals r).
Proof. unfold classify_try, reportAdultStrike, emit, storage_set, skip. frame. Qed.

Lemma classify_answer_keeps_inProgress base tabId url domain signals r :
  preserves aiCheckInProgress (classify_answer base tabId url domain signals r).
Proof.
  pose proof (classify_try_keeps_inProgress base tabId url domain signals r).
  unfold classify_answer, skip. frame.
Qed.

#[export] Hint Resolve classify_answer_keeps_inProgress : preserve.

(** Whatever the classifier answers, [classify_run] returns and its
    domain is no longer marked. *)
Lemma classify_run_clears base tabId url domain signals r st :
  eval (classify_run base tabId url domain signals r) st = Returned tt
  /\ aiCheckInProgress (exec (classify_run base tabId url domain signals r) st)
     = aiCheckInProgress st ∖ {[domain]}.
Proof.
  split; [apply returns_unit; auto with returns|].
  rewrite classify_run_steps. unfold classify_finally, exec at 1, modify. simpl.
  rewrite (exec_preserves aiCheckInProgress) by auto with preserve. reflexivity.
Qed.

Lemma shouldCheckDomain_false_if_marked st domain :
  domain ∈ aiCheckInProgress st \/ domain ∈ aiCheckedDomains st ->
  shouldCheckDomain st domain = false.
Proof.
  intros H. unfold shouldCheckDomain.
  destruct (String.eqb domain ""); [reflexivity|].
  destruct (bool_decide (domain ∈ aiCheckedDomains st)) eqn:E1; [reflexivity|].
  destruct (bool_decide (domain ∈ aiCheckInProgress st)) eqn:E2; [reflexivity|].
  apply bool_decide_eq_false in E1, E2. tauto.
Qed.

Lemma checkPageContent_inProgress base tabId url domain ping signals r st :
  aiCheckInProgress (exec (checkPageContent base tabId url domain ping signals r) st)
  = aiCheckInProgress st.
Proof.
  unfold checkPageContent. rewrite exec_seq by auto with returns.
  set (st1 := exec (classify_ping ping) st).
  assert (H1 : aiCheckInProgress st1 = aiCheckInProgress st).
  { apply (classify_ping_same aiCheckInProgress). reflexivity. }
  unfold exec, bind. rewrite classify_enter_spec.
  destruct (appConnected st1 && shouldCheckDomain st1 domain) eqn:E; [|exact H1].
  apply andb_true_iff in E as [_ Hs].
  assert (Hn : domain ∉ aiCheckInProgress st1).
  { intros Hin. rewrite shouldCheckDomain_false_if_marked in Hs by auto. discriminate. }
  destruct (classify_run_clears base tabId url domain signals r
              (set_aiCheckInProgress ({[domain]} ∪ aiCheckInProgress st1) st1)) as [_ Hc].
  unfold exec in Hc. rewrite Hc. simpl. rewrite <- H1. set_solver.
Qed.

(** *** Interleaved runs *)

Lemma flush_loop_keeps_inProgress answers queue :
  forall i, preserves aiCheckInProgress (flush_loop answers i queue).
Proof.
  induction queue as [|r rest IH]; intros i; simpl.
  - unfold skip. frame.
  - unfold skip, emit, push_report. frame.
Qed.

#[export] Hint Resolve flush_loop_keeps_inProgress : preserve.

Lemma run_handler_keeps_inProgress base h st :
  aiCheckInProgress (run_handler base h st) = aiCheckInProgress st.
Proof.
  destruct h; simpl; apply exec_preserves.
  - unfold syncWithApp, checkPunishmentStatus, checkCachedPunishmentStatus, syncAICache,
      fetchBlockedSites, startBlocking, stopBlocking, startPunishmentBlocking,
      stopPunishmentBlocking, updateIcon, skip, removeListener, addListener, emit, storage_set.
    frame.
  - unfold blockRequest, count_block, storage_set. frame.
  - unfold alwaysBlockRequest, count_block, reportAdultStrike, emit, storage_set. frame.
  - unfold punishmentBlockRequest. frame.
  - destruct message; unfold onMessage.
    + frame.
    + unfold startBlocking, stopBlocking, updateIcon, skip, removeListener, addListener,
        emit, storage_set. frame.
    + unfold storage_set. frame.
    + unfold syncWithApp, checkPunishmentStatus, checkCachedPunishmentStatus, syncAICache,
        fetchBlockedSites, startBlocking, stopBlocking, startPunishmentBlocking,
        stopPunishmentBlocking, updateIcon, skip, removeListener, addListener, emit,
        storage_set.
      frame.
  - unfold reportAdultStrike_done, storage_set, skip. frame.
  - unfold reportWebsiteUsage, flushUsageQueue, push_report, emit, skip. frame.
  - unfold flushUsageQueue, skip. frame.
  - apply classify_ping_same. reflexivity.
Qed.

Lemma initialize_inProgress sto :
  aiCheckInProgress (exec initialize (initial_state sto)) = ∅.
Proof.
  rewrite (exec_preserves aiCheckInProgress); [reflexivity|].
  unfold initialize, startPunishmentBlocking, startAlwaysBlocking, startSync, updateIcon, skip,
    removeListener, addListener, emit.
  frame.
Qed.

Lemma remove_one_In d x l :
  List.NoDup l -> (In x (remove_one d l) <-> x <> d /\ In x l).
Proof.
  induction l as [|y l IH]; intros Hnd; simpl; [tauto|].
  inversion Hnd as [|? ? Hy Hl]; subst.
  destruct (String.eqb_spec d y) as [->|Hne].
  - split.
    + intros Hx. split; [|auto]. intros ->. contradiction.
    + intros [Hx [Hy'|Hin]]; [congruence | exact Hin].
  - simpl. rewrite (IH Hl). split.
    + intros [->|[? ?]]; split; auto.
    + intros [Hx [->|Hin]]; auto.
Qed.

Lemma remove_one_NoDup d l : List.NoDup l -> List.NoDup (remove_one d l).
Proof.
  induction l as [|y l IH]; intros Hnd; simpl; [constructor|].
  inversion Hnd as [|? ? Hy Hl]; subst.
  destruct (String.eqb d y); [exact Hl|].
  constructor; [|auto].
  intros Hin. apply (remove_one_In d y l Hl) in Hin. tauto.
Qed.

(** In every reachable configuration the outstanding calls are exactly
    the marked domains, one call each. *)
Lemma reachable_outstanding base c :
  reachable base c ->
  List.NoDup (outstanding c)
  /\ forall d, In d (outstanding c) <-> d ∈ aiCheckInProgress (now c).
Proof.
  induction 1 as [sto | c c' Hr [Hnd Hin] Hstep].
  - simpl. split; [constructor|]. intros d. rewrite initialize_inProgress. set_solver.
  - destruct Hstep as [h c | domain c | tabId url domain signals r c Hout | domain c Hout];
      simpl.
    + split; [exact Hnd|]. intros d. rewrite run_handler_keeps_inProgress. apply Hin.
    + unfold exec, eval. rewrite classify_enter_spec.
      destruct (appConnected (now c) && shouldCheckDomain (now c) domain) eqn:E; simpl.
      * apply andb_true_iff in E as [_ Hs].
        assert (Hn : domain ∉ aiCheckInProgress (now c)).
        { intros Hd. rewrite shouldCheckDomain_false_if_marked in Hs by auto. discriminate. }
        split.
        -- constructor; [|exact Hnd]. intros Hd. apply Hn, Hin, Hd.
        -- intros d. rewrite elem_of_union, elem_of_singleton, <- Hin. simpl.
           split; intros [->|?]; auto.
      * split; [exact Hnd | exact Hin].
    + split; [exact Hnd|]. intros d.
      rewrite (exec_preserves aiCheckInProgress) by auto with preserve. apply Hin.
    + split; [apply remove_one_NoDup, Hnd|].
      intros d. unfold classify_finally, exec, modify. simpl.
      rewrite (remove_one_In domain d _ Hnd), elem_of_difference, elem_of_singleton, Hin.
      tauto.
Qed.

(** C7. A classification run that marked its domain clears the mark in
    its [finally], whatever the classifier's answer (a rejection, a
    response that is not OK, a body that does not parse, a result), and
    never throws; a whole [checkPageContent] call leaves the set of
    marks as it found it; [shouldCheckDomain] is false for a domain that
    is marked or already checked; so in every reachable configuration
    no domain has two outstanding calls, and the domains with one are
    exactly the marked ones. *)
Theorem classification_mark_cleared_and_unique (base : string) :
  (forall (st : State) (tabId : nat) (url domain : string) (signals : option Signals)
          (r : fetch_result CheckResult),
      eval (classify_run base tabId url domain signals r) st = Returned tt
      /\ domain ∉ aiCheckInProgress (exec (classify_run base tabId url domain signals r) st))
  /\ (forall (st : State) (tabId : nat) (url domain : string) (ping : fetch_result unit)
             (signals : option Signals) (r : fetch_result CheckResult),
        aiCheckInProgress (exec (checkPageContent base tabId url domain ping signals r) st)
        = aiCheckInProgress st)
  /\ (forall (st : State) (domain : string),
        domain ∈ aiCheckInProgress st \/ domain ∈ aiCheckedDomains st ->
        shouldCheckDomain st domain = false)
  /\ (forall c : Config,
        reachable base c ->
        forall d : string,
          count_occ string_dec (outstanding c) d <= 1
          /\ (In d (outstanding c) <-> d ∈ aiCheckInProgress (now c))).
Proof.
  split; [|split; [|split]].
  - intros st tabId url domain signals r.
    destruct (classify_run_clears base tabId url domain signals r st) as [He Hc].
    split; [exact He|]. rewrite Hc. set_solver.
  - intros. apply checkPageContent_inProgress.
  - intros st domain. apply shouldCheckDomain_false_if_marked.
  - intros c Hr d. destruct (reachable_outstanding base c Hr) as [Hnd Hin].
    split; [|apply Hin].
    apply (proj1 (NoDup_count_occ string_dec (outstanding c)) Hnd).
Qed.

Lemma classification_mark_cleared_and_unique_witness :
  let c0 := {| now := exec initialize (initial_state empty_storage); outstanding := [] |} in
  let c1 := {| now := run_handler sample_base (H_classify_ping (Response true None)) (now c0);
               outstanding := outstanding c0 |} in
  let c2 := {| now := exec (classify_enter "a.example") (now c1);
               outstanding :=
                 match eval (classify_enter "a.example") (now c1) with
                 | Returned true => "a.example" :: outstanding c1
                 | _ => outstanding c1
                 end |} in
  outstanding c2 = ["a.example"]
  /\ count_occ string_dec (outstanding c2) "a.example" <= 1
  /\ "a.example" ∈ aiCheckInProgress (now c2)
  /\ shouldCheckDomain (now c2) "a.example" = false.
Proof.
  intros c0 c1 c2.
  assert (Hr : reachable sample_base c2).
  { eapply reachable_step; [|apply step_classify_enter].
    eapply reachable_step; [|apply step_handler].
    apply reachable_start. }
  destruct (classification_mark_cleared_and_unique sample_base) as (_ & _ & Hs & Hc).
  destruct (Hc c2 Hr "a.example") as [Hcount Hin].
  assert (Ho : outstanding c2 = ["a.example"]) by (vm_compute; reflexivity).
  assert (Hm : "a.example" ∈ aiCheckInProgress (now c2)).
  { apply Hin. rewrite Ho. left. reflexivity. }
  split; [exact Ho|]. split; [exact Hcount|]. split; [exact Hm|].
  apply Hs. left. exact Hm.
Defined.

Lemma array_includes_In l x : Js.array_includes l x = true <-> In x l.
Proof.
  unfold Js.array_includes. rewrite existsb_exists. split.
  - intros [y [Hy He]]. apply String.eqb_eq in He. subst. exact Hy.
  - intros H. exists x. split; [exact H | apply String.eqb_refl].
Qed.

(** The state after the [try] block on an OK response with a body. *)
Lemma classify_run_ok base tabId url domain signals result st :
  let cached := negb (String.eqb (method result) "disabled")
                && negb (String.eqb (method result) "no_api_key") in
  let st' := exec (classify_run base tabId url domain signals
                     (Response true (Some result))) st in
  aiCheckedDomains st' =
    (if cached then {[domain]} ∪ aiCheckedDomains st else aiCheckedDomains st)
  /\ (cached = true ->
      s_aiCheckedDomains (storage st') = Some (elements ({[domain]} ∪ aiCheckedDomains st)))
  /\ (if is_nsfw result then
        alwaysBlockedSites st' =
          (if Js.array_includes (alwaysBlockedSites st) domain
           then alwaysBlockedSites st else alwaysBlockedSites st ++ [domain])
        /\ (Js.array_includes (alwaysBlockedSites st) domain = false ->
            s_alwaysBlockedSites (storage st') = Some (alwaysBlockedSites st ++ [domain]))
        /\ trace st' =
             trace st ++
               [PostCheckContent (make_payload url domain signals);
                TabsUpdate tabId (getURL base "blocked.html" +:+ "?url="
                                  +:+ encodeURIComponent url +:+ "&adult=1&ai=1");
                PostAdultStrike]
      else
        alwaysBlockedSites st' = alwaysBlockedSites st
        /\ trace st' = trace st ++ [PostCheckContent (make_payload url domain signals)]).
Proof.
  intros cached st'. subst cached st'.
  unfold exec, classify_run, classify_answer, classify_finally, try_finally, try_catch,
    classify_try, reportAdultStrike,
    bind, emit, fetch, json, modify, gets, storage_set, skip, ret.
  simpl.
  destruct (negb (String.eqb (method result) "disabled")
            && negb (String.eqb (method result) "no_api_key")); simpl;
    destruct (is_nsfw result); simpl;
    try destruct (Js.array_includes (alwaysBlockedSites st) domain) eqn:E; simpl;
    rewrite <- ?app_assoc; simpl;
    repeat split; auto; try discriminate.
Qed.

(** C6. A [checkPageContent] call that reaches the classifier (app
    connected after the ping, [shouldCheckDomain] true) and gets an OK
    response with a result: the domain joins [aiCheckedDomains], and the
    stored copy, unless the method is [disabled] or [no_api_key]; when
    [is_nsfw] is set the domain is in [alwaysBlockedSites] afterwards,
    appended and stored if it was not listed, the tab is sent to the
    blocked page with the [ai] marker, and a strike report is posted. *)
Theorem checkPageContent_ok_response (base : string) (tabId : nat) (url domain : string)
    (ping : fetch_result unit) (signals : option Signals) (result : CheckResult)
    (st : State) :
  let st1 := exec (classify_ping ping) st in
  let st' := exec (checkPageContent base tabId url domain ping signals
                     (Response true (Some result))) st in
  let cached := negb (String.eqb (method result) "disabled")
                && negb (String.eqb (method result) "no_api_key") in
  appConnected st1 = true ->
  shouldCheckDomain st1 domain = true ->
  aiCheckedDomains st' =
    (if cached then {[domain]} ∪ aiCheckedDomains st else aiCheckedDomains st)
  /\ (cached = true ->
      s_aiCheckedDomains (storage st') = Some (elements ({[domain]} ∪ aiCheckedDomains st)))
  /\ (is_nsfw result = true ->
      In domain (alwaysBlockedSites st')
      /\ alwaysBlockedSites st' =
           (if Js.array_includes (alwaysBlockedSites st) domain
            then alwaysBlockedSites st else alwaysBlockedSites st ++ [domain])
      /\ (Js.array_includes (alwaysBlockedSites st) domain = false ->
          s_alwaysBlockedSites (storage st') = Some (alwaysBlockedSites st ++ [domain]))
      /\ trace st' =
           trace st ++
             [PostCheckContent (make_payload url domain signals);
              TabsUpdate tabId (getURL base "blocked.html" +:+ "?url="
                                +:+ encodeURIComponent url +:+ "&adult=1&ai=1");
              PostAdultStrike])
  /\ (is_nsfw result = false ->
      alwaysBlockedSites st' = alwaysBlockedSites st
      /\ trace st' = trace st ++ [PostCheckContent (make_payload url domain signals)]).
Proof.
  intros st1 st' cached Hc Hs.
  assert (Hst' : st' = exec (classify_run base tabId url domain signals
                               (Response true (Some result)))
                         (set_aiCheckInProgress ({[domain]} ∪ aiCheckInProgress st1) st1)).
  { subst st'. unfold checkPageContent. rewrite exec_seq by auto with returns. fold st1.
    unfold exec at 1. unfold bind. rewrite classify_enter_spec, Hc, Hs. reflexivity. }
  pose proof (classify_run_ok base tabId url domain signals result
                (set_aiCheckInProgress ({[domain]} ∪ aiCheckInProgress st1) st1)) as H.
  simpl in H. rewrite <- Hst' in H. fold cached in H.
  assert (E1 : aiCheckedDomains st1 = aiCheckedDomains st)
    by (apply (classify_ping_same aiCheckedDomains); reflexivity).
  assert (E2 : alwaysBlockedSites st1 = alwaysBlockedSites st)
    by (apply (classify_ping_same alwaysBlockedSites); reflexivity).
  assert (E3 : trace st1 = trace st)
    by (apply (classify_ping_same trace); reflexivity).
  rewrite E1, E2, E3 in H.
  destruct H as (Ha & Hb & Hn).
  split; [exact Ha|]. split; [exact Hb|].
  destruct (is_nsfw result); split; intros Hx; try discriminate.
  - destruct Hn as (Hl & Hp & Ht). split; [|auto].
    rewrite Hl. destruct (Js.array_includes (alwaysBlockedSites st) domain) eqn:E.
    + apply array_includes_In, E.
    + apply in_or_app. right. left. reflexivity.
  - exact Hn.
Qed.

Lemma checkPageContent_ok_response_witness :
  let st := set_appConnected true (exec initialize (initial_state empty_storage)) in
  let st' := exec (checkPageContent sample_base 7 "https://bad.example/page" "bad.example"
                     NetworkError None
                     (Response true (Some {| is_nsfw := true; method := "heuristic" |}))) st in
  "bad.example" ∈ aiCheckedDomains st'
  /\ In "bad.example" (alwaysBlockedSites st')
  /\ s_alwaysBlockedSites (storage st') = Some ["bad.example"].
Proof.
  intros st st'.
  destruct (checkPageContent_ok_response sample_base 7 "https://bad.example/page" "bad.example"
              NetworkError None {| is_nsfw := true; method := "heuristic" |} st)
    as (Ha & _ & Hn & _); try (vm_compute; reflexivity).
  destruct (Hn eq_refl) as (Hin & _ & Hp & _).
  split; [|split].
  - fold st' in Ha. rewrite Ha. simpl. set_solver.
  - exact Hin.
  - exact (Hp eq_refl).
Defined.

(** ** Strings *)

#[local] Arguments Ascii.eqb : simpl never.
#[local] Arguments String.eqb : simpl never.
#[local] Arguments char_match : simpl never.

Lemma append_cons c s t : String c s +:+ t = String c (s +:+ t).
Proof. reflexivity. Qed.

Lemma append_nil_l s : "" +:+ s = s.
Proof. reflexivity. Qed.

Lemma append_nil_r s : s +:+ "" = s.
Proof. induction s as [|c s IH]; [reflexivity|]. rewrite append_cons, IH. reflexivity. Qed.

Lemma append_assoc s t u : (s +:+ t) +:+ u = s +:+ (t +:+ u).
Proof. induction s as [|c s IH]; [reflexivity|]. rewrite !append_cons, IH. reflexivity. Qed.

Lemma length_append s t : String.length (s +:+ t) = String.length s + String.length t.
Proof. induction s as [|c s IH]; [reflexivity|]. rewrite append_cons. simpl. rewrite IH. reflexivity. Qed.

(** ** The pattern parses *)

Lemma syntax_char_listed c :
  In c (list_ascii_of_string syntax_characters) -> is_syntax_char c = true.
Proof.
  intros H. unfold is_syntax_char. apply existsb_exists. exists c.
  split; [exact H | apply Ascii.eqb_refl].
Qed.

Lemma plain_char_differs c x :
  is_syntax_char c = false ->
  In x (list_ascii_of_string syntax_characters) ->
  Ascii.eqb c x = false.
Proof.
  intros Hc Hx. destruct (Ascii.eqb_spec c x) as [->|]; [|reflexivity].
  rewrite (syntax_char_listed x Hx) in Hc. discriminate.
Qed.

(** The class of [escapeRegExp] holds the syntax characters, all of
    them. *)
Lemma specials_are_syntax c :
  existsb (Ascii.eqb c) (list_ascii_of_string regex_specials) = is_syntax_char c.
Proof.
  unfold is_syntax_char. apply eq_true_iff_eq. rewrite !existsb_exists.
  split; intros [x [Hin He]]; exists x; (split; [|exact He]); simpl in *; tauto.
Qed.

Lemma escapeRegExp_cons c d :
  escapeRegExp (String c d) =
    if existsb (Ascii.eqb c) (list_ascii_of_string regex_specials)
    then String "\" (String c (escapeRegExp d))
    else String c (escapeRegExp d).
Proof. reflexivity. Qed.

Lemma escapeRegExp_plain c d :
  is_syntax_char c = false -> escapeRegExp (String c d) = String c (escapeRegExp d).
Proof. intros H. rewrite escapeRegExp_cons, specials_are_syntax, H. reflexivity. Qed.

Lemma escapeRegExp_special c d :
  is_syntax_char c = true ->
  escapeRegExp (String c d) = String "\" (String c (escapeRegExp d)).
Proof. intros H. rewrite escapeRegExp_cons, specials_are_syntax, H. reflexivity. Qed.

Lemma listed_caret : In "^"%char (list_ascii_of_string syntax_characters).
Proof. simpl. tauto. Qed.
Lemma listed_question : In "?"%char (list_ascii_of_string syntax_characters).
Proof. simpl. tauto. Qed.
Lemma listed_bar : In "|"%char (list_ascii_of_string syntax_characters).
Proof. simpl. tauto. Qed.
Lemma listed_open : In "("%char (list_ascii_of_string syntax_characters).
Proof. simpl. tauto. Qed.
Lemma listed_close : In ")"%char (list_ascii_of_string syntax_characters).
Proof. simpl. tauto. Qed.
Lemma listed_backslash : In "\"%char (list_ascii_of_string syntax_characters).
Proof. simpl. tauto. Qed.

Lemma peek_escapeRegExp x d rest :
  In x (list_ascii_of_string syntax_characters) -> x <> "\"%char ->
  peek x rest = false -> peek x (escapeRegExp d +:+ rest) = false.
Proof.
  intros Hx Hb Hr. destruct d as [|c d]; [exact Hr|].
  destruct (is_syntax_char c) eqn:E.
  - rewrite (escapeRegExp_special _ _ E). simpl.
    destruct (Ascii.eqb_spec "\"%char x); [congruence | reflexivity].
  - rewrite (escapeRegExp_plain _ _ E). simpl. apply plain_char_differs; assumption.
Qed.

Lemma parses_alt_weaken s r rest n m :
  parses_alt s r rest n -> n <= m -> parses_alt s r rest m.
Proof. intros H Hle f Hf. apply H. lia. Qed.

Lemma parses_alt_end s : at_end s = true -> parses_alt s REmpty s 1.
Proof. intros H f Hf. destruct f; [lia|]. simpl. rewrite H. reflexivity. Qed.

(** A term and then the rest of the alternative. *)
Lemma parses_alt_term s t mid r rest m n :
  at_end s = false ->
  parses_term s t mid m ->
  parses_alt mid r rest n ->
  parses_alt s (RSeq t r) rest (S (Nat.max m n)).
Proof.
  intros He Ht Hr f Hf. destruct f; [lia|]. simpl. rewrite He.
  rewrite (Ht f) by lia. rewrite (Hr f) by lia. reflexivity.
Qed.

Lemma parses_term_bol rest : parses_term (String "^" rest) RBol rest 1.
Proof. intros f Hf. destruct f; [lia|]. reflexivity. Qed.

Lemma parses_term_plain c rest :
  is_syntax_char c = false -> peek "?" rest = false ->
  parses_term (String c rest) (RChar c) rest 2.
Proof.
  intros Hc Hq f Hf. destruct f as [|[|f]]; try lia. simpl.
  rewrite (plain_char_differs c _ Hc listed_caret).
  rewrite (plain_char_differs c _ Hc listed_open).
  rewrite (plain_char_differs c _ Hc listed_backslash).
  rewrite Hc. simpl. rewrite Hq. reflexivity.
Qed.

Lemma parses_term_escaped c rest :
  is_syntax_char c = true -> peek "?" rest = false ->
  parses_term (String "\" (String c rest)) (RChar c) rest 2.
Proof.
  intros Hc Hq f Hf. destruct f as [|[|f]]; try lia. simpl.
  rewrite Hc. simpl. rewrite Hq. reflexivity.
Qed.

Lemma parses_term_optional_plain c rest :
  is_syntax_char c = false ->
  parses_term (String c (String "?" rest)) (ROpt (RChar c)) rest 2.
Proof.
  intros Hc f Hf. destruct f as [|[|f]]; try lia. simpl.
  rewrite (plain_char_differs c _ Hc listed_caret).
  rewrite (plain_char_differs c _ Hc listed_open).
  rewrite (plain_char_differs c _ Hc listed_backslash).
  rewrite Hc. reflexivity.
Qed.

Lemma parses_term_group body inner rest g :
  parses_disj body inner (String ")" rest) g ->
  peek "?" rest = false ->
  parses_term (String "(" body) (RGroup inner) rest (g + 2).
Proof.
  intros Hd Hq f Hf. destruct f as [|[|f]]; try lia. simpl.
  rewrite (Hd f) by lia. simpl. rewrite Hq. reflexivity.
Qed.

Lemma parses_term_optional_group body inner rest g :
  parses_disj body inner (String ")" (String "?" rest)) g ->
  parses_term (String "(" body) (ROpt (RGroup inner)) rest (g + 2).
Proof.
  intros Hd f Hf. destruct f as [|[|f]]; try lia. simpl.
  rewrite (Hd f) by lia. reflexivity.
Qed.

Lemma at_end_plain c s : is_syntax_char c = false -> at_end (String c s) = false.
Proof.
  intros Hc. unfold at_end. simpl.
  rewrite (plain_char_differs c _ Hc listed_bar), (plain_char_differs c _ Hc listed_close).
  reflexivity.
Qed.

(** A literal, escaped, in front of the rest of an alternative. *)
Lemma parses_alt_literal d :
  forall rest r rest' n,
    parses_alt rest r rest' n ->
    peek "?" rest = false ->
    parses_alt (escapeRegExp d +:+ rest) (lits_then d r) rest' (String.length d + n + 2).
Proof.
  induction d as [|c d IH]; intros rest r rest' n Hr Hq.
  - simpl. apply (parses_alt_weaken _ _ _ n); [exact Hr | lia].
  - specialize (IH rest r rest' n Hr Hq).
    assert (Hq' : peek "?" (escapeRegExp d +:+ rest) = false).
    { apply peek_escapeRegExp; [apply listed_question | discriminate | exact Hq]. }
    destruct (is_syntax_char c) eqn:E.
    + rewrite (escapeRegExp_special _ _ E), !append_cons. simpl lits_then.
      eapply parses_alt_weaken.
      * eapply parses_alt_term; [reflexivity | | exact IH].
        apply parses_term_escaped; assumption.
      * simpl. lia.
    + rewrite (escapeRegExp_plain _ _ E), !append_cons. simpl lits_then.
      eapply parses_alt_weaken.
      * eapply parses_alt_term; [apply at_end_plain, E | | exact IH].
        apply parses_term_plain; assumption.
      * simpl. lia.
Qed.

Lemma parses_disj_single s r rest n :
  parses_alt s r rest n -> peek "|" rest = false -> parses_disj s r rest (S n).
Proof.
  intros Ha Hb f Hf. destruct f; [lia|]. simpl. rewrite (Ha f) by lia. rewrite Hb. reflexivity.
Qed.

Lemma parses_disj_bar s r s2 r2 rest n m :
  parses_alt s r (String "|" s2) n ->
  parses_disj s2 r2 rest m ->
  parses_disj s (RAlt r r2) rest (S (Nat.max n m)).
Proof.
  intros Ha Hd f Hf. destruct f; [lia|]. simpl. rewrite (Ha f) by lia. simpl.
  rewrite (Hd f) by lia. reflexivity.
Qed.

(** The alternatives of the group, up to its closing parenthesis. *)
Lemma parses_disj_join ds :
  ds <> [] ->
  forall rest,
    parses_disj (Js.join "|" (map escapeRegExp ds) +:+ String ")" rest)
      (alts ds) (String ")" rest) (fuel_for ds).
Proof.
  induction ds as [|d ds IH]; intros Hne rest; [congruence|].
  destruct ds as [|d2 ds].
  - simpl Js.join. simpl alts. simpl fuel_for.
    replace (String.length d + 4) with (S (String.length d + 1 + 2)) by lia.
    apply parses_disj_single; [|reflexivity].
    apply parses_alt_literal; [|reflexivity].
    apply parses_alt_end. reflexivity.
  - change (Js.join "|" (map escapeRegExp (d :: d2 :: ds)))
      with (escapeRegExp d +:+ "|" +:+ Js.join "|" (map escapeRegExp (d2 :: ds))).
    rewrite !append_assoc, append_cons, append_nil_l.
    change (alts (d :: d2 :: ds)) with (RAlt (lits d) (alts (d2 :: ds))).
    change (fuel_for (d :: d2 :: ds))
      with (S (Nat.max (String.length d + 3) (fuel_for (d2 :: ds)))).
    eapply parses_disj_bar.
    + replace (String.length d + 3) with (String.length d + 1 + 2) by lia.
      apply parses_alt_literal; [|reflexivity].
      apply parses_alt_end. reflexivity.
    + apply IH. discriminate.
Qed.

Lemma patternSource_shape sites :
  patternSource sites =
    String "^" (escapeRegExp "http" +:+ String "s" (String "?" (escapeRegExp "://" +:+
      String "(" (escapeRegExp "www." +:+ String ")" (String "?"
        (String "(" (Js.join "|" (map escapeRegExp (map stripSite sites))
                     +:+ String ")" EmptyString))))))).
Proof.
  unfold patternSource, escapeSite. rewrite map_map. reflexivity.
Qed.

Lemma length_escapeRegExp d : String.length d <= String.length (escapeRegExp d).
Proof.
  induction d as [|c d IH]; [reflexivity|].
  rewrite escapeRegExp_cons. destruct (existsb _ _); simpl; lia.
Qed.

Lemma fuel_for_bound ds :
  ds <> [] -> fuel_for ds <= String.length (Js.join "|" (map escapeRegExp ds)) + 4.
Proof.
  induction ds as [|d ds IH]; intros Hne; [congruence|].
  destruct ds as [|d2 ds].
  - simpl. pose proof (length_escapeRegExp d). lia.
  - change (Js.join "|" (map escapeRegExp (d :: d2 :: ds)))
      with (escapeRegExp d +:+ "|" +:+ Js.join "|" (map escapeRegExp (d2 :: ds))).
    change (fuel_for (d :: d2 :: ds))
      with (S (Nat.max (String.length d + 3) (fuel_for (d2 :: ds)))).
    rewrite !length_append.
    pose proof (length_escapeRegExp d) as Hd.
    assert (Hne2 : d2 :: ds <> []) by discriminate.
    specialize (IH Hne2). change (String.length "|") with 1. lia.
Qed.

(** The source of the block pattern parses to [block_regex], with fuel
    to spare. *)
Lemma parses_patternSource sites :
  sites <> [] ->
  parses_disj (patternSource sites) (block_regex (map stripSite sites)) ""
    (fuel_for (map stripSite sites) + 30).
Proof.
  intros Hne. rewrite patternSource_shape.
  set (ds := map stripSite sites).
  assert (Hds : ds <> []) by (subst ds; destruct sites; [congruence | discriminate]).
  pose proof (parses_disj_join ds Hds "") as HJ.
  set (J := Js.join "|" (map escapeRegExp ds) +:+ String ")" "") in *.
  (* the group of alternatives, then the end *)
  assert (H1 : parses_alt (String "(" J) (RSeq (RGroup (alts ds)) REmpty) ""
                 (S (Nat.max (fuel_for ds + 2) 1))).
  { eapply parses_alt_term; [reflexivity | | apply parses_alt_end; reflexivity].
    apply parses_term_group; [exact HJ | reflexivity]. }
  (* the optional www group *)
  assert (HW : parses_disj (escapeRegExp "www." +:+ String ")" (String "?" (String "(" J)))
                 (lits "www.") (String ")" (String "?" (String "(" J))) (S (4 + 1 + 2))).
  { apply parses_disj_single; [|reflexivity].
    apply parses_alt_literal; [|reflexivity]. apply parses_alt_end. reflexivity. }
  assert (H2 : parses_alt
                 (String "(" (escapeRegExp "www." +:+ String ")" (String "?" (String "(" J))))
                 (RSeq (ROpt (RGroup (lits "www."))) (RSeq (RGroup (alts ds)) REmpty)) ""
                 (S (Nat.max (S (4 + 1 + 2) + 2) (S (Nat.max (fuel_for ds + 2) 1))))).
  { eapply parses_alt_term; [reflexivity | | exact H1].
    apply parses_term_optional_group. exact HW. }
  (* :// *)
  pose proof (parses_alt_literal "://" _ _ _ _ H2 eq_refl) as H3.
  (* s? *)
  pose proof (parses_alt_term (String "s" (String "?" _)) _ _ _ _ _ _ eq_refl
                (parses_term_optional_plain "s" _ eq_refl) H3) as H4.
  (* http *)
  pose proof (parses_alt_literal "http" _ _ _ _ H4 eq_refl) as H5.
  (* ^ *)
  pose proof (parses_alt_term (String "^" _) _ _ _ _ _ _ eq_refl
                (parses_term_bol _) H5) as H6.
  pose proof (parses_disj_single _ _ _ _ H6 eq_refl) as H7.
  intros f Hf. apply H7. simpl String.length. lia.
Qed.

(** [new RegExp(...)] in [buildPatternForSites] never throws, and this
    is the regex it builds. *)
Lemma buildPatternForSites_compiles sites :
  sites <> [] ->
  buildPatternForSites sites = Some (RegExp.mk (block_regex (map stripSite sites)) true).
Proof.
  intros Hne.
  assert (Hb : buildPatternForSites sites = compile (patternSource sites) "i")
    by (destruct sites; [congruence | reflexivity]).
  rewrite Hb. unfold compile. change (parse_flags "i") with (Some true). cbv iota.
  rewrite (parses_patternSource sites Hne); [reflexivity|].
  assert (Hds : map stripSite sites <> []) by (destruct sites; [congruence | discriminate]).
  pose proof (fuel_for_bound (map stripSite sites) Hds) as Hf.
  rewrite patternSource_shape.
  set (J := Js.join "|" (map escapeRegExp (map stripSite sites))) in *.
  simpl String.length. rewrite length_append. simpl String.length. lia.
Qed.

(** ** What the pattern matches *)

Lemma existsb_flat_map {A B} (k : B -> bool) (f : A -> list B) (l : list A) :
  existsb k (flat_map f l) = existsb (fun x => existsb k (f x)) l.
Proof.
  induction l as [|x l IH]; [reflexivity|]. simpl. rewrite existsb_app, IH. reflexivity.
Qed.

Lemma existsb_or {A} (f g : A -> bool) (l : list A) :
  existsb (fun x => f x || g x) l = existsb f l || existsb g l.
Proof.
  induction l as [|x l IH]; [reflexivity|]. simpl. rewrite IH.
  destruct (f x), (g x), (existsb f l), (existsb g l); reflexivity.
Qed.

Lemma existsb_and_l {A} (b : bool) (f : A -> bool) (l : list A) :
  existsb (fun x => b && f x) l = b && existsb f l.
Proof.
  induction l as [|x l IH]; simpl; [destruct b; reflexivity|]. rewrite IH.
  destruct b; reflexivity.
Qed.

Lemma existsb_map {A B} (f : A -> B) (k : B -> bool) (l : list A) :
  existsb k (map f l) = existsb (fun x => k (f x)) l.
Proof. induction l as [|x l IH]; [reflexivity|]. simpl. rewrite IH. reflexivity. Qed.

Lemma drop_drop a b s : Js.drop a (Js.drop b s) = Js.drop (b + a) s.
Proof.
  revert s. induction b as [|b IH]; intros s; [reflexivity|].
  destruct s as [|c s]; simpl.
  - destruct a; reflexivity.
  - apply IH.
Qed.

Lemma matches_at_empty i s : matches_at REmpty i s = true.
Proof. reflexivity. Qed.

Lemma matches_at_seq r1 r2 i s :
  matches_at (RSeq r1 r2) i s =
    existsb (fun p => matches_at r2 (fst p) (snd p)) (run true r1 i s).
Proof. unfold matches_at. simpl. apply existsb_flat_map. Qed.

Lemma matches_at_bol r s : matches_at (RSeq RBol r) 0 s = matches_at r 0 s.
Proof. rewrite matches_at_seq. simpl. apply orb_false_r. Qed.

Lemma matches_at_optional t r i s :
  matches_at (RSeq (ROpt t) r) i s = matches_at (RSeq t r) i s || matches_at r i s.
Proof.
  rewrite !matches_at_seq. simpl. rewrite existsb_app. simpl. rewrite orb_false_r. reflexivity.
Qed.

Lemma matches_at_group t r i s : matches_at (RSeq (RGroup t) r) i s = matches_at (RSeq t r) i s.
Proof. rewrite !matches_at_seq. reflexivity. Qed.

Lemma matches_at_lits_then d r :
  forall i s,
    matches_at (lits_then d r) i s =
      starts_with true s d && matches_at r (i + String.length d) (Js.drop (String.length d) s).
Proof.
  induction d as [|c d IH]; intros i s.
  - simpl. rewrite Nat.add_0_r. reflexivity.
  - simpl lits_then. rewrite matches_at_seq. destruct s as [|x s]; [reflexivity|].
    simpl. destruct (char_match true c x); [|reflexivity].
    simpl. rewrite orb_false_r, IH. rewrite Nat.add_succ_r. reflexivity.
Qed.

Lemma matches_at_seq_lits d r i s :
  matches_at (RSeq (lits d) r) i s = matches_at (lits_then d r) i s.
Proof.
  revert i s. unfold lits. induction d as [|c d IH]; intros i s.
  - rewrite matches_at_seq. simpl. apply orb_false_r.
  - simpl lits_then. rewrite !matches_at_seq.
    destruct s as [|x s]; [reflexivity|]. simpl.
    destruct (char_match true c x); [|reflexivity]. simpl.
    rewrite app_nil_r, !orb_false_r. rewrite <- IH, matches_at_seq. reflexivity.
Qed.

Lemma matches_at_alts ds i s :
  ds <> [] ->
  matches_at (RSeq (alts ds) REmpty) i s = existsb (starts_with true s) ds.
Proof.
  induction ds as [|d ds IH]; intros Hne; [congruence|].
  destruct ds as [|d2 ds].
  - simpl alts. rewrite matches_at_seq_lits, matches_at_lits_then, matches_at_empty, andb_true_r.
    simpl. rewrite orb_false_r. reflexivity.
  - change (alts (d :: d2 :: ds)) with (RAlt (lits d) (alts (d2 :: ds))).
    rewrite matches_at_seq.
    change (run true (RAlt (lits d) (alts (d2 :: ds))) i s)
      with (run true (lits d) i s ++ run true (alts (d2 :: ds)) i s).
    rewrite existsb_app.
    rewrite <- !matches_at_seq. rewrite IH by discriminate.
    rewrite matches_at_seq_lits, matches_at_lits_then, matches_at_empty, andb_true_r.
    reflexivity.
Qed.

(** The anchor: past index 0 the block pattern matches nowhere. *)
Lemma exec_from_anchored r ic s :
  forall i, exec_from (mk (RSeq RBol r) ic) (S i) s = None.
Proof.
  induction s as [|c s IH]; intros i; simpl; [reflexivity | apply IH].
Qed.

Lemma exec_from_unfold re i s :
  exec_from re i s =
    match run (ignoreCase re) (source re) i s with
    | m :: _ => Some (i, m)
    | [] =>
        match s with
        | EmptyString => None
        | String _ s' => exec_from re (S i) s'
        end
    end.
Proof. destruct s; reflexivity. Qed.

Lemma test_anchored r s :
  test (mk (RSeq RBol r) true) s = matches_at (RSeq RBol r) 0 s.
Proof.
  unfold test, matches_at. rewrite exec_from_unfold. cbv [ignoreCase source].
  destruct (run true (RSeq RBol r) 0 s) as [|m l]; [|reflexivity].
  destruct s as [|c s]; [reflexivity|]. rewrite exec_from_anchored. reflexivity.
Qed.

Lemma starts_with_app ic p q :
  forall s,
    starts_with ic s (p +:+ q) =
      starts_with ic s p && starts_with ic (Js.drop (String.length p) s) q.
Proof.
  induction p as [|c p IH]; intros s; [reflexivity|].
  rewrite append_cons. destruct s as [|x s]; [reflexivity|].
  simpl. rewrite IH, andb_assoc. reflexivity.
Qed.

Lemma lower_upper c : Js.lower_char (Js.upper_char c) = Js.lower_char c.
Proof. destruct c as [[] [] [] [] [] [] [] []]; reflexivity. Qed.

Lemma upper_lower c : Js.upper_char (Js.lower_char c) = Js.upper_char c.
Proof. destruct c as [[] [] [] [] [] [] [] []]; reflexivity. Qed.

(** Canonicalizing both sides compares as lower-casing both sides. *)
Lemma char_match_lower a b :
  char_match true a b = Ascii.eqb (Js.lower_char b) (Js.lower_char a).
Proof.
  unfold char_match.
  destruct (Ascii.eqb_spec (Js.upper_char a) (Js.upper_char b)) as [E|E];
    destruct (Ascii.eqb_spec (Js.lower_char b) (Js.lower_char a)) as [E'|E']; try reflexivity.
  - exfalso. apply E'. rewrite <- (lower_upper a), <- (lower_upper b), E. reflexivity.
  - exfalso. apply E. rewrite <- (upper_lower a), <- (upper_lower b), E'. reflexivity.
Qed.

Lemma starts_with_lower p :
  forall s, starts_with true s p = Js.startsWith (Js.toLowerCase s) (Js.toLowerCase p).
Proof.
  induction p as [|a p IH]; intros s; [reflexivity|].
  destruct s as [|b s]; [reflexivity|]. simpl. rewrite char_match_lower, IH. reflexivity.
Qed.

Lemma existsb_pointwise {A} (f g : A -> bool) (l : list A) :
  (forall x, f x = g x) -> existsb f l = existsb g l.
Proof. intros H. induction l as [|x l IH]; [reflexivity|]. simpl. rewrite H, IH. reflexivity. Qed.

Lemma existsb_prefixed ic s p ds :
  existsb (fun d => starts_with ic s (p +:+ d)) ds =
    starts_with ic s p && existsb (starts_with ic (Js.drop (String.length p) s)) ds.
Proof.
  induction ds as [|d ds IH]; simpl; [rewrite andb_false_r; reflexivity|].
  rewrite IH, starts_with_app. destruct (starts_with ic s p); reflexivity.
Qed.

Lemma existsb_swap {A B} (f : A -> B -> bool) (la : list A) (lb : list B) :
  existsb (fun a => existsb (f a) lb) la = existsb (fun b => existsb (fun a => f a b) la) lb.
Proof.
  induction la as [|a la IH]; simpl.
  - induction lb as [|b lb IHb]; [reflexivity | exact IHb].
  - rewrite IH, existsb_or. reflexivity.
Qed.

(** The block pattern, as a test on the beginning of the URL. *)
Lemma block_regex_matches ds url :
  ds <> [] ->
  matches_at (block_regex ds) 0 url =
    existsb (fun d =>
      existsb (fun prefix => starts_with true url (prefix +:+ d)) block_prefixes) ds.
Proof.
  intros Hne. unfold block_regex.
  rewrite matches_at_bol, matches_at_lits_then, matches_at_optional.
  change (RSeq (RChar "s") ?r) with (lits_then "s" r).
  rewrite !matches_at_lits_then, !matches_at_optional, !matches_at_group,
    !matches_at_seq_lits, !matches_at_lits_then.
  rewrite !matches_at_group, !matches_at_alts by exact Hne.
  rewrite existsb_swap. unfold block_prefixes. cbn [existsb].
  rewrite !existsb_prefixed.
  change "http://" with ("http" +:+ "://").
  change "http://www." with ("http" +:+ ("://" +:+ "www.")).
  change "https://" with ("http" +:+ ("s" +:+ "://")).
  change "https://www." with ("http" +:+ ("s" +:+ ("://" +:+ "www."))).
  rewrite !length_append, !starts_with_app, !drop_drop.
  cbn [String.length Nat.add].
  repeat match goal with
         | |- context [starts_with true ?a ?b] => destruct (starts_with true a b)
         end;
    repeat match goal with
           | |- context [existsb ?f ?l] => destruct (existsb f l)
           end;
    reflexivity.
Qed.

(** The compiled block pattern matches a URL when, and only when, the
    URL begins, letter case aside, with [http://] or [https://], then
    [www.] or nothing, then the stripped form of one of the sites. *)
Lemma pattern_test_begins_with_site sites url :
  pattern_test (buildPatternForSites sites) url = begins_with_site sites url.
Proof.
  destruct sites as [|s0 sites']; [reflexivity|].
  set (sites := s0 :: sites').
  assert (Hne : sites <> []) by discriminate.
  rewrite (buildPatternForSites_compiles sites Hne). unfold pattern_test, block_regex.
  rewrite test_anchored. fold (block_regex (map stripSite sites)).
  rewrite block_regex_matches by discriminate.
  unfold begins_with_site. rewrite existsb_map.
  apply existsb_pointwise. intros site. apply existsb_pointwise. intros prefix.
  apply starts_with_lower.
Qed.

(** ** What the three regex literals remove *)

Lemma run_lits_then ic d r :
  forall i s,
    run ic (lits_then d r) i s =
      if starts_with ic s d
      then run ic r (i + String.length d) (Js.drop (String.length d) s)
      else [].
Proof.
  induction d as [|c d IH]; intros i s.
  - simpl. rewrite Nat.add_0_r. reflexivity.
  - destruct s as [|x s]; [reflexivity|]. simpl.
    destruct (char_match ic c x); [|reflexivity]. simpl.
    rewrite app_nil_r, IH, Nat.add_succ_r. reflexivity.
Qed.

Lemma starts_with_exact p : forall s, starts_with false s p = Js.startsWith s p.
Proof.
  induction p as [|a p IH]; intros s; [reflexivity|].
  destruct s as [|b s]; [reflexivity|]. simpl. rewrite IH.
  unfold char_match. rewrite Ascii.eqb_sym. reflexivity.
Qed.

Lemma re_www_shape : re_www = mk (RSeq RBol (lits "www.")) false.
Proof. reflexivity. Qed.

Lemma re_protocol_shape :
  re_protocol =
    mk (RSeq RBol (lits_then "http" (RSeq (ROpt (RChar "s")) (lits "://")))) false.
Proof. reflexivity. Qed.

Lemma re_protocol_www_shape :
  re_protocol_www =
    mk (RSeq RBol
          (RSeq (ROpt (RGroup (lits_then "http" (RSeq (ROpt (RChar "s")) (lits "://")))))
             (RSeq (ROpt (RGroup (lits "www."))) REmpty))) false.
Proof. reflexivity. Qed.

Lemma run_seq ic r1 r2 i s :
  run ic (RSeq r1 r2) i s = flat_map (fun p => run ic r2 (fst p) (snd p)) (run ic r1 i s).
Proof. reflexivity. Qed.

Lemma run_optional ic r i s : run ic (ROpt r) i s = run ic r i s ++ [(i, s)].
Proof. reflexivity. Qed.

Lemma run_group ic r i s : run ic (RGroup r) i s = run ic r i s.
Proof. reflexivity. Qed.

Lemma run_bol_0 ic s : run ic RBol 0 s = [(0, s)].
Proof. reflexivity. Qed.

Lemma run_empty ic i s : run ic REmpty i s = [(i, s)].
Proof. reflexivity. Qed.

Lemma run_char ic c i s : run ic (RChar c) i s = run ic (lits_then (String c EmptyString) REmpty) i s.
Proof. destruct s as [|x s]; [reflexivity|]. simpl. destruct (char_match ic c x); reflexivity. Qed.

Lemma remove_first_anchored r s :
  remove_first (mk (RSeq RBol r) false) s =
    match run false r 0 s with
    | (_, rest) :: _ => rest
    | [] => s
    end.
Proof.
  unfold remove_first. rewrite exec_from_unfold. cbv [ignoreCase source].
  rewrite run_seq, run_bol_0. simpl flat_map. rewrite app_nil_r.
  destruct (run false r 0 s) as [|[j rest] l]; [|reflexivity].
  destruct s as [|c s]; [reflexivity|]. rewrite exec_from_anchored. reflexivity.
Qed.

(** [s.replace(/^www\./, '')] *)
Lemma remove_www s : remove_first re_www s = strip_prefix "www." s.
Proof.
  rewrite re_www_shape, remove_first_anchored. unfold lits, strip_prefix.
  rewrite run_lits_then, starts_with_exact.
  destruct (Js.startsWith s "www."); reflexivity.
Qed.

Lemma run_optional_char_then ic c r i s :
  run ic (RSeq (ROpt (RChar c)) r) i s =
    (if starts_with ic s (String c EmptyString)
     then run ic r (i + 1) (Js.drop 1 s) else [])
    ++ run ic r i s.
Proof.
  rewrite run_seq, run_optional, flat_map_app, run_char, run_lits_then.
  destruct (starts_with ic s (String c EmptyString)); simpl; rewrite ?app_nil_r; reflexivity.
Qed.

(** After [http], the pattern [s?://] reads [s://] or [://], never both. *)
Lemma run_protocol_tail i s :
  run false (RSeq (ROpt (RChar "s")) (lits "://")) i s =
    if starts_with false s "s://" then [(i + 4, Js.drop 4 s)]
    else if starts_with false s "://" then [(i + 3, Js.drop 3 s)]
    else [].
Proof.
  rewrite run_optional_char_then. unfold lits. rewrite !run_lits_then, !run_empty.
  change "s://" with ("s" +:+ "://"). rewrite starts_with_app, drop_drop.
  cbn [String.length Nat.add].
  destruct (starts_with false s "s") eqn:Es; cbn [andb].
  - assert (Hc : starts_with false s "://" = false).
    { destruct s as [|x t]; [reflexivity|]. simpl in *.
      apply andb_true_iff in Es as [Hx _]. unfold char_match in *.
      apply Ascii.eqb_eq in Hx. subst x. reflexivity. }
    rewrite Hc, app_nil_r. rewrite <- Nat.add_assoc.
    destruct (starts_with false (Js.drop 1 s) "://"); reflexivity.
  - destruct (starts_with false s "://"); reflexivity.
Qed.

Lemma run_protocol i s :
  run false (lits_then "http" (RSeq (ROpt (RChar "s")) (lits "://"))) i s =
    if Js.startsWith s "https://" then [(i + 8, Js.drop 8 s)]
    else if Js.startsWith s "http://" then [(i + 7, Js.drop 7 s)]
    else [].
Proof.
  rewrite run_lits_then, run_protocol_tail.
  change "https://" with ("http" +:+ "s://").
  change "http://" with ("http" +:+ "://").
  rewrite <- !starts_with_exact, !starts_with_app, !drop_drop.
  cbn [String.length Nat.add]. rewrite <- !Nat.add_assoc. cbn [Nat.add].
  destruct (starts_with false s "http"); reflexivity.
Qed.

(** [s.replace(/^https?:\/\//, '')] *)
Lemma remove_protocol s : remove_first re_protocol s = strip_protocol s.
Proof.
  rewrite re_protocol_shape, remove_first_anchored, run_protocol. unfold strip_protocol.
  destruct (Js.startsWith s "https://"); [reflexivity|].
  destruct (Js.startsWith s "http://"); reflexivity.
Qed.

(** [site.replace(/^(https?:\/\/)?(www\.)?/, '')] *)
Lemma stripSite_spec site : stripSite site = strip_prefix "www." (strip_protocol site).
Proof.
  unfold stripSite. rewrite re_protocol_www_shape, remove_first_anchored.
  rewrite run_seq, run_optional, run_group, run_protocol, flat_map_app.
  assert (Hw : forall i s,
             run false (RSeq (ROpt (RGroup (lits "www."))) REmpty) i s =
               (if Js.startsWith s "www." then [(i + 4, Js.drop 4 s)] else []) ++ [(i, s)]).
  { intros i s. rewrite run_seq, run_optional, run_group. unfold lits.
    rewrite run_lits_then, starts_with_exact, flat_map_app. simpl flat_map at 2.
    destruct (Js.startsWith s "www."); reflexivity. }
  unfold strip_protocol, strip_prefix.
  destruct (Js.startsWith site "https://").
  - cbn [flat_map fst snd]. rewrite app_nil_r, !Hw.
    destruct (Js.startsWith (Js.drop 8 site) "www."); reflexivity.
  - destruct (Js.startsWith site "http://").
    + cbn [flat_map fst snd]. rewrite app_nil_r, !Hw.
      destruct (Js.startsWith (Js.drop 7 site) "www."); reflexivity.
    + cbn [flat_map fst snd app]. rewrite app_nil_r, !Hw.
      destruct (Js.startsWith site "www."); reflexivity.
Qed.

(** ** The block pattern, end to end *)

Lemma toLowerCase_append a b :
  Js.toLowerCase (a +:+ b) = Js.toLowerCase a +:+ Js.toLowerCase b.
Proof.
  induction a as [|c a IH]; [reflexivity|]. rewrite append_cons. simpl.
  rewrite IH. reflexivity.
Qed.

Lemma startsWith_append a b : Js.startsWith (a +:+ b) a = true.
Proof.
  induction a as [|c a IH]; [reflexivity|]. rewrite append_cons. simpl.
  rewrite Ascii.eqb_refl. exact IH.
Qed.

Lemma startsWith_cut a t p : Js.startsWith (a +:+ t) (a +:+ p) = Js.startsWith t p.
Proof.
  induction a as [|c a IH]; [reflexivity|].
  rewrite !append_cons. simpl. rewrite Ascii.eqb_refl. exact IH.
Qed.

(** C1, as the code has it. With D the stripped form of a configured
    site (the site without a leading [http://] or [https://] and then
    without a leading [www.]): a URL that reads, letter case aside,
    [http://] or [https://], then [www.] or nothing, then D, then
    nothing or a port, path, query or fragment, is matched; a matched
    URL begins, letter case aside, with [http://] or [https://], then
    [www.] or nothing, then D for some configured site; so an [http]
    or [https] URL whose text after the scheme begins neither with D
    nor with [www.] and D, for every configured site, is not matched. *)
Theorem block_pattern_matches_by_prefix :
  (forall (sites : list string) (site prefix rest url : string),
      In site sites ->
      In prefix ["http://"; "http://www."; "https://"; "https://www."] ->
      url_boundary rest = true ->
      Js.toLowerCase url = Js.toLowerCase (prefix +:+ stripSite site +:+ rest) ->
      pattern_test (buildPatternForSites sites) url = true)
  /\ (forall (sites : list string) (url : string),
        pattern_test (buildPatternForSites sites) url = true ->
        exists site prefix,
          In site sites
          /\ In prefix ["http://"; "http://www."; "https://"; "https://www."]
          /\ Js.startsWith (Js.toLowerCase url) (Js.toLowerCase (prefix +:+ stripSite site))
             = true)
  /\ (forall site : string, stripSite site = strip_prefix "www." (strip_protocol site))
  /\ (forall (sites : list string) (scheme tail url : string),
        In scheme ["http://"; "https://"] ->
        Js.toLowerCase url = scheme +:+ tail ->
        (forall site, In site sites ->
           Js.startsWith tail (Js.toLowerCase (stripSite site)) = false
           /\ Js.startsWith tail (Js.toLowerCase ("www." +:+ stripSite site)) = false) ->
        pattern_test (buildPatternForSites sites) url = false).
Proof.
  split; [|split; [|split]].
  - intros sites site prefix rest url Hs Hp _ Hu.
    rewrite pattern_test_begins_with_site. unfold begins_with_site.
    apply existsb_exists. exists site. split; [exact Hs|].
    apply existsb_exists. exists prefix. split; [exact Hp|].
    rewrite Hu, <- append_assoc, toLowerCase_append. apply startsWith_append.
  - intros sites url H. rewrite pattern_test_begins_with_site in H.
    unfold begins_with_site in H.
    apply existsb_exists in H as [site [Hs H]].
    apply existsb_exists in H as [prefix [Hp H]].
    exists site, prefix. auto.
  - apply stripSite_spec.
  - intros sites scheme tail url Hsch Hu Hno.
    apply not_true_is_false. intros H.
    rewrite pattern_test_begins_with_site in H. unfold begins_with_site in H.
    apply existsb_exists in H as [site [Hs H]].
    apply existsb_exists in H as [prefix [Hp H]].
    destruct (Hno site Hs) as [H1 H2].
    rewrite Hu in H. rewrite toLowerCase_append in H, H2.
    change (Js.toLowerCase "www.") with "www." in H2.
    destruct Hsch as [<-|[<-|[]]]; destruct Hp as [<-|[<-|[<-|[<-|[]]]]].
    all: try change (Js.toLowerCase "http://") with "http://" in H.
    all: try change (Js.toLowerCase "https://") with "https://" in H.
    all: try change (Js.toLowerCase "http://www.") with ("http://" +:+ "www.") in H.
    all: try change (Js.toLowerCase "https://www.") with ("https://" +:+ "www.") in H.
    all: rewrite ?append_assoc in H.
    all: try (rewrite startsWith_cut in H; congruence).
    all: simpl in H; discriminate H.
Qed.

Lemma block_pattern_matches_by_prefix_witness :
  (pattern_test (buildPatternForSites ["reddit.com"; "https://www.youtube.com"])
     "HTTPS://WWW.YouTube.com/watch?v=1" = true
   /\ stripSite "https://www.youtube.com" = "youtube.com")
  /\ pattern_test (buildPatternForSites ["example.com"]) "https://sub.example.com/page" = false
  /\ pattern_test (buildPatternForSites ["example.com"]) "https://notexample.com/" = false
  /\ pattern_test (buildPatternForSites ["youtube.com"]) "https://youtube-downloader.com" = false.
Proof.
  split; [split; [|vm_compute; reflexivity]|].
  - apply (proj1 block_pattern_matches_by_prefix
             ["reddit.com"; "https://www.youtube.com"] "https://www.youtube.com"
             "https://www." "/watch?v=1").
    + right. left. reflexivity.
    + right. right. right. left. reflexivity.
    + reflexivity.
    + vm_compute. reflexivity.
  - split; [|split].
    + apply (proj2 (proj2 (proj2 block_pattern_matches_by_prefix))
               ["example.com"] "https://" "sub.example.com/page").
      * right. left. reflexivity.
      * vm_compute. reflexivity.
      * intros site [<-|[]]. vm_compute. split; reflexivity.
    + apply (proj2 (proj2 (proj2 block_pattern_matches_by_prefix))
               ["example.com"] "https://" "notexample.com/").
      * right. left. reflexivity.
      * vm_compute. reflexivity.
      * intros site [<-|[]]. vm_compute. split; reflexivity.
    + apply (proj2 (proj2 (proj2 block_pattern_matches_by_prefix))
               ["youtube.com"] "https://" "youtube-downloader.com").
      * right. left. reflexivity.
      * vm_compute. reflexivity.
      * intros site [<-|[]]. vm_compute. split; reflexivity.
Defined.

(** C1, as stated, fails: the URL of a subdomain of a listed domain is
    not matched, and a host that only begins with the listed domain is
    matched. *)
Lemma subdomain_not_matched_longer_host_matched :
  (Url.hostname "https://sub.example.com/page" = Some "sub.example.com"
   /\ Url.is_subdomain_of "sub.example.com" (stripSite "example.com") = true
   /\ pattern_test (buildPatternForSites ["example.com"]) "https://sub.example.com/page" = false)
  /\ (Url.hostname "https://example.community/" = Some "example.community"
      /\ pattern_test (buildPatternForSites ["example.com"]) "https://example.community/" = true).
Proof. vm_compute. repeat split; reflexivity. Qed.

(** The first version of the script builds the same pattern. *)
Lemma buildBlockPattern_v1_same blockedSites :
  buildBlockPattern_v1 blockedSites = buildPatternForSites blockedSites.
Proof. reflexivity. Qed.

(** The hosts the spec names. *)
Example www_host_matched :
  pattern_test (buildPatternForSites ["youtube.com"]) "https://www.youtube.com/watch" = true.
Proof. vm_compute. reflexivity. Qed.

Example bare_host_matched :
  pattern_test (buildPatternForSites ["https://www.example.com"]) "HTTP://Example.COM/" = true.
Proof. vm_compute. reflexivity. Qed.

Example host_with_text_before_not_matched :
  pattern_test (buildPatternForSites ["example.com"]) "https://notexample.com/" = false.
Proof. vm_compute. reflexivity. Qed.

Example host_differing_inside_not_matched :
  pattern_test (buildPatternForSites ["youtube.com"]) "https://youtube-downloader.com" = false.
Proof. vm_compute. reflexivity. Qed.

Example dot_is_literal :
  pattern_test (buildPatternForSites ["a.com"]) "https://axcom/" = false.
Proof. vm_compute. reflexivity. Qed.

Example other_scheme_not_matched :
  pattern_test (buildPatternForSites ["a.com"]) "ftp://a.com/" = false.
Proof. vm_compute. reflexivity. Qed.

Example longer_host_matched :
  pattern_test (buildPatternForSites ["example.com"]) "https://example.com.evil.example/" = true.
Proof. vm_compute. reflexivity. Qed.

(** The whitelist test on one entry, with the three replacements spelled out. *)
Lemma whitelist_entry_allows_spec (normalizedUrl whitelistEntry : string) :
  whitelist_entry_allows normalizedUrl whitelistEntry =
    let w := Js.toLowerCase whitelistEntry in
    let u1 := strip_protocol normalizedUrl in
    let w1 := strip_protocol w in
    Js.startsWith normalizedUrl w
    || Js.startsWith u1 w1
    || Js.startsWith (strip_prefix "www." u1) (strip_prefix "www." w1).
Proof.
  unfold whitelist_entry_allows. rewrite !remove_protocol, !remove_www. cbv zeta.
  generalize (Js.toLowerCase whitelistEntry). intros w.
  generalize (strip_protocol normalizedUrl) (strip_protocol w). intros u1 w1.
  assert (Hrefl : forall a b, String.eqb a b = true -> Js.startsWith a b = true).
  { intros a b H. apply String.eqb_eq in H. subst b.
    induction a as [|c a IH]; [reflexivity|]. simpl. rewrite Ascii.eqb_refl. exact IH. }
  destruct (String.eqb normalizedUrl w) eqn:E1.
  { rewrite (Hrefl normalizedUrl w E1). reflexivity. }
  destruct (Js.startsWith normalizedUrl w); [reflexivity|].
  destruct (String.eqb u1 w1) eqn:E2.
  { rewrite (Hrefl u1 w1 E2), orb_true_r. reflexivity. }
  destruct (Js.startsWith u1 w1); [reflexivity|].
  destruct (String.eqb (strip_prefix "www." u1) (strip_prefix "www." w1)) eqn:E3; [|reflexivity].
  rewrite (Hrefl (strip_prefix "www." u1) (strip_prefix "www." w1) E3). reflexivity.
Qed.

(** The scenario of the spec: a whitelisted video on a blocked site. *)
Example whitelisted_video_allowed_other_blocked :
  let st := set_whitelistedUrls ["youtube.com/watch?v=abc"]
              (set_blockedSites ["youtube.com"] (initial_state empty_storage)) in
  eval (blockRequest sample_base "https://youtube.com/watch?v=abc") st = Returned Allow
  /\ eval (blockRequest sample_base "https://youtube.com/watch?v=xyz") st =
       Returned (Redirect (getURL sample_base "blocked.html" +:+ "?url="
                           +:+ encodeURIComponent "https://youtube.com/watch?v=xyz")).
Proof. vm_compute. split; reflexivity. Qed.

(** ** More on the block pattern *)

Lemma startsWith_app s p q :
  Js.startsWith s (p +:+ q) = Js.startsWith s p && Js.startsWith (Js.drop (String.length p) s) q.
Proof. rewrite <- !starts_with_exact. apply starts_with_app. Qed.

Lemma startsWith_longer s r p : Js.startsWith s p = true -> Js.startsWith (s +:+ r) p = true.
Proof.
  revert s. induction p as [|a p IH]; intros s H; [reflexivity|].
  destruct s as [|b s]; [discriminate|]. rewrite append_cons. simpl in *.
  apply andb_true_iff in H as [H1 H2]. rewrite H1. simpl. apply IH, H2.
Qed.

Lemma begins_with_site_app l1 l2 url :
  begins_with_site (l1 ++ l2) url = begins_with_site l1 url || begins_with_site l2 url.
Proof. unfold begins_with_site. apply existsb_app. Qed.

(** Each of the four prefixes begins with [http]. *)
Lemma block_prefix_http prefix :
  In prefix block_prefixes -> exists tail, prefix = "http" +:+ tail.
Proof.
  intros [<-|[<-|[<-|[<-|[]]]]]; eexists; reflexivity.
Qed.

Lemma not_http_not_matched sites url :
  Js.startsWith (Js.toLowerCase url) "http" = false ->
  pattern_test (buildPatternForSites sites) url = false.
Proof.
  intros H. rewrite pattern_test_begins_with_site. unfold begins_with_site.
  apply not_true_is_false. intros Hex.
  apply existsb_exists in Hex as [site [_ Hex]].
  apply existsb_exists in Hex as [prefix [Hp Hex]].
  destruct (block_prefix_http prefix Hp) as [tail ->].
  rewrite append_assoc, toLowerCase_append, startsWith_app in Hex.
  change (Js.toLowerCase "http") with "http" in Hex. rewrite H in Hex. discriminate.
Qed.

(** X1. [buildPatternForSites] gives [null] for the empty list only: for
    every other list, whatever characters its sites are made of, the
    pattern it writes is one that [new RegExp] accepts. *)
Theorem buildPatternForSites_null_only_when_empty (sites : list string) :
  buildPatternForSites sites = None <-> sites = [].
Proof.
  split.
  - intros H. destruct sites as [|s l]; [reflexivity|].
    rewrite buildPatternForSites_compiles in H by discriminate. discriminate.
  - intros ->. reflexivity.
Qed.

(** X2. The pattern does not look past the site: a URL that is matched is
    still matched with anything written after it. *)
Theorem pattern_match_ignores_what_follows (sites : list string) (url rest : string) :
  pattern_test (buildPatternForSites sites) url = true ->
  pattern_test (buildPatternForSites sites) (url +:+ rest) = true.
Proof.
  rewrite !pattern_test_begins_with_site. unfold begins_with_site. intros H.
  apply existsb_exists in H as [site [Hs H]].
  apply existsb_exists in H as [prefix [Hp H]].
  apply existsb_exists. exists site. split; [exact Hs|].
  apply existsb_exists. exists prefix. split; [exact Hp|].
  rewrite toLowerCase_append. apply startsWith_longer, H.
Qed.

Lemma pattern_match_ignores_what_follows_witness :
  pattern_test (buildPatternForSites ["example.com"]) "https://example.com" = true
  /\ pattern_test (buildPatternForSites ["example.com"])
       ("https://example.com" +:+ ".evil.example/login") = true.
Proof.
  assert (H : pattern_test (buildPatternForSites ["example.com"]) "https://example.com" = true)
    by (vm_compute; reflexivity).
  split; [exact H|].
  exact (pattern_match_ignores_what_follows ["example.com"] "https://example.com"
           ".evil.example/login" H).
Defined.

(** X3. The pattern of two lists put together matches what the pattern of
    either matches; so the order of the sites does not matter and
    adding a site never frees a URL. *)
Theorem pattern_of_joined_lists (sites1 sites2 : list string) (url : string) :
  pattern_test (buildPatternForSites (sites1 ++ sites2)) url =
    pattern_test (buildPatternForSites sites1) url
    || pattern_test (buildPatternForSites sites2) url.
Proof. rewrite !pattern_test_begins_with_site. apply begins_with_site_app. Qed.

(** X4. A site that is nothing but a protocol, a [www.] or both (and the
    empty site) is stripped to the empty string, and the pattern then
    matches every [http] and [https] URL. *)
Theorem empty_site_blocks_every_url (sites : list string) (site url : string) :
  In site sites ->
  stripSite site = "" ->
  Js.startsWith (Js.toLowerCase url) "http://" || Js.startsWith (Js.toLowerCase url) "https://"
    = true ->
  pattern_test (buildPatternForSites sites) url = true.
Proof.
  intros Hs He Hu. rewrite pattern_test_begins_with_site. unfold begins_with_site.
  apply existsb_exists. exists site. split; [exact Hs|]. rewrite He.
  apply orb_true_iff in Hu as [Hu|Hu].
  - apply existsb_exists. exists "http://". split; [left; reflexivity | exact Hu].
  - apply existsb_exists. exists "https://".
    split; [right; right; left; reflexivity | exact Hu].
Qed.

Lemma empty_site_blocks_every_url_witness :
  stripSite "https://www." = ""
  /\ pattern_test (buildPatternForSites ["reddit.com"; "https://www."])
       "http://intranet.example/wiki" = true.
Proof.
  assert (He : stripSite "https://www." = "") by (vm_compute; reflexivity).
  split; [exact He|].
  apply (empty_site_blocks_every_url ["reddit.com"; "https://www."] "https://www."
           "http://intranet.example/wiki").
  - right. left. reflexivity.
  - exact He.
  - vm_compute. reflexivity.
Defined.

(** ** More on the request listeners *)

Lemma blockRequest_allows_unmatched base st url :
  pattern_test (buildBlockPattern st) url = false ->
  blockRequest base url st = (Returned Allow, st).
Proof.
  intros H. unfold blockRequest, bind, gets, ret.
  destruct (isWhitelisted st url); [reflexivity|]. rewrite H. reflexivity.
Qed.

Lemma alwaysBlockRequest_allows_unmatched base st url :
  pattern_test (buildAlwaysBlockPattern st) url = false ->
  alwaysBlockRequest base url st = (Returned Allow, st).
Proof. intros H. unfold alwaysBlockRequest, bind, gets, ret. rewrite H. reflexivity. Qed.

(** X5. The session filter and the always-block filter leave every URL that
    is not an [http] or [https] URL alone, whatever the lists hold: the
    request is allowed and nothing is counted, stored or posted. *)
Theorem other_schemes_are_never_blocked (base : string) (st : State) (url : string) :
  Js.startsWith (Js.toLowerCase url) "http" = false ->
  blockRequest base url st = (Returned Allow, st)
  /\ alwaysBlockRequest base url st = (Returned Allow, st).
Proof.
  intros H. split.
  - apply blockRequest_allows_unmatched, not_http_not_matched, H.
  - apply alwaysBlockRequest_allows_unmatched, not_http_not_matched, H.
Qed.

Lemma other_schemes_are_never_blocked_witness :
  let st := set_alwaysBlockedSites ["files.example"]
              (set_blockedSites ["files.example"] (initial_state empty_storage)) in
  blockRequest sample_base "ftp://files.example/a" st = (Returned Allow, st)
  /\ alwaysBlockRequest sample_base "ftp://files.example/a" st = (Returned Allow, st).
Proof.
  intros st. apply other_schemes_are_never_blocked. vm_compute. reflexivity.
Defined.

Lemma internal_page_not_http base rest :
  is_internal_page base = true ->
  Js.startsWith (Js.toLowerCase (base +:+ rest)) "http" = false.
Proof.
  intros H. destruct base as [|c base]; [discriminate H|].
  rewrite append_cons. simpl.
  destruct (Ascii.eqb_spec (Js.lower_char c) "h") as [Hc|Hc]; [|reflexivity].
  exfalso. unfold is_internal_page in H. simpl in H.
  assert (Hne : forall x, Ascii.eqb c x = true -> Js.lower_char x <> "h"%char -> False).
  { intros x Hx Hn. apply Ascii.eqb_eq in Hx. subst x. contradiction. }
  repeat match type of H with
         | (_ || _) = true => apply orb_true_iff in H as [H|H]
         end;
    apply andb_true_iff in H as [H _];
    (eapply Hne; [exact H | vm_compute; discriminate]).
Qed.

(** X6. No filter redirects a page of the extension itself, the blocked
    page first of all: with the extension served from an internal
    scheme ([moz-extension:], [chrome-extension:]), the target of every
    redirect passes the three filters, so a redirect is never
    redirected again. *)
Theorem blocked_page_is_never_redirected (base : string) (st : State) (query : string) :
  is_internal_page base = true ->
  let target := getURL base "blocked.html" +:+ query in
  blockRequest base target st = (Returned Allow, st)
  /\ alwaysBlockRequest base target st = (Returned Allow, st)
  /\ punishmentBlockRequest base target st = (Returned Allow, st).
Proof.
  intros Hb target.
  assert (Ht : target = base +:+ ("blocked.html" +:+ query)).
  { unfold target, getURL. apply append_assoc. }
  assert (Hn : Js.startsWith (Js.toLowerCase target) "http" = false).
  { rewrite Ht. apply internal_page_not_http, Hb. }
  split; [apply blockRequest_allows_unmatched, not_http_not_matched, Hn|].
  split; [apply alwaysBlockRequest_allows_unmatched, not_http_not_matched, Hn|].
  unfold punishmentBlockRequest, getURL. rewrite append_nil_r, Ht, startsWith_append.
  reflexivity.
Qed.

Lemma blocked_page_is_never_redirected_witness :
  let st := set_blockedSites ["example.com"] (initial_state empty_storage) in
  let target := getURL sample_base "blocked.html" +:+ "?url="
                +:+ encodeURIComponent "https://example.com/" in
  eval (blockRequest sample_base "https://example.com/") st
    = Returned (Redirect target)
  /\ blockRequest sample_base target st = (Returned Allow, st)
  /\ punishmentBlockRequest sample_base target st = (Returned Allow, st).
Proof.
  intros st target. split; [vm_compute; reflexivity|].
  assert (Hb : is_internal_page sample_base = true) by (vm_compute; reflexivity).
  pose proof (blocked_page_is_never_redirected sample_base st
                ("?url=" +:+ encodeURIComponent "https://example.com/") Hb) as H.
  cbv zeta in H. destruct H as (H1 & _ & H3).
  split; [exact H1 | exact H3].
Defined.

(** ** The block counter *)

(** The block counter counts the redirects of the session filter and of
    the always-block filter, one each, and stores the new count; a
    request they allow leaves the state untouched; the punishment
    filter never counts, whether it redirects or not. *)
Lemma blockCount_counts_redirects (base : string) (url : string) (st : State) :
  (if is_redirect (eval (blockRequest base url) st)
   then blockCount (exec (blockRequest base url) st) = S (blockCount st)
        /\ s_blockCount (storage (exec (blockRequest base url) st)) = Some (S (blockCount st))
   else exec (blockRequest base url) st = st)
  /\ (if is_redirect (eval (alwaysBlockRequest base url) st)
      then blockCount (exec (alwaysBlockRequest base url) st) = S (blockCount st)
           /\ s_blockCount (storage (exec (alwaysBlockRequest base url) st))
              = Some (S (blockCount st))
      else exec (alwaysBlockRequest base url) st = st)
  /\ exec (punishmentBlockRequest base url) st = st.
Proof.
  split; [|split].
  - unfold eval, exec, blockRequest, bind, gets, ret.
    destruct (isWhitelisted st url); [reflexivity|].
    destruct (pattern_test (buildBlockPattern st) url); simpl; auto.
  - unfold eval, exec, alwaysBlockRequest, bind, gets, ret.
    destruct (pattern_test (buildAlwaysBlockPattern st) url); simpl; auto.
  - apply punishmentBlockRequest_keeps_state.
Qed.

(** ** The URL in the redirect *)

Lemma hex_digit_unreserved n : n < 16 -> uri_unreserved (hex_digit n) = true.
Proof.
  intros H. do 16 (destruct n as [|n]; [vm_compute; reflexivity|]). lia.
Qed.

Lemma encodeURIComponent_cons c r :
  encodeURIComponent (String c r) =
    if uri_unreserved c then String c (encodeURIComponent r)
    else String "%" (String (hex_digit (nat_of_ascii c / 16))
           (String (hex_digit (nat_of_ascii c mod 16)) (encodeURIComponent r))).
Proof. reflexivity. Qed.

Lemma high_nibble c : nat_of_ascii c / 16 < 16.
Proof. apply Nat.Div0.div_lt_upper_bound. pose proof (nat_ascii_bounded c). lia. Qed.

Lemma low_nibble c : nat_of_ascii c mod 16 < 16.
Proof. apply Nat.mod_upper_bound. discriminate. Qed.

Lemma encodeURIComponent_chars s :
  string_forall uri_encoded_char (encodeURIComponent s) = true.
Proof.
  induction s as [|c s IH]; [reflexivity|]. rewrite encodeURIComponent_cons.
  destruct (uri_unreserved c) eqn:E; cbn [string_forall]; rewrite IH.
  - unfold uri_encoded_char. rewrite E. reflexivity.
  - unfold uri_encoded_char.
    rewrite (hex_digit_unreserved _ (high_nibble c)), (hex_digit_unreserved _ (low_nibble c)).
    reflexivity.
Qed.

Lemma includes_char_false p x s :
  string_forall p s = true -> p x = false -> Js.includes s (String x "") = false.
Proof.
  intros Hs Hx. induction s as [|c s IH]; [reflexivity|].
  simpl in Hs. apply andb_true_iff in Hs as [Hc Hs]. simpl.
  rewrite (IH Hs), andb_true_r, orb_false_r.
  destruct (Ascii.eqb_spec c x) as [->|]; [congruence | reflexivity].
Qed.

(** [encodeURIComponent] writes unreserved characters and [%] escapes
    only, so none of the characters that structure a query. *)
Lemma encodeURIComponent_no_separator url :
  Js.includes (encodeURIComponent url) "&" = false
  /\ Js.includes (encodeURIComponent url) "=" = false
  /\ Js.includes (encodeURIComponent url) "#" = false
  /\ Js.includes (encodeURIComponent url) "?" = false.
Proof.
  pose proof (encodeURIComponent_chars url) as H.
  repeat split; apply (includes_char_false uri_encoded_char _ _ H); vm_compute; reflexivity.
Qed.

Lemma hex_digit_injective a b : a < 16 -> b < 16 -> hex_digit a = hex_digit b -> a = b.
Proof.
  intros Ha Hb H.
  do 16 (destruct a as [|a]; [do 16 (destruct b as [|b]; [first [reflexivity | discriminate H]|]); lia|]).
  lia.
Qed.

Lemma percent_reserved : uri_unreserved "%" = false.
Proof. vm_compute. reflexivity. Qed.

(** [encodeURIComponent] loses nothing. *)
Lemma encodeURIComponent_injective (a b : string) :
  encodeURIComponent a = encodeURIComponent b -> a = b.
Proof.
  revert b. induction a as [|c a IH]; intros b H.
  - destruct b as [|d b]; [reflexivity|]. rewrite encodeURIComponent_cons in H.
    destruct (uri_unreserved d); discriminate H.
  - destruct b as [|d b]; rewrite !encodeURIComponent_cons in H.
    + destruct (uri_unreserved c); discriminate H.
    + destruct (uri_unreserved c) eqn:Ec; destruct (uri_unreserved d) eqn:Ed.
      * injection H as -> H. f_equal. apply IH, H.
      * injection H as -> _. rewrite percent_reserved in Ec. discriminate.
      * injection H as <- _. rewrite percent_reserved in Ed. discriminate.
      * injection H as H1 H2 H. f_equal; [|apply IH, H].
        apply hex_digit_injective in H1; [|apply high_nibble | apply high_nibble].
        apply hex_digit_injective in H2; [|apply low_nibble | apply low_nibble].
        rewrite <- (ascii_nat_embedding c), <- (ascii_nat_embedding d). f_equal.
        pose proof (Nat.div_mod (nat_of_ascii c) 16 ltac:(discriminate)) as Dc.
        pose proof (Nat.div_mod (nat_of_ascii d) 16 ltac:(discriminate)) as Dd.
        change (nat_of_ascii c / 16 = nat_of_ascii d / 16) in H1.
        change (nat_of_ascii c mod 16 = nat_of_ascii d mod 16) in H2.
        rewrite H1, H2 in Dc. congruence.
Qed.

Lemma append_same_prefix p a b : p +:+ a = p +:+ b -> a = b.
Proof.
  induction p as [|c p IH]; [auto|]. rewrite !append_cons. intros H. injection H as H.
  apply IH, H.
Qed.

Lemma append_same_suffix s a : forall b, a +:+ s = b +:+ s -> a = b.
Proof.
  induction a as [|c a IH]; intros b H.
  - destruct b as [|d b]; [reflexivity|]. exfalso.
    apply (f_equal String.length) in H. rewrite append_nil_l, length_append in H.
    simpl in H. lia.
  - destruct b as [|d b].
    + exfalso. apply (f_equal String.length) in H. rewrite append_nil_l, length_append in H.
      simpl in H. lia.
    + rewrite !append_cons in H. injection H as -> H. f_equal. apply IH, H.
Qed.

(** What each filter answers when it redirects. *)
Lemma blockRequest_target base url st t :
  eval (blockRequest base url) st = Returned (Redirect t) ->
  t = getURL base "blocked.html" +:+ "?url=" +:+ encodeURIComponent url.
Proof.
  unfold eval, blockRequest, bind, gets, ret.
  destruct (isWhitelisted st url); [discriminate|].
  destruct (pattern_test (buildBlockPattern st) url); simpl; [|discriminate].
  intros H. injection H as <-. reflexivity.
Qed.

Lemma alwaysBlockRequest_target base url st t :
  eval (alwaysBlockRequest base url) st = Returned (Redirect t) ->
  t = getURL base "blocked.html" +:+ "?url=" +:+ encodeURIComponent url +:+ "&adult=1".
Proof.
  unfold eval, alwaysBlockRequest, bind, gets, ret.
  destruct (pattern_test (buildAlwaysBlockPattern st) url); simpl; [|discriminate].
  intros H. injection H as <-. reflexivity.
Qed.

Lemma punishmentBlockRequest_target base url st t :
  eval (punishmentBlockRequest base url) st = Returned (Redirect t) ->
  t = getURL base "blocked.html" +:+ "?url=" +:+ encodeURIComponent url
      +:+ "&adult=1&punishment=1".
Proof.
  unfold eval, punishmentBlockRequest, ret.
  destruct (Js.startsWith url (getURL base "")); [discriminate|].
  destruct (Js.includes url "127.0.0.1" || Js.includes url "localhost"); simpl; [discriminate|].
  intros H. injection H as <-. reflexivity.
Qed.

(** X9. The flags of a redirect are the filter's own. Each filter sends
    the browser to the blocked page with the URL of the request as the
    [url] parameter, encoded, and its own flags after it: none for the
    session filter, [adult] for the always-block filter, [adult] and
    [punishment] for the punishment filter. The encoded URL has no
    [&], [=], [#] or [?], so whatever the URL of the request says, it
    cannot end the parameter and add a flag. *)
Theorem redirect_flags_are_the_filters_own (base : string) (url : string) (st : State) :
  let query := encodeURIComponent url in
  let page := getURL base "blocked.html" +:+ "?url=" +:+ query in
  (Js.includes query "&" = false /\ Js.includes query "=" = false
   /\ Js.includes query "#" = false /\ Js.includes query "?" = false)
  /\ (forall t, eval (blockRequest base url) st = Returned (Redirect t) -> t = page)
  /\ (forall t, eval (alwaysBlockRequest base url) st = Returned (Redirect t) ->
                t = page +:+ "&adult=1")
  /\ (forall t, eval (punishmentBlockRequest base url) st = Returned (Redirect t) ->
                t = page +:+ "&adult=1&punishment=1").
Proof.
  intros query page. split; [apply encodeURIComponent_no_separator|].
  split; [apply blockRequest_target|]. split.
  - intros t H. apply alwaysBlockRequest_target in H. rewrite H. unfold page, query.
    rewrite !append_assoc. reflexivity.
  - intros t H. apply punishmentBlockRequest_target in H. rewrite H. unfold page, query.
    rewrite !append_assoc. reflexivity.
Qed.

Lemma redirect_flags_are_the_filters_own_witness :
  let st := set_blockedSites ["example.com"] (initial_state empty_storage) in
  let url := "https://example.com/?x=1&adult=1&punishment=1" in
  eval (blockRequest sample_base url) st =
    Returned (Redirect (getURL sample_base "blocked.html" +:+ "?url="
      +:+ "https%3A%2F%2Fexample.com%2F%3Fx%3D1%26adult%3D1%26punishment%3D1")).
Proof.
  intros st url.
  assert (H : exists t, eval (blockRequest sample_base url) st = Returned (Redirect t))
    by (eexists; vm_compute; reflexivity).
  destruct H as [t Ht].
  rewrite Ht. f_equal. f_equal.
  rewrite (proj1 (proj2 (redirect_flags_are_the_filters_own sample_base url st)) t Ht).
  vm_compute. reflexivity.
Defined.

(** X10. The redirect tells which URL was blocked: two requests that a
    filter sends to the same target have the same URL, so nothing of
    the URL is lost on the way to the blocked page. *)
Theorem redirect_target_identifies_url (base : string) (url1 url2 : string)
    (st1 st2 : State) (t : string) :
  (eval (blockRequest base url1) st1 = Returned (Redirect t)
   /\ eval (blockRequest base url2) st2 = Returned (Redirect t))
  \/ (eval (alwaysBlockRequest base url1) st1 = Returned (Redirect t)
      /\ eval (alwaysBlockRequest base url2) st2 = Returned (Redirect t))
  \/ (eval (punishmentBlockRequest base url1) st1 = Returned (Redirect t)
      /\ eval (punishmentBlockRequest base url2) st2 = Returned (Redirect t)) ->
  url1 = url2.
Proof.
  intros [[H1 H2]|[[H1 H2]|[H1 H2]]]; apply encodeURIComponent_injective.
  - apply blockRequest_target in H1, H2. rewrite H1 in H2.
    apply append_same_prefix in H2. apply append_same_prefix in H2. exact H2.
  - apply alwaysBlockRequest_target in H1, H2. rewrite H1 in H2.
    apply append_same_prefix in H2. apply append_same_prefix in H2.
    apply append_same_suffix in H2. exact H2.
  - apply punishmentBlockRequest_target in H1, H2. rewrite H1 in H2.
    apply append_same_prefix in H2. apply append_same_prefix in H2.
    apply append_same_suffix in H2. exact H2.
Qed.

Lemma redirect_target_identifies_url_witness :
  let st1 := set_blockedSites ["example.com"] (initial_state empty_storage) in
  let st2 := set_blockCount 5 st1 in
  let url := "https://example.com/a b" in
  let t := getURL sample_base "blocked.html" +:+ "?url=https%3A%2F%2Fexample.com%2Fa%20b" in
  eval (blockRequest sample_base url) st1 = Returned (Redirect t)
  /\ eval (blockRequest sample_base url) st2 = Returned (Redirect t)
  /\ url = url.
Proof.
  intros st1 st2 url t.
  assert (H1 : eval (blockRequest sample_base url) st1 = Returned (Redirect t))
    by (vm_compute; reflexivity).
  assert (H2 : eval (blockRequest sample_base url) st2 = Returned (Redirect t))
    by (vm_compute; reflexivity).
  split; [exact H1|]. split; [exact H2|].
  apply (redirect_target_identifies_url sample_base url url st1 st2 t).
  left. split; assumption.
Defined.

(** ** More on the whitelist *)

(** X7. A URL is whitelisted exactly when some entry, lower-cased, is a
    prefix of the lower-cased URL: as they are, or both without their
    protocol, or both without their protocol and one leading [www.]. *)
Theorem isWhitelisted_by_prefix (st : State) (url : string) :
  isWhitelisted st url = true <->
  exists entry,
    In entry (whitelistedUrls st)
    /\ let u := Js.toLowerCase url in
       let w := Js.toLowerCase entry in
       Js.startsWith u w = true
       \/ Js.startsWith (strip_protocol u) (strip_protocol w) = true
       \/ Js.startsWith (strip_prefix "www." (strip_protocol u))
            (strip_prefix "www." (strip_protocol w)) = true.
Proof.
  unfold isWhitelisted.
  assert (He : forall l,
            existsb (whitelist_entry_allows (Js.toLowerCase url)) l = true <->
            exists entry, In entry l
              /\ (Js.startsWith (Js.toLowerCase url) (Js.toLowerCase entry) = true
                  \/ Js.startsWith (strip_protocol (Js.toLowerCase url))
                       (strip_protocol (Js.toLowerCase entry)) = true
                  \/ Js.startsWith (strip_prefix "www." (strip_protocol (Js.toLowerCase url)))
                       (strip_prefix "www." (strip_protocol (Js.toLowerCase entry))) = true)).
  { intros l. rewrite existsb_exists. split.
    - intros [entry [Hin H]]. exists entry. split; [exact Hin|].
      rewrite whitelist_entry_allows_spec in H. cbv zeta in H.
      apply orb_true_iff in H as [H|H]; [apply orb_true_iff in H as [H|H]|]; auto.
    - intros [entry [Hin H]]. exists entry. split; [exact Hin|].
      rewrite whitelist_entry_allows_spec. cbv zeta.
      destruct H as [H|[H|H]]; rewrite H; rewrite ?orb_true_r; reflexivity. }
  destruct (whitelistedUrls st) as [|w l] eqn:E.
  - split; [discriminate|]. intros [entry [[] _]].
  - apply He.
Qed.

(** X8. A whitelist entry that is nothing but a protocol, a [www.] or both
    (and the empty entry) allows every URL: the session filter then
    blocks nothing. *)
Theorem empty_whitelist_entry_allows_everything (base : string) (st : State)
    (entry url : string) :
  In entry (whitelistedUrls st) ->
  strip_prefix "www." (strip_protocol (Js.toLowerCase entry)) = "" ->
  isWhitelisted st url = true
  /\ blockRequest base url st = (Returned Allow, st).
Proof.
  intros Hin He.
  assert (Hw : isWhitelisted st url = true).
  { unfold isWhitelisted. destruct (whitelistedUrls st) as [|w l] eqn:E; [destruct Hin|].
    apply existsb_exists. exists entry. split; [exact Hin|].
    rewrite whitelist_entry_allows_spec. cbv zeta. rewrite He. apply orb_true_r. }
  split; [exact Hw|].
  unfold blockRequest, bind, gets. rewrite Hw. reflexivity.
Qed.

Lemma empty_whitelist_entry_allows_everything_witness :
  let st := set_whitelistedUrls ["https://"]
              (set_blockedSites ["example.com"] (initial_state empty_storage)) in
  pattern_test (buildBlockPattern st) "http://example.com/" = true
  /\ blockRequest sample_base "http://example.com/" st = (Returned Allow, st).
Proof.
  intros st. split; [vm_compute; reflexivity|].
  apply (empty_whitelist_entry_allows_everything sample_base st "https://" "http://example.com/").
  - left. reflexivity.
  - vm_compute. reflexivity.
Defined.

(** ** Invariants of the runs *)

Global Instance invariant_preorder (P : State -> Prop) : PreOrder (invariant P).
Proof.
  split.
  - intros st H. exact H.
  - intros a b c Hab Hbc H. apply Hbc, Hab, H.
Qed.

Create HintDb carry.

(** One step of a goal [keeps (invariant P) m]: a computation known to
    carry [P], a block that leaves [P] as it is or makes it true, a
    combinator, or a case split on what the code tests. *)
Ltac carry_step :=
  first
    [ solve [auto with carry]
    | solve [intros ? ?; first [assumption | reflexivity]]
    | apply keeps_ret; solve [typeclasses eauto]
    | apply keeps_throw; solve [typeclasses eauto]
    | apply keeps_gets; solve [typeclasses eauto]
    | apply keeps_fetch; solve [typeclasses eauto]
    | apply keeps_json; solve [typeclasses eauto]
    | apply keeps_bind; [ solve [typeclasses eauto] | | intros ? ]
    | apply keeps_try_catch; [ solve [typeclasses eauto] | | ]
    | apply keeps_try_finally; [ solve [typeclasses eauto] | | ]
    | match goal with
      | |- keeps _ (if ?b then _ else _) => destruct b
      | |- keeps _ (match ?x with _ => _ end) => destruct x
      end ].

Ltac carry := repeat carry_step.

Lemma invariant_and (P Q : State -> Prop) {A} (m : M A) :
  keeps (invariant P) m -> keeps (invariant Q) m ->
  keeps (invariant (fun st => P st /\ Q st)) m.
Proof. intros HP HQ st [H1 H2]. split; [apply HP, H1 | apply HQ, H2]. Qed.

(** The loop of the usage queue touches the queue and the trace only. *)
Lemma flush_loop_carries (P : State -> Prop) answers queue :
  (forall q st, P st -> P (set_usageReportQueue q st)) ->
  (forall t st, P st -> P (set_trace t st)) ->
  forall i, keeps (invariant P) (flush_loop answers i queue).
Proof.
  intros Hq Ht. induction queue as [|r rest IH]; intros i; simpl.
  - unfold skip. carry.
  - assert (He : forall e, keeps (invariant P) (emit e)).
    { intros e st H. apply Ht, H. }
    assert (Hp : forall x, keeps (invariant P) (push_report x)).
    { intros x st H. apply Hq, H. }
    apply keeps_bind; [typeclasses eauto | |intros broke].
    + apply keeps_try_catch; [typeclasses eauto | |].
      * apply keeps_bind; [typeclasses eauto | apply He | intros _].
        apply keeps_bind; [typeclasses eauto | apply keeps_fetch; typeclasses eauto | intros resp].
        apply keeps_bind; [typeclasses eauto | | intros _; apply keeps_ret; typeclasses eauto].
        destruct (negb (ok resp)); [apply Hp | apply keeps_ret; typeclasses eauto].
      * apply keeps_bind; [typeclasses eauto | apply Hp | intros _].
        apply keeps_ret; typeclasses eauto.
    + destruct broke; [apply keeps_ret; typeclasses eauto | apply IH].
Qed.

(** What is true after [initialize] and carried by every step is true
    in every reachable configuration. *)
Lemma reachable_invariant base (P : State -> Prop) :
  (forall sto, P (exec initialize (initial_state sto))) ->
  (forall h, keeps (invariant P) (fun st => (Returned tt, run_handler base h st))) ->
  (forall domain, keeps (invariant P) (classify_enter domain)) ->
  (forall tabId url domain signals r,
      keeps (invariant P) (classify_answer base tabId url domain signals r)) ->
  (forall domain, keeps (invariant P) (classify_finally domain)) ->
  forall c, reachable base c -> P (now c).
Proof.
  intros H0 Hh He Ha Hf c Hr. induction Hr as [sto | c c' Hr IH Hstep].
  - apply H0.
  - destruct Hstep as [h c | domain c | tabId url domain signals r c Hout | domain c Hout];
      simpl.
    + apply (Hh h (now c)), IH.
    + apply (He domain (now c)), IH.
    + apply (Ha tabId url domain signals r (now c)), IH.
    + apply (Hf domain (now c)), IH.
Qed.

(** Every handler carries a property that the functions it is made of
    carry. *)
Lemma run_handler_carries base (P : State -> Prop) :
  (forall net, keeps (invariant P) (syncWithApp net)) ->
  (forall url, keeps (invariant P) (blockRequest base url)) ->
  (forall url, keeps (invariant P) (alwaysBlockRequest base url)) ->
  (forall message, keeps (invariant P) (onMessage message)) ->
  (forall r, keeps (invariant P) (reportAdultStrike_done r)) ->
  (forall domain seconds r answers,
      keeps (invariant P) (reportWebsiteUsage domain seconds r answers)) ->
  (forall answers, keeps (invariant P) (flushUsageQueue answers)) ->
  (forall ping, keeps (invariant P) (classify_ping ping)) ->
  forall h, keeps (invariant P) (fun st => (Returned tt, run_handler base h st)).
Proof.
  intros Hs Hb Ha Hm Hd Hu Hf Hp h st H. destruct h; simpl.
  - apply (Hs net st H).
  - apply (Hb url st H).
  - apply (Ha url st H).
  - rewrite punishmentBlockRequest_keeps_state. exact H.
  - apply (Hm message st H).
  - apply (Hd r st H).
  - apply (Hu domain seconds r answers st H).
  - apply (Hf answers st H).
  - apply (Hp ping st H).
Qed.

(** *** The always-block listener *)

Lemma arm_always_armed l : keeps (invariant always_armed) (arm l).
Proof.
  intros st H. unfold always_armed in *. fold (exec (arm l) st).
  rewrite arm_has, H. apply orb_true_r.
Qed.

Lemma disarm_always_armed l :
  l <> L_alwaysBlockRequest -> keeps (invariant always_armed) (disarm l).
Proof.
  intros Hl st H. unfold always_armed in *. fold (exec (disarm l) st).
  rewrite disarm_has, H. rewrite bool_decide_eq_false_2 by congruence. reflexivity.
Qed.

Lemma startBlocking_always_armed : keeps (invariant always_armed) startBlocking.
Proof. apply (arm_always_armed L_blockRequest). Qed.

Lemma stopBlocking_always_armed : keeps (invariant always_armed) stopBlocking.
Proof. apply (disarm_always_armed L_blockRequest). discriminate. Qed.

Lemma startPunishmentBlocking_always_armed :
  keeps (invariant always_armed) startPunishmentBlocking.
Proof. apply (arm_always_armed L_punishmentBlockRequest). Qed.

Lemma stopPunishmentBlocking_always_armed :
  keeps (invariant always_armed) stopPunishmentBlocking.
Proof. apply (disarm_always_armed L_punishmentBlockRequest). discriminate. Qed.

#[export] Hint Resolve startBlocking_always_armed stopBlocking_always_armed
  startPunishmentBlocking_always_armed stopPunishmentBlocking_always_armed : carry.

Lemma syncWithApp_always_armed net : keeps (invariant always_armed) (syncWithApp net).
Proof.
  unfold syncWithApp, fetchBlockedSites, checkPunishmentStatus, checkCachedPunishmentStatus,
    syncAICache, updateIcon, emit, storage_set, skip.
  carry.
Qed.

#[export] Hint Resolve syncWithApp_always_armed : carry.

Lemma flushUsageQueue_carries (P : State -> Prop) answers :
  (forall q st, P st -> P (set_usageReportQueue q st)) ->
  (forall t st, P st -> P (set_trace t st)) ->
  keeps (invariant P) (flushUsageQueue answers).
Proof.
  intros Hq Ht. unfold flushUsageQueue.
  apply keeps_bind; [typeclasses eauto | apply keeps_gets; typeclasses eauto | intros queue].
  destruct queue as [|r rest]; [apply keeps_ret; typeclasses eauto|].
  apply keeps_bind; [typeclasses eauto | | intros _; apply flush_loop_carries; assumption].
  intros st H. apply Hq, H.
Qed.

Lemma reportWebsiteUsage_carries (P : State -> Prop) domain seconds r answers :
  (forall q st, P st -> P (set_usageReportQueue q st)) ->
  (forall t st, P st -> P (set_trace t st)) ->
  keeps (invariant P) (reportWebsiteUsage domain seconds r answers).
Proof.
  intros Hq Ht. unfold reportWebsiteUsage.
  assert (Hp : forall x, keeps (invariant P) (push_report x)).
  { intros x st H. apply Hq, H. }
  destruct (String.eqb domain "" || (seconds <=? 0)%Z); [apply keeps_ret; typeclasses eauto|].
  apply keeps_try_catch; [typeclasses eauto | | apply Hp].
  apply keeps_bind; [typeclasses eauto | intros st H; apply Ht, H | intros _].
  apply keeps_bind; [typeclasses eauto | apply keeps_fetch; typeclasses eauto | intros resp].
  destruct (ok resp); [apply flushUsageQueue_carries; assumption | apply Hp].
Qed.

Lemma always_armed_everywhere base c :
  reachable base c -> always_armed (now c).
Proof.
  apply reachable_invariant.
  - intros sto. unfold initialize.
    assert (H : forall (m : M unit) (k : M unit) st,
              returns m -> returns k -> keeps (invariant always_armed) k ->
              always_armed (exec m st) -> always_armed (exec (bind m (fun _ => k)) st)).
    { intros m k st Hm Hk Hc Ha. rewrite exec_seq by exact Hm. apply Hc, Ha. }
    rewrite exec_bind_gets, !exec_bind_modify.
    rewrite exec_seq by (unfold skip; total).
    rewrite exec_seq by (unfold skip; total).
    rewrite exec_seq by (unfold startSync, skip; total).
    rewrite exec_seq by total.
    assert (Hu : keeps (invariant always_armed) updateIcon)
      by (unfold updateIcon, emit; carry).
    apply Hu. unfold always_armed. fold (arm L_alwaysBlockRequest).
    rewrite startAlwaysBlocking_arm, arm_has. reflexivity.
  - apply run_handler_carries.
    + intros net. apply syncWithApp_always_armed.
    + intros url. unfold blockRequest, count_block, storage_set. carry.
    + intros url. unfold alwaysBlockRequest, count_block, reportAdultStrike, emit, storage_set.
      carry.
    + intros message. destruct message; unfold onMessage, updateIcon, emit, storage_set.
      all: carry.
    + intros r. unfold reportAdultStrike_done, storage_set, skip. carry.
    + intros. apply reportWebsiteUsage_carries; intros ? ? H; exact H.
    + intros. apply flushUsageQueue_carries; intros ? ? H; exact H.
    + intros ping. unfold classify_ping, skip. carry.
  - intros domain. unfold classify_enter. carry.
  - intros. unfold classify_answer, classify_try, reportAdultStrike, emit, storage_set, skip.
    carry.
  - intros domain. unfold classify_finally. carry.
Qed.

(** X11. In every reachable configuration the always-block listener is
    registered: [initialize] registers it and nothing takes it away. *)
Theorem always_block_listener_stays_armed (base : string) (c : Config) :
  reachable base c -> hasListener L_alwaysBlockRequest (now c) = true.
Proof. apply always_armed_everywhere. Qed.

Lemma always_block_listener_stays_armed_witness :
  let c0 := {| now := exec initialize (initial_state empty_storage); outstanding := [] |} in
  let c1 := {| now := run_handler sample_base (H_onMessage ManualToggle) (now c0);
               outstanding := outstanding c0 |} in
  let c2 := {| now := run_handler sample_base (H_syncWithApp all_down) (now c1);
               outstanding := outstanding c1 |} in
  hasListener L_blockRequest (now c1) = true
  /\ hasListener L_blockRequest (now c2) = false
  /\ hasListener L_alwaysBlockRequest (now c2) = true.
Proof.
  intros c0 c1 c2. split; [vm_compute; reflexivity|]. split; [vm_compute; reflexivity|].
  apply (always_block_listener_stays_armed sample_base c2).
  eapply reachable_step; [|apply step_handler].
  eapply reachable_step; [|apply step_handler].
  apply reachable_start.
Defined.

(** *** The punishment listener *)

Lemma arm_other_lock_armed l :
  l <> L_punishmentBlockRequest -> keeps (invariant lock_armed) (arm l).
Proof.
  intros Hl st H. unfold lock_armed in *. fold (exec (arm l) st).
  rewrite arm_has, H. rewrite bool_decide_eq_false_2 by congruence.
  symmetry. apply (arm_frame isPunishmentLocked l). reflexivity.
Qed.

Lemma disarm_other_lock_armed l :
  l <> L_punishmentBlockRequest -> keeps (invariant lock_armed) (disarm l).
Proof.
  intros Hl st H. unfold lock_armed in *. fold (exec (disarm l) st).
  rewrite disarm_has, H. rewrite bool_decide_eq_false_2 by congruence.
  symmetry. apply (disarm_frame isPunishmentLocked l). reflexivity.
Qed.

Lemma startBlocking_lock_armed : keeps (invariant lock_armed) startBlocking.
Proof. apply (arm_other_lock_armed L_blockRequest). discriminate. Qed.

Lemma stopBlocking_lock_armed : keeps (invariant lock_armed) stopBlocking.
Proof. apply (disarm_other_lock_armed L_blockRequest). discriminate. Qed.

Lemma startAlwaysBlocking_lock_armed : keeps (invariant lock_armed) startAlwaysBlocking.
Proof. apply (arm_other_lock_armed L_alwaysBlockRequest). discriminate. Qed.

(** Setting the lock and then starting or stopping the listener as the
    code does: the listener follows the lock. *)
Lemma lock_on st :
  lock_armed st ->
  lock_armed (if negb (isPunishmentLocked st)
              then exec startPunishmentBlocking (set_isPunishmentLocked true st)
              else set_isPunishmentLocked true st).
Proof.
  unfold lock_armed. intros H. destruct (isPunishmentLocked st) eqn:E; simpl.
  - exact H.
  - rewrite startPunishmentBlocking_arm, arm_has.
    rewrite bool_decide_eq_true_2 by reflexivity.
    symmetry. apply (arm_frame isPunishmentLocked L_punishmentBlockRequest). reflexivity.
Qed.

Lemma lock_off st :
  lock_armed st ->
  lock_armed (if isPunishmentLocked st
              then exec stopPunishmentBlocking (set_isPunishmentLocked false st)
              else set_isPunishmentLocked false st).
Proof.
  unfold lock_armed. intros H. destruct (isPunishmentLocked st) eqn:E; simpl.
  - rewrite stopPunishmentBlocking_disarm, disarm_has.
    rewrite bool_decide_eq_true_2 by reflexivity.
    symmetry. apply (disarm_frame isPunishmentLocked L_punishmentBlockRequest). reflexivity.
  - exact H.
Qed.

Lemma checkCachedPunishmentStatus_result st :
  exec checkCachedPunishmentStatus st =
    match s_punishmentState (storage st) with
    | Some status =>
        if is_locked status && (0 <? lock_time_remaining status)%Z then
          if negb (isPunishmentLocked st)
          then exec startPunishmentBlocking (set_isPunishmentLocked true st)
          else set_isPunishmentLocked true st
        else
          if isPunishmentLocked st
          then exec stopPunishmentBlocking (set_isPunishmentLocked false st)
          else set_isPunishmentLocked false st
    | None => st
    end.
Proof.
  unfold checkCachedPunishmentStatus. rewrite exec_try_catch_returns by (unfold skip; total).
  rewrite exec_bind_gets. destruct (s_punishmentState (storage st)) as [status|]; [|reflexivity].
  rewrite exec_bind_gets.
  destruct (is_locked status && (0 <? lock_time_remaining status)%Z).
  - rewrite exec_bind_modify. destruct (isPunishmentLocked st); reflexivity.
  - rewrite exec_bind_modify. destruct (isPunishmentLocked st); reflexivity.
Qed.

Lemma checkCachedPunishmentStatus_lock_armed :
  keeps (invariant lock_armed) checkCachedPunishmentStatus.
Proof.
  intros st H. fold (exec checkCachedPunishmentStatus st).
  rewrite checkCachedPunishmentStatus_result.
  destruct (s_punishmentState (storage st)) as [status|]; [|exact H].
  destruct (is_locked status && (0 <? lock_time_remaining status)%Z).
  - apply lock_on, H.
  - apply lock_off, H.
Qed.

#[export] Hint Resolve startBlocking_lock_armed stopBlocking_lock_armed
  startAlwaysBlocking_lock_armed checkCachedPunishmentStatus_lock_armed : carry.

(** What an answered punishment poll leaves: the record is stored and
    the lock is the record's [is_locked]. *)
Lemma checkPunishmentStatus_result status st :
  exec (checkPunishmentStatus (Response true (Some status))) st =
    let st1 := set_storage (put_punishmentState status (storage st)) st in
    if is_locked status then
      if negb (isPunishmentLocked st)
      then exec startPunishmentBlocking (set_isPunishmentLocked true st1)
      else set_isPunishmentLocked true st1
    else
      if isPunishmentLocked st
      then exec stopPunishmentBlocking (set_isPunishmentLocked false st1)
      else set_isPunishmentLocked false st1.
Proof.
  unfold checkPunishmentStatus. simpl fetch. rewrite bind_ret_l. simpl ok. cbv iota.
  rewrite exec_try_catch_returns by (unfold json, skip; simpl; total).
  unfold json. simpl json_body. cbv iota. rewrite bind_ret_l.
  unfold storage_set. rewrite exec_bind_modify, exec_bind_gets, exec_bind_modify, exec_bind_gets.
  simpl isPunishmentLocked.
  destruct (is_locked status); destruct (isPunishmentLocked st); reflexivity.
Qed.

Lemma checkPunishmentStatus_lock_armed r :
  keeps (invariant lock_armed) (checkPunishmentStatus r).
Proof.
  destruct r as [|[] [status|]].
  - unfold checkPunishmentStatus. carry.
  - intros st H. fold (exec (checkPunishmentStatus (Response true (Some status))) st).
    rewrite checkPunishmentStatus_result. cbv zeta.
    set (st1 := set_storage (put_punishmentState status (storage st)) st).
    assert (H1 : lock_armed st1) by exact H.
    change (isPunishmentLocked st) with (isPunishmentLocked st1).
    destruct (is_locked status); [apply lock_on, H1 | apply lock_off, H1].
  - unfold checkPunishmentStatus. carry.
  - unfold checkPunishmentStatus. carry.
  - unfold checkPunishmentStatus. carry.
Qed.

#[export] Hint Resolve checkPunishmentStatus_lock_armed : carry.

Lemma syncWithApp_lock_armed net : keeps (invariant lock_armed) (syncWithApp net).
Proof.
  unfold syncWithApp, fetchBlockedSites, syncAICache, updateIcon, emit, storage_set, skip.
  carry.
Qed.

Lemma initialize_lock_armed sto : lock_armed (exec initialize (initial_state sto)).
Proof.
  unfold initialize. rewrite exec_bind_gets, !exec_bind_modify.
  rewrite exec_seq by (unfold skip; total).
  rewrite exec_seq by (unfold skip; total).
  rewrite exec_seq by (unfold startSync, skip; total).
  rewrite exec_seq by total.
  assert (Hu : keeps (invariant lock_armed) updateIcon) by (unfold updateIcon, emit; carry).
  apply Hu. apply startAlwaysBlocking_lock_armed.
  unfold startSync, skip. change (exec (ret tt) ?s) with s.
  set (s0 := set_blockCount _ _).
  assert (H0 : lock_armed s0) by reflexivity.
  assert (Ha : forall s, lock_armed s ->
            lock_armed (exec (match s_aiCheckedDomains (storage (initial_state sto)) with
                              | Some l => modify (set_aiCheckedDomains (list_to_set l))
                              | None => ret tt
                              end) s)).
  { intros s Hs. destruct (s_aiCheckedDomains _); exact Hs. }
  specialize (Ha s0 H0). set (s1 := exec _ s0) in *.
  assert (Hl : isPunishmentLocked s1 = false).
  { subst s1. destruct (s_aiCheckedDomains _); reflexivity. }
  destruct (s_punishmentState (storage (initial_state sto))) as [p|]; [|exact Ha].
  destruct (is_locked p); [|exact Ha].
  rewrite exec_bind_modify. pose proof (lock_on s1 Ha) as Hon. rewrite Hl in Hon. exact Hon.
Qed.

Lemma lock_armed_everywhere base c : reachable base c -> lock_armed (now c).
Proof.
  apply reachable_invariant.
  - apply initialize_lock_armed.
  - apply run_handler_carries.
    + intros net. apply syncWithApp_lock_armed.
    + intros url. unfold blockRequest, count_block, storage_set. carry.
    + intros url. unfold alwaysBlockRequest, count_block, reportAdultStrike, emit, storage_set.
      carry.
    + intros message. pose proof syncWithApp_lock_armed.
      destruct message; unfold onMessage, updateIcon, emit, storage_set.
      all: carry.
    + intros r. unfold reportAdultStrike_done, storage_set, skip. carry.
    + intros. apply reportWebsiteUsage_carries; intros ? ? H; exact H.
    + intros. apply flushUsageQueue_carries; intros ? ? H; exact H.
    + intros ping. unfold classify_ping, skip. carry.
  - intros domain. unfold classify_enter. carry.
  - intros. unfold classify_answer, classify_try, reportAdultStrike, emit, storage_set, skip.
    carry.
  - intros domain. unfold classify_finally. carry.
Qed.

(** X12. In every reachable configuration the punishment listener is
    registered exactly when [isPunishmentLocked] is true: each change of
    the lock starts or stops the listener before anything else runs. *)
Theorem punishment_listener_follows_lock (base : string) (c : Config) :
  reachable base c ->
  hasListener L_punishmentBlockRequest (now c) = isPunishmentLocked (now c).
Proof. apply lock_armed_everywhere. Qed.

Lemma punishment_listener_follows_lock_witness :
  let sto := put_punishmentState {| is_locked := true; lock_time_remaining := 60 |}
               empty_storage in
  let net := {| net_status := Response false None; net_sites := NetworkError;
                net_punishment :=
                  Response true (Some {| is_locked := false; lock_time_remaining := 0 |});
                net_cache := NetworkError |} in
  let c0 := {| now := exec initialize (initial_state sto); outstanding := [] |} in
  let c1 := {| now := run_handler sample_base (H_syncWithApp net) (now c0);
               outstanding := outstanding c0 |} in
  (isPunishmentLocked (now c0) = true /\ hasListener L_punishmentBlockRequest (now c0) = true)
  /\ isPunishmentLocked (now c1) = false
  /\ hasListener L_punishmentBlockRequest (now c1) = isPunishmentLocked (now c1).
Proof.
  intros sto net c0 c1.
  split; [split; vm_compute; reflexivity|]. split; [vm_compute; reflexivity|].
  apply (punishment_listener_follows_lock sample_base c1).
  eapply reachable_step; [|apply step_handler].
  apply reachable_start.
Defined.

(** *** Storage and the variables loaded from it *)

Lemma mirrored_carried {A} (m : M A) :
  keeps (invariant (mirrors blockedSites
                      (fun s => default DEFAULT_BLOCKED_SITES (s_blockedSites s)))) m ->
  keeps (invariant (mirrors alwaysBlockedSites (fun s => default [] (s_alwaysBlockedSites s)))) m ->
  keeps (invariant (mirrors whitelistedUrls (fun s => default [] (s_whitelistedUrls s)))) m ->
  keeps (invariant (mirrors blockCount (fun s => default 0 (s_blockCount s)))) m ->
  keeps (invariant (mirrors aiCheckedDomains
                      (fun s => match s_aiCheckedDomains s with
                                | Some l => list_to_set l
                                | None => ∅
                                end))) m ->
  keeps (invariant mirrored) m.
Proof.
  intros H1 H2 H3 H4 H5 st (M1 & M2 & M3 & M4 & M5).
  repeat split; [apply H1 | apply H2 | apply H3 | apply H4 | apply H5]; assumption.
Qed.

(** Listener changes touch neither storage nor the variables. *)
Lemma arm_mirrors {A} (var : State -> A) stored l :
  (forall ls st, var (set_listeners ls st) = var st) ->
  keeps (invariant (mirrors var stored)) (arm l).
Proof.
  intros Hv st H. unfold mirrors in *. fold (exec (arm l) st).
  rewrite (exec_preserves var (arm l) st (arm_frame var l Hv)).
  rewrite (exec_preserves storage (arm l) st (arm_frame storage l (fun _ _ => eq_refl))). exact H.
Qed.

Lemma disarm_mirrors {A} (var : State -> A) stored l :
  (forall ls st, var (set_listeners ls st) = var st) ->
  keeps (invariant (mirrors var stored)) (disarm l).
Proof.
  intros Hv st H. unfold mirrors in *. fold (exec (disarm l) st).
  rewrite (exec_preserves var (disarm l) st (disarm_frame var l Hv)).
  rewrite (exec_preserves storage (disarm l) st (disarm_frame storage l (fun _ _ => eq_refl))). exact H.
Qed.

(** The two places that change the set of checked domains store its
    elements at once. *)
Lemma add_checked_mirrors domain :
  keeps (invariant (mirrors aiCheckedDomains
                      (fun s => match s_aiCheckedDomains s with
                                | Some l => list_to_set l
                                | None => ∅
                                end)))
    (modify (fun st => set_aiCheckedDomains ({[domain]} ∪ aiCheckedDomains st) st);;
     checked ← gets aiCheckedDomains;
     storage_set (put_aiCheckedDomains (elements checked))).
Proof.
  intros st _. unfold mirrors. simpl. symmetry. apply list_to_set_elements_L.
Qed.

Lemma load_checked_mirrors (l : list string) :
  keeps (invariant (mirrors aiCheckedDomains
                      (fun s => match s_aiCheckedDomains s with
                                | Some l => list_to_set l
                                | None => ∅
                                end)))
    (modify (set_aiCheckedDomains (list_to_set l));;
     checked ← gets aiCheckedDomains;
     storage_set (put_aiCheckedDomains (elements checked))).
Proof.
  intros st _. unfold mirrors. simpl. symmetry. apply list_to_set_elements_L.
Qed.

#[export] Hint Resolve add_checked_mirrors load_checked_mirrors : carry.

Ltac mirror :=
  apply mirrored_carried;
  repeat first
    [ match goal with
      | |- keeps _ startBlocking => rewrite startBlocking_arm; apply arm_mirrors; reflexivity
      | |- keeps _ stopBlocking => rewrite stopBlocking_disarm; apply disarm_mirrors; reflexivity
      | |- keeps _ startPunishmentBlocking =>
          rewrite startPunishmentBlocking_arm; apply arm_mirrors; reflexivity
      | |- keeps _ stopPunishmentBlocking =>
          rewrite stopPunishmentBlocking_disarm; apply disarm_mirrors; reflexivity
      | |- keeps _ startAlwaysBlocking =>
          rewrite startAlwaysBlocking_arm; apply arm_mirrors; reflexivity
      end
    | carry_step ].

Lemma syncWithApp_mirrored net : keeps (invariant mirrored) (syncWithApp net).
Proof.
  unfold syncWithApp, fetchBlockedSites, checkPunishmentStatus, checkCachedPunishmentStatus,
    syncAICache, updateIcon, emit, skip.
  mirror.
Qed.

Lemma initialize_storage sto : storage (exec initialize (initial_state sto)) = sto.
Proof.
  rewrite (exec_preserves storage); [reflexivity|].
  unfold initialize, startPunishmentBlocking, startAlwaysBlocking, startSync, updateIcon, skip,
    removeListener, addListener, emit.
  frame.
Qed.

Lemma initialize_aiCheckedDomains sto :
  aiCheckedDomains (exec initialize (initial_state sto)) =
    match s_aiCheckedDomains sto with
    | Some l => list_to_set l
    | None => ∅
    end.
Proof.
  unfold initialize. rewrite exec_bind_gets, !exec_bind_modify.
  rewrite exec_seq by (unfold skip; total).
  rewrite (exec_preserves aiCheckedDomains).
  - simpl storage. destruct (s_aiCheckedDomains sto); reflexivity.
  - unfold startPunishmentBlocking, startAlwaysBlocking, startSync, updateIcon, skip,
      removeListener, addListener, emit.
    frame.
Qed.

Lemma initialize_mirrored sto : mirrored (exec initialize (initial_state sto)).
Proof.
  pose proof (initialize_core sto) as Hc. unfold sync_core in Hc.
  injection Hc as _ _ Hb Hw Ha Hn.
  unfold mirrored, mirrors. rewrite initialize_storage, initialize_aiCheckedDomains.
  repeat split; assumption.
Qed.

Lemma mirrored_everywhere base c : reachable base c -> mirrored (now c).
Proof.
  apply reachable_invariant.
  - apply initialize_mirrored.
  - apply run_handler_carries.
    + apply syncWithApp_mirrored.
    + intros url. unfold blockRequest, count_block. mirror.
    + intros url. unfold alwaysBlockRequest, count_block, reportAdultStrike, emit. mirror.
    + intros message. pose proof syncWithApp_mirrored.
      destruct message; unfold onMessage, updateIcon, emit.
      all: mirror.
    + intros r. unfold reportAdultStrike_done, skip. mirror.
    + intros. apply reportWebsiteUsage_carries; intros ? ? H; exact H.
    + intros. apply flushUsageQueue_carries; intros ? ? H; exact H.
    + intros ping. unfold classify_ping, skip. mirror.
  - intros domain. unfold classify_enter. mirror.
  - intros. unfold classify_answer, classify_try, reportAdultStrike, emit, skip. mirror.
  - intros domain. unfold classify_finally. mirror.
Qed.

(** X14. The rule sets, the block counter and the set of checked domains
    survive a restart: in every reachable configuration, running
    [initialize] on what storage holds gives back the five variables as
    they are. *)
Theorem restart_restores_the_rules (base : string) (c : Config) :
  reachable base c ->
  let st' := exec initialize (initial_state (storage (now c))) in
  blockedSites st' = blockedSites (now c)
  /\ alwaysBlockedSites st' = alwaysBlockedSites (now c)
  /\ whitelistedUrls st' = whitelistedUrls (now c)
  /\ blockCount st' = blockCount (now c)
  /\ aiCheckedDomains st' = aiCheckedDomains (now c).
Proof.
  intros Hr st'. destruct (mirrored_everywhere base c Hr) as (M1 & M2 & M3 & M4 & M5).
  destruct (initialize_mirrored (storage (now c))) as (I1 & I2 & I3 & I4 & I5).
  fold st' in I1, I2, I3, I4, I5. unfold mirrors in *.
  assert (Hs : storage st' = storage (now c)) by apply initialize_storage.
  rewrite Hs in *. repeat split; congruence.
Qed.

Lemma restart_restores_the_rules_witness :
  let net := {| net_status := Response true (Some {| status_isBlocking := true |});
                net_sites := Response true (Some {| sites := Some ["news.example"];
                                                    alwaysBlocked := Some ["bad.example"];
                                                    whitelist := Some ["news.example/weather"] |});
                net_punishment := NetworkError; net_cache := NetworkError |} in
  let c0 := {| now := exec initialize (initial_state empty_storage); outstanding := [] |} in
  let c1 := {| now := run_handler sample_base (H_syncWithApp net) (now c0);
               outstanding := outstanding c0 |} in
  let c2 := {| now := run_handler sample_base (H_blockRequest "https://news.example/") (now c1);
               outstanding := outstanding c1 |} in
  let st' := exec initialize (initial_state (storage (now c2))) in
  (blockedSites (now c2) = ["news.example"] /\ blockCount (now c2) = 1)
  /\ blockedSites st' = blockedSites (now c2)
  /\ alwaysBlockedSites st' = alwaysBlockedSites (now c2)
  /\ whitelistedUrls st' = whitelistedUrls (now c2)
  /\ blockCount st' = blockCount (now c2)
  /\ aiCheckedDomains st' = aiCheckedDomains (now c2).
Proof.
  intros net c0 c1 c2 st'. split; [split; vm_compute; reflexivity|].
  apply (restart_restores_the_rules sample_base c2).
  eapply reachable_step; [|apply step_handler].
  eapply reachable_step; [|apply step_handler].
  apply reachable_start.
Defined.

(** ** More on the sync cycle *)

(** The lock after the cached check: what the stored record says, the
    lock as it was when nothing is stored. *)
Lemma checkCachedPunishmentStatus_lock st :
  isPunishmentLocked (exec checkCachedPunishmentStatus st) =
    match s_punishmentState (storage st) with
    | Some p => is_locked p && (0 <? lock_time_remaining p)%Z
    | None => isPunishmentLocked st
    end.
Proof.
  rewrite checkCachedPunishmentStatus_result.
  destruct (s_punishmentState (storage st)) as [p|]; [|reflexivity].
  destruct (is_locked p && (0 <? lock_time_remaining p)%Z);
    destruct (isPunishmentLocked st); simpl; try reflexivity.
  - rewrite startPunishmentBlocking_arm.
    apply (exec_preserves isPunishmentLocked), arm_frame. reflexivity.
  - rewrite stopPunishmentBlocking_disarm.
    apply (exec_preserves isPunishmentLocked), disarm_frame. reflexivity.
Qed.

Lemma checkCachedPunishmentStatus_storage : preserves storage checkCachedPunishmentStatus.
Proof.
  unfold checkCachedPunishmentStatus, startPunishmentBlocking, stopPunishmentBlocking,
    removeListener, addListener, skip.
  frame.
Qed.

Lemma stopBlocking_storage : preserves storage stopBlocking.
Proof. apply (disarm_frame storage L_blockRequest). reflexivity. Qed.

Lemma updateIcon_storage : preserves storage updateIcon.
Proof. unfold updateIcon, emit. frame. Qed.

(** One cycle with the server unreachable. *)
Lemma offline_cycle net st :
  net_status net = NetworkError ->
  let st' := exec (syncWithApp net) st in
  storage st' = storage st
  /\ isPunishmentLocked st' =
       match s_punishmentState (storage st) with
       | Some p => is_locked p && (0 <? lock_time_remaining p)%Z
       | None => isPunishmentLocked st
       end.
Proof.
  intros Hn st'. subst st'.
  rewrite syncWithApp_rejected by (rewrite Hn; reflexivity).
  rewrite exec_bind_modify, exec_bind_gets.
  set (s0 := set_appConnected false st).
  assert (Hpre : forall m : M unit,
            returns m -> preserves storage m -> preserves isPunishmentLocked m ->
            storage (exec (bind m (fun _ => checkCachedPunishmentStatus)) s0) = storage st
            /\ isPunishmentLocked (exec (bind m (fun _ => checkCachedPunishmentStatus)) s0) =
                 match s_punishmentState (storage st) with
                 | Some p => is_locked p && (0 <? lock_time_remaining p)%Z
                 | None => isPunishmentLocked st
                 end).
  { intros m Hr Hs Hl. rewrite exec_seq by exact Hr.
    rewrite (exec_preserves storage _ _ checkCachedPunishmentStatus_storage).
    rewrite checkCachedPunishmentStatus_lock.
    rewrite (exec_preserves storage _ _ Hs), (exec_preserves isPunishmentLocked _ _ Hl).
    split; reflexivity. }
  destruct (isBlocking s0).
  - apply Hpre.
    + total.
    + pose proof stopBlocking_storage. pose proof updateIcon_storage. frame.
    + assert (preserves isPunishmentLocked stopBlocking)
        by (apply (disarm_frame isPunishmentLocked L_blockRequest); reflexivity).
      assert (preserves isPunishmentLocked updateIcon) by (unfold updateIcon, emit; frame).
      frame.
  - apply Hpre; unfold skip; [total | frame | frame].
Qed.

(** X13. Offline, a lock does not run out. The cached record carries the
    time that remained when it was stored and nothing counts it down:
    after any number of cycles with the server unreachable the lock is
    what the record said, the record is as it was, and the punishment
    listener is registered exactly when the lock is on. *)
Theorem offline_lock_does_not_expire (net : SyncNet) (st : State) (p : PunishmentRecord)
    (n : nat) :
  net_status net = NetworkError ->
  s_punishmentState (storage st) = Some p ->
  hasListener L_punishmentBlockRequest st = isPunishmentLocked st ->
  let st' := Nat.iter (S n) (exec (syncWithApp net)) st in
  isPunishmentLocked st' = (is_locked p && (0 <? lock_time_remaining p)%Z)
  /\ s_punishmentState (storage st') = Some p
  /\ hasListener L_punishmentBlockRequest st' = isPunishmentLocked st'.
Proof.
  intros Hn Hp Ha.
  assert (Hiter : forall k,
            s_punishmentState (storage (Nat.iter k (exec (syncWithApp net)) st)) = Some p
            /\ lock_armed (Nat.iter k (exec (syncWithApp net)) st)).
  { induction k as [|k [IHs IHa]]; [split; assumption|]. simpl.
    destruct (offline_cycle net (Nat.iter k (exec (syncWithApp net)) st) Hn) as [Hs _].
    split; [rewrite Hs; exact IHs | apply syncWithApp_lock_armed, IHa]. }
  intros st'. subst st'. destruct (Hiter n) as [Hs Hl]. destruct (Hiter (S n)) as [Hs' Hl'].
  simpl in *.
  destruct (offline_cycle net (Nat.iter n (exec (syncWithApp net)) st) Hn) as [_ Hlock].
  rewrite Hs in Hlock. split; [exact Hlock|]. split; [exact Hs' | exact Hl'].
Qed.

Lemma offline_lock_does_not_expire_witness :
  let sto := put_punishmentState {| is_locked := true; lock_time_remaining := 60 |}
               empty_storage in
  let st := exec initialize (initial_state sto) in
  let st' := Nat.iter 1000 (exec (syncWithApp all_down)) st in
  isPunishmentLocked st' = true
  /\ hasListener L_punishmentBlockRequest st' = isPunishmentLocked st'.
Proof.
  intros sto st st'.
  assert (Hp : s_punishmentState (storage st)
               = Some {| is_locked := true; lock_time_remaining := 60 |})
    by (vm_compute; reflexivity).
  assert (Ha : hasListener L_punishmentBlockRequest st = isPunishmentLocked st)
    by (vm_compute; reflexivity).
  destruct (offline_lock_does_not_expire all_down st
              {| is_locked := true; lock_time_remaining := 60 |} 999 eq_refl Hp Ha)
    as (H1 & _ & H3).
  split; [exact H1 | exact H3].
Defined.

Lemma fetchBlockedSites_session r :
  preserves (fun st => (isBlocking st, appConnected st, listeners st)) (fetchBlockedSites r).
Proof. unfold fetchBlockedSites, storage_set, skip. frame. Qed.

(** X15. An answered status poll: the script takes the app's word. After the
    cycle [appConnected] is true and [isBlocking] is the app's
    [isBlocking]; and when the session listener was registered exactly
    when [isBlocking] was true, it is so again. *)
Theorem syncWithApp_follows_status (net : SyncNet) (status : StatusBody) (st : State) :
  net_status net = Response true (Some status) ->
  hasListener L_blockRequest st = isBlocking st ->
  let st' := exec (syncWithApp net) st in
  appConnected st' = true
  /\ isBlocking st' = status_isBlocking status
  /\ hasListener L_blockRequest st' = status_isBlocking status.
Proof.
  intros Hn Ha st'. subst st'. unfold syncWithApp. rewrite Hn.
  simpl fetch. rewrite bind_ret_l. simpl ok. cbv iota.
  rewrite exec_try_catch_returns by (unfold json, skip; simpl; total).
  unfold json. simpl json_body. cbv iota.
  rewrite exec_seq by (unfold skip; rewrite bind_ret_l; total).
  rewrite exec_seq by total.
  set (s1 := exec _ st).
  assert (H1 : appConnected s1 = true /\ isBlocking s1 = status_isBlocking status
               /\ hasListener L_blockRequest s1 = status_isBlocking status).
  { subst s1. rewrite bind_ret_l, exec_bind_modify, exec_bind_gets, exec_bind_modify,
      exec_bind_gets.
    simpl isBlocking.
    set (s0 := set_isBlocking (status_isBlocking status) (set_appConnected true st)).
    assert (H0 : appConnected s0 = true /\ isBlocking s0 = status_isBlocking status
                 /\ hasListener L_blockRequest s0 = isBlocking st) by (repeat split; exact Ha).
    destruct H0 as (Hc0 & Hb0 & Hl0).
    assert (Hicon : forall s, appConnected (exec updateIcon s) = appConnected s
                              /\ isBlocking (exec updateIcon s) = isBlocking s
                              /\ hasListener L_blockRequest (exec updateIcon s)
                                 = hasListener L_blockRequest s).
    { intros s.
      pose proof (exec_preserves sync_core updateIcon s updateIcon_core) as Hk.
      unfold sync_core in Hk. injection Hk as Hk1 Hk2 _ _ _ _.
      repeat split; try assumption.
      unfold hasListener. rewrite (exec_preserves listeners updateIcon) by auto with preserve.
      reflexivity. }
    destruct (status_isBlocking status) eqn:Es; destruct (isBlocking st) eqn:Eb;
      cbn [andb negb]; cbv iota.
    - rewrite exec_seq by (unfold skip; total). change (exec skip s0) with s0.
      destruct (Hicon s0) as (E1 & E2 & E3). rewrite E1, E2, E3. auto.
    - rewrite exec_seq by total. rewrite exec_seq by total.
      destruct (Hicon (exec startBlocking (exec (fetchBlockedSites (net_sites net)) s0)))
        as (E1 & E2 & E3). rewrite E1, E2, E3.
      pose proof (exec_preserves sync_core startBlocking
                    (exec (fetchBlockedSites (net_sites net)) s0) startBlocking_core) as Hk.
      unfold sync_core in Hk. injection Hk as Hk1 Hk2 _ _ _ _.
      pose proof (exec_preserves _ _ s0 (fetchBlockedSites_session (net_sites net))) as Hf.
      cbv beta in Hf. injection Hf as Hf1 Hf2 _.
      rewrite Hk1, Hk2, Hf1, Hf2, startBlocking_arm, arm_has.
      rewrite bool_decide_eq_true_2 by reflexivity. auto.
    - rewrite exec_seq by total.
      destruct (Hicon (exec stopBlocking s0)) as (E1 & E2 & E3). rewrite E1, E2, E3.
      pose proof (exec_preserves sync_core stopBlocking s0 stopBlocking_core) as Hk.
      unfold sync_core in Hk. injection Hk as Hk1 Hk2 _ _ _ _.
      rewrite Hk1, Hk2, stopBlocking_disarm, disarm_has.
      rewrite bool_decide_eq_true_2 by reflexivity. auto.
    - rewrite exec_seq by (unfold skip; total). change (exec skip s0) with s0.
      destruct (Hicon s0) as (E1 & E2 & E3). rewrite E1, E2, E3. auto. }
  destruct H1 as (Hc1 & Hb1 & Hl1).
  set (s2 := exec (checkPunishmentStatus (net_punishment net)) s1).
  assert (Hk : sync_core (exec (syncAICache (net_cache net)) s2) = sync_core s1).
  { subst s2. rewrite !(exec_preserves sync_core) by auto with preserve. reflexivity. }
  unfold sync_core in Hk. injection Hk as Hk1 Hk2 _ _ _ _.
  rewrite Hk1, Hk2. subst s2.
  rewrite !(exec_preserves (hasListener L_blockRequest)) by auto with preserve.
  auto.
Qed.

Lemma syncWithApp_follows_status_witness :
  let net := {| net_status := Response true (Some {| status_isBlocking := true |});
                net_sites := Response true (Some {| sites := Some ["news.example"];
                                                    alwaysBlocked := None;
                                                    whitelist := None |});
                net_punishment := NetworkError; net_cache := NetworkError |} in
  let st' := exec (syncWithApp net) (exec initialize (initial_state empty_storage)) in
  appConnected st' = true /\ isBlocking st' = true /\ hasListener L_blockRequest st' = true
  /\ blockedSites st' = ["news.example"].
Proof.
  intros net st'.
  assert (Ha : hasListener L_blockRequest (exec initialize (initial_state empty_storage))
               = isBlocking (exec initialize (initial_state empty_storage)))
    by (vm_compute; reflexivity).
  destruct (syncWithApp_follows_status net {| status_isBlocking := true |}
              (exec initialize (initial_state empty_storage)) eq_refl Ha)
    as (H1 & H2 & H3).
  split; [exact H1|]. split; [exact H2|]. split; [exact H3|]. vm_compute. reflexivity.
Defined.

(** What a refresh leaves in [blockedSites]. *)
Lemma fetchBlockedSites_blockedSites r st :
  blockedSites (exec (fetchBlockedSites r) st) =
    match r with
    | Response true (Some data) =>
        match nonempty_array (sites data) with
        | Some l => l
        | None => blockedSites st
        end
    | _ => blockedSites st
    end.
Proof.
  unfold fetchBlockedSites. destruct r as [|[] [data|]]; try reflexivity.
  simpl fetch. rewrite bind_ret_l. simpl ok. cbv iota.
  rewrite exec_try_catch_returns by (unfold json, skip; simpl; total).
  unfold json. simpl json_body. cbv iota. rewrite bind_ret_l.
  rewrite exec_seq by (unfold skip; total).
  assert (Hrest : forall m : M unit,
            m = bind (match nonempty_array (alwaysBlocked data) with
                      | Some l => bind (modify (set_alwaysBlockedSites l))
                                    (fun _ => storage_set (put_alwaysBlockedSites l))
                      | None => skip
                      end)
                  (fun _ => match whitelist data with
                            | Some l => bind (modify (set_whitelistedUrls l))
                                          (fun _ => storage_set (put_whitelistedUrls l))
                            | None => skip
                            end) ->
            preserves blockedSites m).
  { intros m ->. unfold skip, storage_set. frame. }
  rewrite (exec_preserves blockedSites _ _ (Hrest _ eq_refl)).
  destruct (nonempty_array (sites data)) as [l|]; reflexivity.
Qed.

Lemma fetchBlockedSites_whitelist r st :
  whitelistedUrls (exec (fetchBlockedSites r) st) =
    match r with
    | Response true (Some data) =>
        match whitelist data with
        | Some l => l
        | None => whitelistedUrls st
        end
    | _ => whitelistedUrls st
    end.
Proof.
  unfold fetchBlockedSites. destruct r as [|[] [data|]]; try reflexivity.
  simpl fetch. rewrite bind_ret_l. simpl ok. cbv iota.
  rewrite exec_try_catch_returns by (unfold json, skip; simpl; total).
  unfold json. simpl json_body. cbv iota. rewrite bind_ret_l.
  rewrite exec_seq by (unfold skip; total).
  rewrite exec_seq by (unfold skip; total).
  destruct (whitelist data) as [l|].
  - reflexivity.
  - unfold skip at 1. change (exec (ret tt) ?s) with s.
    destruct (nonempty_array (alwaysBlocked data)); destruct (nonempty_array (sites data));
      reflexivity.
Qed.

Lemma nonempty_array_nonempty x l : nonempty_array x = Some l -> l <> [].
Proof. destruct x as [[|y t]|]; simpl; intros H; try discriminate. injection H as <-. discriminate. Qed.

(** X16. A refresh never empties the two block lists: an answer without a
    list, or with an empty one, leaves the list as it was. The
    whitelist is different: whatever whitelist the answer carries is
    taken, the empty one too. *)
Theorem refresh_never_empties_block_lists (r : fetch_result SitesBody) (st : State) :
  (blockedSites st <> [] -> blockedSites (exec (fetchBlockedSites r) st) <> [])
  /\ (alwaysBlockedSites st <> [] -> alwaysBlockedSites (exec (fetchBlockedSites r) st) <> [])
  /\ (forall data l, r = Response true (Some data) -> whitelist data = Some l ->
        whitelistedUrls (exec (fetchBlockedSites r) st) = l).
Proof.
  split; [|split].
  - intros H. rewrite fetchBlockedSites_blockedSites.
    destruct r as [|[] [data|]]; try exact H.
    destruct (nonempty_array (sites data)) as [l|] eqn:E; [|exact H].
    eapply nonempty_array_nonempty, E.
  - intros H. rewrite fetchBlockedSites_alwaysBlocked.
    destruct r as [|[] [data|]]; try exact H.
    destruct (nonempty_array (alwaysBlocked data)) as [l|] eqn:E; [|exact H].
    eapply nonempty_array_nonempty, E.
  - intros data l -> Hw. rewrite fetchBlockedSites_whitelist, Hw. reflexivity.
Qed.

Lemma refresh_never_empties_block_lists_witness :
  let st := exec initialize (initial_state empty_storage) in
  let r := Response true (Some {| sites := Some []; alwaysBlocked := None;
                                  whitelist := Some [] |}) in
  blockedSites (exec (fetchBlockedSites r) st) <> []
  /\ whitelistedUrls (exec (fetchBlockedSites r) st) = [].
Proof.
  intros st r. destruct (refresh_never_empties_block_lists r st) as (H1 & _ & H3).
  split.
  - apply H1. vm_compute. discriminate.
  - apply (H3 _ [] eq_refl eq_refl).
Defined.

(** ** The popup's messages *)

(** One manual toggle with the app not connected. *)
Lemma manualToggle_step st :
  appConnected st = false ->
  let st' := exec (onMessage ManualToggle) st in
  isBlocking st' = negb (isBlocking st)
  /\ appConnected st' = false
  /\ s_isBlocking (storage st') = Some (negb (isBlocking st))
  /\ forall l, hasListener l st' =
       if isBlocking st
       then negb (bool_decide (l = L_blockRequest)) && hasListener l st
       else bool_decide (l = L_blockRequest) || hasListener l st.
Proof.
  intros Hc st'. subst st'. unfold onMessage.
  rewrite exec_bind_gets, Hc. simpl negb. cbv iota.
  rewrite exec_bind_modify, exec_bind_gets. simpl isBlocking.
  set (b := negb (isBlocking st)). set (s0 := set_isBlocking b st).
  rewrite !exec_seq by (destruct b; total).
  change (exec (ret (ReplyToggled b)) ?s) with s.
  set (s1 := exec (if b then startBlocking else stopBlocking) s0).
  assert (Hs : preserves sync_core (storage_set (put_isBlocking b)))
    by (unfold storage_set; frame).
  assert (H1 : sync_core s1 = sync_core s0).
  { subst s1. destruct b; apply exec_preserves; auto with preserve. }
  assert (Hk : sync_core (exec updateIcon (exec (storage_set (put_isBlocking b)) s1))
               = sync_core s0).
  { rewrite !(exec_preserves sync_core) by auto with preserve. exact H1. }
  unfold sync_core in Hk. injection Hk as Hk1 Hk2 _ _ _ _.
  split; [exact Hk1|]. split; [rewrite Hk2; exact Hc|]. split.
  - rewrite (exec_preserves storage updateIcon) by apply updateIcon_storage. reflexivity.
  - intros l.
    assert (Hl : forall s, hasListener l (exec updateIcon (exec (storage_set (put_isBlocking b)) s))
                           = hasListener l s).
    { intros s. unfold hasListener.
      rewrite (exec_preserves listeners updateIcon) by auto with preserve. reflexivity. }
    rewrite Hl. subst s1 b. destruct (isBlocking st); simpl negb; cbv iota.
    + rewrite stopBlocking_disarm, disarm_has. reflexivity.
    + rewrite startBlocking_arm, arm_has. reflexivity.
Qed.

(** X17. With the app not connected, two manual toggles in a row bring
    [isBlocking] and the set of registered listeners back to what they
    were; in between, blocking is the opposite and the session
    listener follows it. *)
Theorem manual_toggle_twice (st : State) :
  appConnected st = false ->
  hasListener L_blockRequest st = isBlocking st ->
  let st1 := exec (onMessage ManualToggle) st in
  let st2 := exec (onMessage ManualToggle) st1 in
  isBlocking st1 = negb (isBlocking st)
  /\ hasListener L_blockRequest st1 = negb (isBlocking st)
  /\ isBlocking st2 = isBlocking st
  /\ forall l, hasListener l st2 = hasListener l st.
Proof.
  intros Hc Ha st1 st2.
  destruct (manualToggle_step st Hc) as (B1 & C1 & _ & L1). fold st1 in B1, C1, L1.
  destruct (manualToggle_step st1 C1) as (B2 & _ & _ & L2). fold st2 in B2, L2.
  split; [exact B1|]. split.
  { rewrite L1, Ha. rewrite bool_decide_eq_true_2 by reflexivity.
    destruct (isBlocking st); reflexivity. }
  split; [rewrite B2, B1; apply negb_involutive|].
  intros l. rewrite L2, B1, L1.
  destruct (decide (l = L_blockRequest)) as [->|Hne].
  - rewrite bool_decide_eq_true_2 by reflexivity. rewrite Ha.
    destruct (isBlocking st); reflexivity.
  - rewrite bool_decide_eq_false_2 by exact Hne. destruct (isBlocking st); simpl;
      destruct (hasListener l st); reflexivity.
Qed.

Lemma manual_toggle_twice_witness :
  let st := exec initialize (initial_state empty_storage) in
  let st1 := exec (onMessage ManualToggle) st in
  let st2 := exec (onMessage ManualToggle) st1 in
  isBlocking st1 = true /\ isBlocking st2 = false
  /\ hasListener L_blockRequest st2 = false
  /\ hasListener L_alwaysBlockRequest st2 = true.
Proof.
  intros st st1 st2.
  assert (Hc : appConnected st = false) by (vm_compute; reflexivity).
  assert (Ha : hasListener L_blockRequest st = isBlocking st) by (vm_compute; reflexivity).
  destruct (manual_toggle_twice st Hc Ha) as (B1 & _ & B2 & L2).
  fold st1 in B1. fold st1 st2 in B2, L2.
  split; [exact B1|]. split; [exact B2|].
  split; rewrite L2; vm_compute; reflexivity.
Defined.

Lemma arm_other_listener l l' b :
  l <> l' -> keeps (invariant (fun st => hasListener l' st = b)) (arm l).
Proof.
  intros Hl st H. fold (exec (arm l) st). rewrite arm_has, H.
  rewrite bool_decide_eq_false_2 by congruence. reflexivity.
Qed.

Lemma initialize_no_session_listener sto :
  hasListener L_blockRequest (exec initialize (initial_state sto)) = false.
Proof.
  assert (H : keeps (invariant (fun st => hasListener L_blockRequest st = false)) initialize).
  { assert (keeps (invariant (fun st => hasListener L_blockRequest st = false))
              startPunishmentBlocking)
      by (apply (arm_other_listener L_punishmentBlockRequest); discriminate).
    assert (keeps (invariant (fun st => hasListener L_blockRequest st = false))
              startAlwaysBlocking)
      by (apply (arm_other_listener L_alwaysBlockRequest); discriminate).
    unfold initialize, startSync, updateIcon, emit, skip. carry. }
  apply H. reflexivity.
Qed.

(** X18. A manual blocking session is written to storage and never read
    back: after a manual toggle that turned blocking on, storage says
    [isBlocking: true], and [initialize] on that storage starts with
    blocking off and no session listener. *)
Theorem manual_blocking_is_not_restored (st : State) :
  appConnected st = false ->
  isBlocking st = false ->
  let st1 := exec (onMessage ManualToggle) st in
  let st' := exec initialize (initial_state (storage st1)) in
  isBlocking st1 = true
  /\ s_isBlocking (storage st1) = Some true
  /\ isBlocking st' = false
  /\ hasListener L_blockRequest st' = false.
Proof.
  intros Hc Hb st1 st'.
  destruct (manualToggle_step st Hc) as (B1 & _ & S1 & _). fold st1 in B1, S1.
  rewrite Hb in B1, S1. split; [exact B1|]. split; [exact S1|].
  pose proof (initialize_core (storage st1)) as Hk. fold st' in Hk.
  unfold sync_core in Hk. injection Hk as Hk1 _ _ _ _ _. split; [exact Hk1|].
  apply initialize_no_session_listener.
Qed.

Lemma manual_blocking_is_not_restored_witness :
  let st := exec initialize (initial_state empty_storage) in
  let st1 := exec (onMessage ManualToggle) st in
  let st' := exec initialize (initial_state (storage st1)) in
  isBlocking st1 = true
  /\ s_isBlocking (storage st1) = Some true
  /\ isBlocking st' = false.
Proof.
  intros st st1 st'.
  assert (Hc : appConnected st = false) by (vm_compute; reflexivity).
  assert (Hb : isBlocking st = false) by (vm_compute; reflexivity).
  destruct (manual_blocking_is_not_restored st Hc Hb) as (H1 & H2 & H3 & _).
  split; [exact H1|]. split; [exact H2 | exact H3].
Defined.

(** ** The first version and the current one *)

Lemma V1_fetchBlockedSites_returns r : returns (V1.fetchBlockedSites r).
Proof. unfold V1.fetchBlockedSites, skip. total. Qed.

#[export] Hint Resolve V1_fetchBlockedSites_returns : returns.

(** The current refresh is the first version's, and the always-blocked
    list on top of it. *)
Lemma fetchBlockedSites_extends_v1 r st :
  session_fields (exec (fetchBlockedSites r) st)
    = session_fields (exec (V1.fetchBlockedSites r) st)
  /\ listeners (exec (fetchBlockedSites r) st) = listeners (exec (V1.fetchBlockedSites r) st).
Proof.
  unfold fetchBlockedSites, V1.fetchBlockedSites.
  destruct r as [|[] [[s a w]|]]; try (split; reflexivity).
  unfold exec, try_catch, bind, fetch, json, storage_set, modify, skip, ret. simpl.
  destruct s as [[|s0 s]|]; destruct a as [[|a0 a]|]; destruct w as [w|]; split; reflexivity.
Qed.

Lemma session_fields_frame {A} (m : M A) st :
  preserves session_fields m -> session_fields (exec m st) = session_fields st.
Proof. apply exec_preserves. Qed.

Lemma checkPunishmentStatus_session r : preserves session_fields (checkPunishmentStatus r).
Proof.
  unfold checkPunishmentStatus, checkCachedPunishmentStatus, startPunishmentBlocking,
    stopPunishmentBlocking, removeListener, addListener, skip, storage_set.
  frame.
Qed.

Lemma checkCachedPunishmentStatus_session : preserves session_fields checkCachedPunishmentStatus.
Proof.
  unfold checkCachedPunishmentStatus, startPunishmentBlocking,
    stopPunishmentBlocking, removeListener, addListener, skip.
  frame.
Qed.

Lemma syncAICache_session r : preserves session_fields (syncAICache r).
Proof. unfold syncAICache, skip, storage_set. frame. Qed.

(** The badge that [updateIcon] sets depends on the session fields only. *)
Lemma updateIcon_agrees a b :
  session_fields a = session_fields b -> listeners a = listeners b ->
  session_fields (exec updateIcon a) = session_fields (exec updateIcon b)
  /\ hasListener L_blockRequest (exec updateIcon a)
     = hasListener L_blockRequest (exec updateIcon b).
Proof.
  intros Hf Hl. unfold session_fields in Hf.
  injection Hf as F1 F2 F3 F4 F5 F6 F7 F8 F9 F10.
  unfold exec, updateIcon, bind, gets, emit, modify, hasListener. simpl.
  rewrite F1, F2.
  destruct (isBlocking b) eqn:Eb; [|destruct (appConnected b) eqn:Ec]; simpl;
    unfold session_fields; simpl;
    rewrite ?F1, ?F2, ?F3, ?F4, ?F5, ?F6, ?F7, ?F8, ?F9, ?F10, ?Hl, ?Eb, ?Ec;
    split; reflexivity.
Qed.

(** What the session part of an answered poll does to a state depends
    on the session fields and the listeners only. *)
Lemma session_branch_agrees status sites st :
  let body (fetchSites : M unit) :=
    modify (set_appConnected true);;
    wasBlocking ← gets isBlocking;
    modify (set_isBlocking (status_isBlocking status));;
    blocking ← gets isBlocking;
    (if blocking && negb wasBlocking then fetchSites;; startBlocking
     else if negb blocking && wasBlocking then stopBlocking
     else skip);;
    updateIcon in
  session_fields (exec (body (fetchBlockedSites sites)) st)
    = session_fields (exec (body (V1.fetchBlockedSites sites)) st)
  /\ hasListener L_blockRequest (exec (body (fetchBlockedSites sites)) st)
     = hasListener L_blockRequest (exec (body (V1.fetchBlockedSites sites)) st).
Proof.
  intros body. subst body. cbv beta.
  rewrite !exec_bind_modify, !exec_bind_gets, !exec_bind_modify, !exec_bind_gets.
  simpl isBlocking. set (s0 := set_isBlocking _ _).
  pose proof updateIcon_agrees as Hicon.
  destruct (status_isBlocking status && negb (isBlocking st)).
  - rewrite !exec_seq by total.
    destruct (fetchBlockedSites_extends_v1 sites s0) as [Hf Hl].
    apply Hicon.
    + rewrite !(session_fields_frame startBlocking) by
        (apply (arm_frame session_fields L_blockRequest); reflexivity).
      exact Hf.
    + rewrite startBlocking_arm.
      unfold exec, arm, bind, gets, modify, skip, ret, removeListener, addListener, hasListener
        in *.
      simpl. rewrite Hl.
      destruct (bool_decide _); simpl; rewrite ?Hl; repeat (destruct (bool_decide _); simpl);
        rewrite ?Hl; reflexivity.
  - split; reflexivity.
Qed.

Lemma initialize_extends_v1 sto :
  session_fields (exec initialize (initial_state sto))
    = session_fields (exec V1.initialize (initial_state sto)).
Proof.
  unfold initialize, V1.initialize.
  rewrite !exec_bind_gets, !exec_bind_modify.
  rewrite exec_seq by (unfold skip; total).
  rewrite exec_seq by (unfold skip; total).
  rewrite !exec_seq by (unfold startSync, skip; total).
  assert (Hs : forall s, session_fields (exec updateIcon (exec startAlwaysBlocking s))
                         = session_fields (exec updateIcon s)).
  { intros s. unfold exec, updateIcon, startAlwaysBlocking, bind, gets, emit, modify, skip,
      ret, removeListener, addListener, hasListener.
    simpl. repeat (destruct (bool_decide _); simpl);
      destruct (isBlocking s); try destruct (appConnected s); reflexivity. }
  rewrite Hs. unfold startSync, skip. change (exec (ret tt) ?s) with s.
  unfold exec, updateIcon, bind, gets, emit, modify.
  destruct (s_aiCheckedDomains _); destruct (s_punishmentState _) as [p|];
    try destruct (is_locked p); reflexivity.
Qed.

(** X19. The current script does to the session what the first version did.
    From the same storage and on the same answers of the server,
    [initialize] and a sync cycle of the current script and those of
    the first version leave the same [isBlocking], [appConnected],
    block list, whitelist and block counter, the same stored copies,
    the same badge updates, and the session listener registered or not
    alike: the punishment lock, the always-blocked list and the
    classifier cache were added around it. *)
Theorem current_script_extends_first_version (sto : Storage) (net : SyncNet) (st : State) :
  session_fields (exec initialize (initial_state sto))
    = session_fields (exec V1.initialize (initial_state sto))
  /\ let current := exec (syncWithApp net) st in
     let first := exec (V1.syncWithApp (net_status net) (net_sites net)) st in
     session_fields current = session_fields first
     /\ hasListener L_blockRequest current = hasListener L_blockRequest first.
Proof.
  split; [apply initialize_extends_v1|].
  intros current first. subst current first.
  destruct (net_status net) as [|[] [status|]] eqn:E.
  - (* the request is rejected *)
    rewrite syncWithApp_rejected by (rewrite E; reflexivity).
    unfold V1.syncWithApp. rewrite exec_try_catch_thrown by reflexivity.
    rewrite !exec_bind_modify, !exec_bind_gets.
    destruct (isBlocking (set_appConnected false st)).
    + rewrite exec_seq by total.
      rewrite (session_fields_frame checkCachedPunishmentStatus)
        by apply checkCachedPunishmentStatus_session.
      rewrite (exec_preserves (hasListener L_blockRequest) checkCachedPunishmentStatus)
        by auto with preserve.
      split; reflexivity.
    + rewrite exec_seq by (unfold skip; total).
      rewrite (session_fields_frame checkCachedPunishmentStatus)
        by apply checkCachedPunishmentStatus_session.
      rewrite (exec_preserves (hasListener L_blockRequest) checkCachedPunishmentStatus)
        by auto with preserve.
      split; reflexivity.
  - (* an answer with a status *)
    unfold syncWithApp, V1.syncWithApp. rewrite E.
    simpl fetch. rewrite !bind_ret_l. simpl ok. cbv iota.
    rewrite !exec_try_catch_returns by (unfold json, skip; simpl; total).
    unfold json. simpl json_body. cbv iota. rewrite !bind_ret_l.
    rewrite (exec_seq (bind (modify (set_appConnected true)) _)) by total.
    rewrite exec_seq by total.
    rewrite (session_fields_frame (syncAICache _)) by apply syncAICache_session.
    rewrite (session_fields_frame (checkPunishmentStatus _))
      by apply checkPunishmentStatus_session.
    rewrite !(exec_preserves (hasListener L_blockRequest)) by auto with preserve.
    apply (session_branch_agrees status (net_sites net) st).
  - (* an OK response whose body does not parse *)
    rewrite syncWithApp_rejected by (rewrite E; reflexivity).
    unfold V1.syncWithApp. rewrite exec_try_catch_thrown by reflexivity.
    rewrite !exec_bind_modify, !exec_bind_gets.
    destruct (isBlocking (set_appConnected false st)).
    + rewrite exec_seq by total.
      rewrite (session_fields_frame checkCachedPunishmentStatus)
        by apply checkCachedPunishmentStatus_session.
      rewrite (exec_preserves (hasListener L_blockRequest) checkCachedPunishmentStatus)
        by auto with preserve.
      split; reflexivity.
    + rewrite exec_seq by (unfold skip; total).
      rewrite (session_fields_frame checkCachedPunishmentStatus)
        by apply checkCachedPunishmentStatus_session.
      rewrite (exec_preserves (hasListener L_blockRequest) checkCachedPunishmentStatus)
        by auto with preserve.
      split; reflexivity.
  - (* a response that is not OK *)
    rewrite (syncWithApp_not_ok _ _ _ E).
    rewrite (session_fields_frame (syncAICache _)) by apply syncAICache_session.
    rewrite (session_fields_frame (checkPunishmentStatus _))
      by apply checkPunishmentStatus_session.
    rewrite !(exec_preserves (hasListener L_blockRequest)) by auto with preserve.
    split; reflexivity.
  - rewrite (syncWithApp_not_ok _ _ _ E).
    rewrite (session_fields_frame (syncAICache _)) by apply syncAICache_session.
    rewrite (session_fields_frame (checkPunishmentStatus _))
      by apply checkPunishmentStatus_session.
    rewrite !(exec_preserves (hasListener L_blockRequest)) by auto with preserve.
    split; reflexivity.
Qed.

(** ** More on classification *)

Lemma classify_ping_result ping st :
  exec (classify_ping ping) st = st \/ exec (classify_ping ping) st = set_appConnected true st.
Proof.
  unfold classify_ping, exec, bind, gets. destruct (appConnected st); simpl; [left; reflexivity|].
  destruct ping as [|[] b]; simpl; auto.
Qed.

(** X20. A call that does not reach the classifier does nothing: when the
    app is not connected after the ping, or [shouldCheckDomain] says
    no, nothing is posted, marked, stored or redirected; the state is
    as the ping left it, which is as it was or with [appConnected] set. *)
Theorem skipped_check_does_nothing (base : string) (tabId : nat) (url domain : string)
    (ping : fetch_result unit) (signals : option Signals) (r : fetch_result CheckResult)
    (st : State) :
  let st1 := exec (classify_ping ping) st in
  appConnected st1 && shouldCheckDomain st1 domain = false ->
  exec (checkPageContent base tabId url domain ping signals r) st = st1
  /\ (st1 = st \/ st1 = set_appConnected true st)
  /\ trace st1 = trace st.
Proof.
  intros st1 H. split; [|split].
  - unfold checkPageContent. rewrite exec_seq by auto with returns. fold st1.
    unfold exec, bind. rewrite classify_enter_spec, H. reflexivity.
  - apply classify_ping_result.
  - destruct (classify_ping_result ping st) as [E|E]; unfold st1; rewrite E; reflexivity.
Qed.

Lemma skipped_check_does_nothing_witness :
  let st := exec initialize (initial_state empty_storage) in
  exec (checkPageContent sample_base 7 "https://shop.example/" "shop.example" NetworkError None
          (Response true (Some {| is_nsfw := true; method := "ai" |}))) st = st.
Proof.
  intros st.
  assert (Hs : appConnected (exec (classify_ping NetworkError) st)
               && shouldCheckDomain (exec (classify_ping NetworkError) st) "shop.example"
               = false) by (vm_compute; reflexivity).
  pose proof (skipped_check_does_nothing sample_base 7 "https://shop.example/" "shop.example"
                NetworkError None (Response true (Some {| is_nsfw := true; method := "ai" |}))
                st Hs) as H.
  cbv zeta in H. destruct H as (H & _ & _). rewrite H. vm_compute. reflexivity.
Defined.

Lemma startsWith_same_prefix p s q : Js.startsWith (p +:+ s) (p +:+ q) = Js.startsWith s q.
Proof.
  induction p as [|c p IH]; [reflexivity|]. rewrite !append_cons. simpl.
  rewrite Ascii.eqb_refl. exact IH.
Qed.

Lemma listed_domain_matched sites site domain :
  In site sites ->
  Js.startsWith (Js.toLowerCase domain) (Js.toLowerCase (stripSite site)) = true
  \/ Js.startsWith (Js.toLowerCase domain) (Js.toLowerCase ("www." +:+ stripSite site)) = true ->
  pattern_test (buildPatternForSites sites) ("https://" +:+ domain) = true.
Proof.
  intros Hin H. rewrite pattern_test_begins_with_site. unfold begins_with_site.
  apply existsb_exists. exists site. split; [exact Hin|].
  apply existsb_exists. destruct H as [H|H].
  - exists "https://". split; [right; right; left; reflexivity|].
    rewrite !toLowerCase_append, startsWith_same_prefix. exact H.
  - exists "https://www.". split; [right; right; right; left; reflexivity|].
    change "https://www." with ("https://" +:+ "www.").
    rewrite append_assoc, !toLowerCase_append, startsWith_same_prefix.
    rewrite <- toLowerCase_append. exact H.
Qed.

(** X21. A domain on either block list is not sent to the classifier:
    [shouldCheckDomain] is false for every domain that begins, letter
    case aside and with or without [www.], with the stripped form of a
    listed site; with the app connected the whole call then leaves the
    state as it was. *)
Theorem listed_domain_is_not_checked (base : string) (st : State) (site domain : string)
    (tabId : nat) (url : string) (ping : fetch_result unit) (signals : option Signals)
    (r : fetch_result CheckResult) :
  In site (alwaysBlockedSites st) \/ In site (blockedSites st) ->
  Js.startsWith (Js.toLowerCase domain) (Js.toLowerCase (stripSite site)) = true
  \/ Js.startsWith (Js.toLowerCase domain) (Js.toLowerCase ("www." +:+ stripSite site)) = true ->
  shouldCheckDomain st domain = false
  /\ (appConnected st = true ->
      exec (checkPageContent base tabId url domain ping signals r) st = st).
Proof.
  intros Hin Hd.
  assert (Hs : shouldCheckDomain st domain = false).
  { unfold shouldCheckDomain.
    destruct (String.eqb domain ""); [reflexivity|].
    destruct (bool_decide (domain ∈ aiCheckedDomains st)); [reflexivity|].
    destruct (bool_decide (domain ∈ aiCheckInProgress st)); [reflexivity|].
    destruct (String.eqb domain "127.0.0.1" || String.eqb domain "localhost"); [reflexivity|].
    destruct (Js.endsWith domain ".local"); [reflexivity|].
    destruct Hin as [Hin|Hin].
    - unfold buildAlwaysBlockPattern at 1.
      rewrite (listed_domain_matched _ site domain Hin Hd). reflexivity.
    - destruct (pattern_test (buildAlwaysBlockPattern st) ("https://" +:+ domain));
        [reflexivity|].
      unfold buildBlockPattern. rewrite (listed_domain_matched _ site domain Hin Hd).
      reflexivity. }
  split; [exact Hs|]. intros Hc.
  assert (Hp : exec (classify_ping ping) st = st).
  { unfold classify_ping, exec, bind, gets. rewrite Hc. reflexivity. }
  unfold checkPageContent. rewrite exec_seq by auto with returns. rewrite Hp.
  unfold exec, bind. rewrite classify_enter_spec, Hc, Hs. reflexivity.
Qed.

Lemma listed_domain_is_not_checked_witness :
  let st := set_appConnected true (set_blockedSites ["https://www.News.example"]
                                     (initial_state empty_storage)) in
  shouldCheckDomain st "news.example" = false
  /\ exec (checkPageContent sample_base 3 "https://news.example/today" "news.example"
             NetworkError None NetworkError) st = st.
Proof.
  intros st.
  assert (Hin : In "https://www.News.example" (alwaysBlockedSites st)
                \/ In "https://www.News.example" (blockedSites st))
    by (right; left; reflexivity).
  assert (Hd : Js.startsWith (Js.toLowerCase "news.example")
                 (Js.toLowerCase (stripSite "https://www.News.example")) = true
               \/ Js.startsWith (Js.toLowerCase "news.example")
                    (Js.toLowerCase ("www." +:+ stripSite "https://www.News.example")) = true)
    by (left; vm_compute; reflexivity).
  destruct (listed_domain_is_not_checked sample_base st "https://www.News.example"
              "news.example" 3 "https://news.example/today" NetworkError None NetworkError
              Hin Hd) as [H1 H2].
  split; [exact H1 | apply H2; reflexivity].
Defined.

Lemma shouldCheckDomain_same st st' domain :
  aiCheckedDomains st' = aiCheckedDomains st ->
  domain ∈ aiCheckInProgress st' <-> domain ∈ aiCheckInProgress st ->
  alwaysBlockedSites st' = alwaysBlockedSites st ->
  blockedSites st' = blockedSites st ->
  shouldCheckDomain st' domain = shouldCheckDomain st domain.
Proof.
  intros H1 H2 H3 H4. unfold shouldCheckDomain, buildAlwaysBlockPattern, buildBlockPattern.
  rewrite H1, H3, H4.
  rewrite (bool_decide_ext _ _ H2). reflexivity.
Qed.

(** X22. A check that gets no verdict is tried again. After a call whose
    answer is not kept (the request fails, the response is not OK or
    does not parse, or the method is [disabled] or [no_api_key]) and
    does not flag the page, the domain is as eligible as before: the
    next page load of the domain is sent to the classifier again. *)
Theorem check_without_verdict_is_retried (base : string) (tabId : nat) (url domain : string)
    (ping : fetch_result unit) (signals : option Signals) (r : fetch_result CheckResult)
    (st : State) :
  appConnected st = true ->
  shouldCheckDomain st domain = true ->
  answer_is_kept r = false ->
  answer_is_nsfw r = false ->
  let st' := exec (checkPageContent base tabId url domain ping signals r) st in
  shouldCheckDomain st' domain = true
  /\ appConnected st' = true
  /\ trace st' = trace st ++ [PostCheckContent (make_payload url domain signals)].
Proof.
  intros Hc Hs Hk Hn st'.
  assert (Hp : exec (classify_ping ping) st = st).
  { unfold classify_ping, exec, bind, gets. rewrite Hc. reflexivity. }
  assert (Hnot : domain ∉ aiCheckInProgress st).
  { intros Hin. rewrite shouldCheckDomain_false_if_marked in Hs by auto. discriminate. }
  assert (Hst : aiCheckedDomains st' = aiCheckedDomains st
                /\ aiCheckInProgress st' = ({[domain]} ∪ aiCheckInProgress st) ∖ {[domain]}
                /\ alwaysBlockedSites st' = alwaysBlockedSites st
                /\ blockedSites st' = blockedSites st
                /\ appConnected st' = appConnected st
                /\ trace st' = trace st ++ [PostCheckContent (make_payload url domain signals)]).
  { assert (Hex : st' = exec (classify_run base tabId url domain signals r)
                           (set_aiCheckInProgress ({[domain]} ∪ aiCheckInProgress st) st)).
    { subst st'. unfold checkPageContent. rewrite exec_seq by auto with returns. rewrite Hp.
      unfold exec, bind. rewrite classify_enter_spec, Hc, Hs. reflexivity. }
    rewrite Hex.
    unfold exec, classify_run, classify_answer, classify_finally, try_finally, try_catch,
      classify_try, reportAdultStrike, bind, emit, fetch, json, modify, gets, storage_set,
      skip, ret.
    destruct r as [|[] [result|]]; simpl in *; try (repeat split; reflexivity).
    rewrite Hk, Hn. simpl. repeat split; reflexivity. }
  destruct Hst as (H1 & H2 & H3 & H4 & H5 & H6).
  split; [|split; [congruence | exact H6]].
  rewrite <- Hs. apply shouldCheckDomain_same; try assumption.
  rewrite H2. set_solver.
Qed.

Lemma check_without_verdict_is_retried_witness :
  let st := set_appConnected true (exec initialize (initial_state empty_storage)) in
  let st' := exec (checkPageContent sample_base 3 "https://shop.example/" "shop.example"
                     NetworkError None
                     (Response true (Some {| is_nsfw := false; method := "no_api_key" |}))) st in
  shouldCheckDomain st "shop.example" = true
  /\ shouldCheckDomain st' "shop.example" = true.
Proof.
  intros st st'.
  assert (Hs : shouldCheckDomain st "shop.example" = true) by (vm_compute; reflexivity).
  split; [exact Hs|].
  exact (proj1 (check_without_verdict_is_retried sample_base 3 "https://shop.example/"
                  "shop.example" NetworkError None
                  (Response true (Some {| is_nsfw := false; method := "no_api_key" |}))
                  st eq_refl Hs eq_refl eq_refl)).
Defined.

(** ** More on the usage queue *)

(** What a pass over [queue] leaves: the reports it queues again are a
    part of [queue], in the order of [queue]; the requests it sends are
    those of the first [k] reports, in order, once each. *)
Lemma flush_loop_kept answers queue : forall i st,
  exists kept k,
    sublist kept queue
    /\ usageReportQueue (exec (flush_loop answers i queue) st) = usageReportQueue st ++ kept
    /\ trace (exec (flush_loop answers i queue) st)
       = trace st ++ map PostUsage (firstn k queue).
Proof.
  induction queue as [|r rest IH]; intros i st.
  - exists [], 0. simpl. rewrite !app_nil_r. repeat split. constructor.
  - destruct (answers i) as [|[] b] eqn:E.
    + exists [r], 1. unfold exec. rewrite (flush_loop_rejected _ _ _ _ _ E). simpl.
      repeat split. apply sublist_skip, sublist_nil_l.
    + unfold exec. rewrite (flush_loop_ok _ _ _ _ _ _ E).
      destruct (IH (S i) (set_trace (trace st ++ [PostUsage r]) st)) as (kept & k & Hs & Hq & Ht).
      exists kept, (S k). unfold exec in Hq, Ht. rewrite Hq, Ht. simpl.
      rewrite <- app_assoc. repeat split. apply sublist_cons, Hs.
    + unfold exec. rewrite (flush_loop_not_ok _ _ _ _ _ _ E).
      destruct (IH (S i) (set_usageReportQueue (usageReportQueue st ++ [r])
                            (set_trace (trace st ++ [PostUsage r]) st)))
        as (kept & k & Hs & Hq & Ht).
      exists (r :: kept), (S k). unfold exec in Hq, Ht. rewrite Hq, Ht. simpl.
      rewrite <- !app_assoc. repeat split. apply sublist_skip, Hs.
Qed.

(** X25. A drain pass invents nothing and repeats nothing: whatever the
    server answers, the queue after the pass is a part of the queue
    before it, in the same order, and the requests sent are those of
    the first reports of the queue, in order, one request each. *)
Theorem drain_pass_only_removes (answers : nat -> fetch_result unit) (st : State) :
  let st' := exec (flushUsageQueue answers) st in
  sublist (usageReportQueue st') (usageReportQueue st)
  /\ exists k, trace st' = trace st ++ map PostUsage (firstn k (usageReportQueue st)).
Proof.
  intros st'. subst st'. unfold flushUsageQueue. rewrite exec_bind_gets.
  destruct (usageReportQueue st) as [|r rest] eqn:E.
  - change (exec skip st) with st. rewrite E. split; [constructor|].
    exists 0. simpl. rewrite app_nil_r. reflexivity.
  - rewrite exec_bind_modify.
    destruct (flush_loop_kept answers (r :: rest) 0 (set_usageReportQueue [] st))
      as (kept & k & Hs & Hq & Ht).
    rewrite Hq, Ht. simpl usageReportQueue. simpl trace. split; [exact Hs|].
    exists k. reflexivity.
Qed.

Lemma flush_loop_all_ok answers queue :
  (forall i, exists b, answers i = Response true b) ->
  forall i st,
    usageReportQueue (exec (flush_loop answers i queue) st) = usageReportQueue st
    /\ trace (exec (flush_loop answers i queue) st) = trace st ++ map PostUsage queue.
Proof.
  intros Hall. induction queue as [|r rest IH]; intros i st.
  - simpl. rewrite app_nil_r. auto.
  - destruct (Hall i) as [b Hb]. unfold exec. rewrite (flush_loop_ok _ _ _ _ _ _ Hb).
    destruct (IH (S i) (set_trace (trace st ++ [PostUsage r]) st)) as [Hq Ht].
    unfold exec in Hq, Ht. rewrite Hq, Ht. simpl. rewrite <- app_assoc. auto.
Qed.

(** X26. A report that is delivered drains the queue behind it: with the
    server answering OK throughout, the report is posted, then the
    queued reports, oldest first, and the queue is empty. *)
Theorem delivered_report_drains_queue (domain : string) (seconds : Z) (body : option unit)
    (answers : nat -> fetch_result unit) (st : State) :
  domain <> "" -> (0 < seconds)%Z ->
  (forall i, exists b, answers i = Response true b) ->
  let st' := exec (reportWebsiteUsage domain seconds (Response true body) answers) st in
  usageReportQueue st' = []
  /\ trace st' =
       trace st ++ PostUsage {| r_domain := domain; r_seconds := seconds |}
                   :: map PostUsage (usageReportQueue st).
Proof.
  intros Hd Hs Hall st'. subst st'. unfold reportWebsiteUsage.
  apply String.eqb_neq in Hd. rewrite Hd.
  replace (seconds <=? 0)%Z with false by (symmetry; apply Z.leb_gt; exact Hs).
  simpl orb. cbv iota.
  rewrite exec_try_catch_returns by (simpl; total; apply flushUsageQueue_returns).
  rewrite exec_seq by total. simpl fetch. rewrite bind_ret_l. simpl ok. cbv iota.
  set (s0 := exec (emit _) st).
  unfold flushUsageQueue. rewrite exec_bind_gets.
  change (usageReportQueue s0) with (usageReportQueue st).
  destruct (usageReportQueue st) as [|r rest] eqn:E.
  - change (exec skip s0) with s0. split; [exact E|]. reflexivity.
  - rewrite exec_bind_modify.
    destruct (flush_loop_all_ok answers (r :: rest) Hall 0 (set_usageReportQueue [] s0))
      as [Hq Ht].
    rewrite Hq, Ht. split; [reflexivity|]. simpl. rewrite <- app_assoc. reflexivity.
Qed.

Lemma delivered_report_drains_queue_witness :
  let r1 := {| r_domain := "a.example"; r_seconds := 12 |} in
  let r2 := {| r_domain := "b.example"; r_seconds := 30 |} in
  let st := set_usageReportQueue [r1; r2] (initial_state empty_storage) in
  let st' := exec (reportWebsiteUsage "c.example" 5 (Response true None)
                     (fun _ => Response true None)) st in
  usageReportQueue st' = []
  /\ trace st' = [PostUsage {| r_domain := "c.example"; r_seconds := 5 |};
                  PostUsage r1; PostUsage r2].
Proof.
  intros r1 r2 st st'.
  apply (delivered_report_drains_queue "c.example" 5 None (fun _ => Response true None) st).
  - discriminate.
  - reflexivity.
  - intros i. exists None. reflexivity.
Defined.

(** ** The usage tracker *)

Lemma extractDomain_instance : extractDomain = extractDomain_of Url.hostname.
Proof. reflexivity. Qed.

Section TrackerProperties.

Variable url_hostname : string -> option string.

Lemma report_current_valid now tr d s :
  In (d, s) (report_current now tr) -> d <> "" /\ (0 < s)%Z.
Proof.
  unfold report_current, tracked.
  destruct (currentDomain tr) as [d0|]; [|intros []].
  destruct (trackingStartTime tr) as [t|]; [|intros []].
  destruct (String.eqb_spec d0 ""); simpl; [intros []|].
  destruct (t =? 0)%Z; [intros []|].
  destruct (0 <? elapsed_seconds now t)%Z eqn:E; [|intros []].
  intros [H|[]]. injection H as <- <-. split; [assumption|]. apply Z.ltb_lt, E.
Qed.

Lemma tracked_domain tr d t : tracked tr = Some (d, t) -> d <> "" /\ currentDomain tr = Some d.
Proof.
  unfold tracked. destruct (currentDomain tr) as [d0|]; [|discriminate].
  destruct (trackingStartTime tr) as [t0|]; [|discriminate].
  destruct (String.eqb_spec d0 ""); simpl; [discriminate|].
  destruct (t0 =? 0)%Z; [discriminate|]. intros H. injection H as <- <-. auto.
Qed.

Lemma tracker_step_valid e tr d s :
  In (d, s) (snd (tracker_step url_hostname e tr)) -> d <> "" /\ (0 < s)%Z.
Proof.
  destruct e as [tabs a b | a b | a b]; simpl.
  - unfold trackActiveTab. destruct tabs as [|urls]; [intros []|].
    destruct (first_tab_url urls) as [url|]; [|apply report_current_valid].
    destruct (is_internal_page url); [intros []|].
    destruct (extractDomain_of url_hostname url) as [domain|]; [|intros []].
    destruct (String.eqb domain ""); [intros []|].
    destruct (bool_decide _); [intros []|]. apply report_current_valid.
  - unfold periodicUsageReport. destruct (tracked tr) as [[d0 t]|] eqn:E; [|intros []].
    destruct (10 <=? elapsed_seconds a t)%Z eqn:E10; [|intros []].
    intros [H|[]]. injection H as <- <-. apply tracked_domain in E as [Hd _].
    split; [exact Hd|]. apply Z.leb_le in E10. lia.
  - unfold focusLost. destruct (tracked tr); [|intros []]. apply report_current_valid.
Qed.

Lemma tracker_run_valid events : forall tr d s,
  In (d, s) (snd (tracker_run url_hostname events tr)) -> d <> "" /\ (0 < s)%Z.
Proof.
  induction events as [|e rest IH]; intros tr d s; simpl; [intros []|].
  destruct (tracker_step url_hostname e tr) as [tr1 calls1] eqn:E1.
  destruct (tracker_run url_hostname rest tr1) as [tr2 calls2] eqn:E2. simpl.
  intros H. apply in_app_or in H as [H|H].
  - apply (tracker_step_valid e tr). rewrite E1. exact H.
  - apply (IH tr1). rewrite E2. exact H.
Qed.

End TrackerProperties.

Global Instance trace_extends_preorder : PreOrder trace_extends.
Proof.
  split.
  - intros st. exists []. rewrite app_nil_r. reflexivity.
  - intros a b c [m1 H1] [m2 H2]. exists (m1 ++ m2). rewrite H2, H1, app_assoc. reflexivity.
Qed.

Lemma emit_extends e : keeps trace_extends (emit e).
Proof. intros st. exists [e]. reflexivity. Qed.

Lemma push_report_extends r : keeps trace_extends (push_report r).
Proof. intros st. exists []. rewrite app_nil_r. reflexivity. Qed.

Lemma flush_loop_extends answers queue :
  forall i, keeps trace_extends (flush_loop answers i queue).
Proof.
  induction queue as [|r rest IH]; intros i; simpl.
  - apply keeps_ret. typeclasses eauto.
  - apply keeps_bind; [typeclasses eauto | |intros broke].
    + apply keeps_try_catch; [typeclasses eauto | |].
      * apply keeps_bind; [typeclasses eauto | apply emit_extends | intros _].
        apply keeps_bind; [typeclasses eauto | apply keeps_fetch; typeclasses eauto | intros resp].
        apply keeps_bind; [typeclasses eauto | | intros _; apply keeps_ret; typeclasses eauto].
        destruct (negb (ok resp)); [apply push_report_extends | apply keeps_ret; typeclasses eauto].
      * apply keeps_bind; [typeclasses eauto | apply push_report_extends | intros _].
        apply keeps_ret; typeclasses eauto.
    + destruct broke; [apply keeps_ret; typeclasses eauto | apply IH].
Qed.

Lemma flushUsageQueue_extends answers : keeps trace_extends (flushUsageQueue answers).
Proof.
  unfold flushUsageQueue.
  apply keeps_bind; [typeclasses eauto | apply keeps_gets; typeclasses eauto | intros queue].
  destruct queue as [|r rest]; [apply keeps_ret; typeclasses eauto|].
  apply keeps_bind; [typeclasses eauto | | intros _; apply flush_loop_extends].
  apply keeps_modify. intros st. exists []. rewrite app_nil_r. reflexivity.
Qed.

(** A report with a domain and a positive number of seconds is sent:
    its POST is the first thing the call does. *)
Lemma reportWebsiteUsage_posts domain seconds r answers st :
  domain <> "" -> (0 < seconds)%Z ->
  exists more,
    trace (exec (reportWebsiteUsage domain seconds r answers) st) =
      trace st ++ PostUsage {| r_domain := domain; r_seconds := seconds |} :: more.
Proof.
  intros Hd Hs. unfold reportWebsiteUsage.
  apply String.eqb_neq in Hd. rewrite Hd.
  replace (seconds <=? 0)%Z with false by (symmetry; apply Z.leb_gt; exact Hs).
  simpl orb. cbv iota.
  set (report := {| r_domain := domain; r_seconds := seconds |}).
  destruct r as [|[] b].
  - exists []. reflexivity.
  - destruct (flushUsageQueue_extends answers (set_trace (trace st ++ [PostUsage report]) st))
      as [more Hm].
    exists more. unfold exec, try_catch, bind, emit, modify, fetch, ret. simpl.
    destruct (flushUsageQueue answers (set_trace (trace st ++ [PostUsage report]) st))
      as [[[]|] st1] eqn:E; simpl in *.
    + rewrite Hm. simpl. rewrite <- app_assoc. reflexivity.
    + exfalso. destruct (flushUsageQueue_returns answers
                 (set_trace (trace st ++ [PostUsage report]) st)) as [a Ha].
      rewrite E in Ha. discriminate.
  - exists []. reflexivity.
Qed.

(** X27. Every call the tracker makes carries a domain and at least one
    second, so [reportWebsiteUsage] does not drop it at its guard: the
    report is posted. *)
Theorem tracker_calls_are_posted (url_hostname : string -> option string)
    (events : list TrackerEvent) (tr : Tracker) (d : string) (s : Z)
    (r : fetch_result unit) (answers : nat -> fetch_result unit) (st : State) :
  In (d, s) (snd (tracker_run url_hostname events tr)) ->
  d <> "" /\ (0 < s)%Z
  /\ exists more,
       trace (exec (reportWebsiteUsage d s r answers) st) =
         trace st ++ PostUsage {| r_domain := d; r_seconds := s |} :: more.
Proof.
  intros H. destruct (tracker_run_valid url_hostname events tr d s H) as [Hd Hs].
  split; [exact Hd|]. split; [exact Hs|].
  apply reportWebsiteUsage_posts; assumption.
Qed.

Lemma tracker_calls_are_posted_witness :
  let events := [E_trackActiveTab (QueryTabs [Some "https://www.a.example/x"]) 1000 1000;
                 E_trackActiveTab (QueryTabs [Some "https://b.example/"]) 6500 6501] in
  snd (tracker_run Url.hostname events not_tracking) = [("a.example", 5%Z)]
  /\ exists more,
       trace (exec (reportWebsiteUsage "a.example" 5 NetworkError (fun _ => NetworkError))
                (initial_state empty_storage)) =
         PostUsage {| r_domain := "a.example"; r_seconds := 5 |} :: more.
Proof.
  intros events.
  assert (Hc : snd (tracker_run Url.hostname events not_tracking) = [("a.example", 5%Z)])
    by (vm_compute; reflexivity).
  split; [exact Hc|].
  refine (proj2 (proj2 (tracker_calls_are_posted Url.hostname events not_tracking
                          "a.example" 5 NetworkError (fun _ => NetworkError)
                          (initial_state empty_storage) _))).
  rewrite Hc. left. reflexivity.
Defined.

(** *** No second is reported twice *)

Lemma report_current_bound a tr :
  started_by tr a ->
  (1000 * total_seconds (report_current a tr) <= unreported tr a)%Z.
Proof.
  intros Hs. unfold report_current, unreported.
  destruct (tracked tr) as [[d t]|] eqn:E; [|simpl; lia].
  specialize (Hs d t E).
  destruct (0 <? elapsed_seconds a t)%Z; simpl; [|lia].
  unfold elapsed_seconds. pose proof (Z.mul_div_le (a - t) 1000 ltac:(lia)). lia.
Qed.

Lemma tracked_restart d b :
  forall d' t, tracked {| currentDomain := d; trackingStartTime := Some b |} = Some (d', t) ->
               t = b.
Proof.
  intros d' t. unfold tracked. simpl. destruct d as [d0|]; [|discriminate].
  destruct (String.eqb d0 "" || (b =? 0)%Z); [discriminate|]. intros H. injection H as _ <-.
  reflexivity.
Qed.

Lemma unreported_restart d b :
  unreported {| currentDomain := d; trackingStartTime := Some b |} b = 0%Z.
Proof.
  unfold unreported.
  destruct (tracked {| currentDomain := d; trackingStartTime := Some b |}) as [[d' t]|] eqn:E;
    [|reflexivity].
  apply tracked_restart in E. lia.
Qed.

Lemma unreported_later tr a b :
  started_by tr a -> (a <= b)%Z -> (unreported tr b <= (b - a) + unreported tr a)%Z.
Proof.
  intros Hs Hab. unfold unreported. destruct (tracked tr) as [[d t]|]; lia.
Qed.

Lemma started_by_later tr a b : started_by tr a -> (a <= b)%Z -> started_by tr b.
Proof. intros Hs Hab d t H. specialize (Hs d t H). lia. Qed.

Section TrackerClock.

Variable url_hostname : string -> option string.

(** One step: what it reports and what is left unreported at its last
    reading fit in the time that passed and what was unreported. *)
Lemma tracker_step_bound e tr T :
  started_by tr T ->
  (T <= report_reading e)%Z -> (report_reading e <= start_reading e)%Z ->
  let tr' := fst (tracker_step url_hostname e tr) in
  let calls := snd (tracker_step url_hostname e tr) in
  started_by tr' (start_reading e)
  /\ (1000 * total_seconds calls + unreported tr' (start_reading e)
      <= (start_reading e - T) + unreported tr T)%Z.
Proof.
  intros Hs Ha Hb.
  assert (Hsa : started_by tr (report_reading e)) by (eapply started_by_later; eassumption).
  assert (Hsb : started_by tr (start_reading e)) by (eapply started_by_later; eassumption).
  pose proof (report_current_bound (report_reading e) tr Hsa) as Hrep.
  pose proof (unreported_later tr T (report_reading e) Hs Ha) as H1.
  pose proof (unreported_later tr T (start_reading e) Hs ltac:(lia)) as H2.
  assert (Hkeep : started_by tr (start_reading e)
                  /\ (1000 * total_seconds [] + unreported tr (start_reading e)
                      <= (start_reading e - T) + unreported tr T)%Z).
  { split; [exact Hsb|]. simpl. lia. }
  assert (Hrestart : forall d,
    started_by {| currentDomain := d; trackingStartTime := Some (start_reading e) |}
               (start_reading e)
    /\ (1000 * total_seconds (report_current (report_reading e) tr)
        + unreported {| currentDomain := d; trackingStartTime := Some (start_reading e) |}
            (start_reading e)
        <= (start_reading e - T) + unreported tr T)%Z).
  { intros d. split.
    - intros d' t H. apply tracked_restart in H. lia.
    - rewrite unreported_restart. lia. }
  assert (Hstop : started_by not_tracking (start_reading e)
    /\ (1000 * total_seconds (report_current (report_reading e) tr)
        + unreported not_tracking (start_reading e)
        <= (start_reading e - T) + unreported tr T)%Z).
  { split; [intros d t H; discriminate H|]. unfold unreported at 1. simpl. lia. }
  destruct e as [tabs a b | a b | a b]; simpl in *.
  - unfold trackActiveTab. destruct tabs as [|urls]; [exact Hkeep|].
    destruct (first_tab_url urls) as [url|]; [|exact Hstop].
    destruct (is_internal_page url); [exact Hkeep|].
    destruct (extractDomain_of url_hostname url) as [domain|]; [|exact Hkeep].
    destruct (String.eqb domain ""); [exact Hkeep|].
    destruct (bool_decide _); [exact Hkeep|]. apply Hrestart.
  - unfold periodicUsageReport.
    destruct (tracked tr) as [[d t]|] eqn:E; [|exact Hkeep].
    destruct (10 <=? elapsed_seconds a t)%Z eqn:E10; [|exact Hkeep].
    destruct (Hrestart (currentDomain tr)) as [Hr1 Hr2]. split; [exact Hr1|].
    simpl fst. simpl snd.
    assert (Hrc : report_current a tr = [(d, elapsed_seconds a t)]).
    { unfold report_current. rewrite E.
      replace (0 <? elapsed_seconds a t)%Z with true; [reflexivity|].
      symmetry. apply Z.ltb_lt. apply Z.leb_le in E10. lia. }
    rewrite <- Hrc. exact Hr2.
  - unfold focusLost. destruct (tracked tr) as [p|] eqn:E; [|exact Hkeep].
    apply Hrestart.
Qed.

Lemma total_seconds_app l1 l2 :
  total_seconds (l1 ++ l2) = (total_seconds l1 + total_seconds l2)%Z.
Proof. induction l1 as [|c l1 IH]; simpl; [reflexivity|]. rewrite IH. lia. Qed.

Lemma tracker_run_bound events : forall tr T,
  started_by tr T ->
  clock_monotone T events = true ->
  let tr' := fst (tracker_run url_hostname events tr) in
  let calls := snd (tracker_run url_hostname events tr) in
  started_by tr' (last_reading T events)
  /\ (1000 * total_seconds calls + unreported tr' (last_reading T events)
      <= (last_reading T events - T) + unreported tr T)%Z.
Proof.
  induction events as [|e rest IH]; intros tr T Hs Hm; simpl.
  - split; [exact Hs|]. lia.
  - simpl in Hm. apply andb_true_iff in Hm as [Hm Hrest].
    apply andb_true_iff in Hm as [Ha Hb]. apply Z.leb_le in Ha, Hb.
    destruct (tracker_step_bound e tr T Hs Ha Hb) as [Hs1 Hb1].
    destruct (tracker_step url_hostname e tr) as [tr1 calls1] eqn:E1. simpl in Hs1, Hb1.
    destruct (IH tr1 (start_reading e) Hs1 Hrest) as [Hs2 Hb2].
    destruct (tracker_run url_hostname rest tr1) as [tr2 calls2] eqn:E2. simpl in Hs2, Hb2.
    simpl. split; [exact Hs2|]. rewrite total_seconds_app. lia.
Qed.

End TrackerClock.

Lemma unreported_nonneg tr now : started_by tr now -> (0 <= unreported tr now)%Z.
Proof.
  intros Hs. unfold unreported. destruct (tracked tr) as [[d t]|] eqn:E; [|lia].
  specialize (Hs d t E). lia.
Qed.

(** X28. The tracker never reports more time than has passed: from a tracker
    that is not tracking at time [t0], whatever tab switches, periodic
    reports and focus losses follow with a clock that does not go back,
    the seconds of all the calls together fit in the time from [t0] to
    the last reading. *)
Theorem tracker_never_over_reports (url_hostname : string -> option string)
    (events : list TrackerEvent) (t0 : Z) :
  clock_monotone t0 events = true ->
  (1000 * total_seconds (snd (tracker_run url_hostname events not_tracking))
   <= last_reading t0 events - t0)%Z.
Proof.
  intros Hm.
  assert (Hs : started_by not_tracking t0) by (intros d t H; discriminate H).
  destruct (tracker_run_bound url_hostname events not_tracking t0 Hs Hm) as [Hs' Hb].
  pose proof (unreported_nonneg _ _ Hs') as Hn.
  unfold unreported at 2 in Hb. simpl in Hb. lia.
Qed.

Lemma tracker_never_over_reports_witness :
  let events := [E_trackActiveTab (QueryTabs [Some "https://www.a.example/x"]) 1000 1000;
                 E_periodicUsageReport 12999 13000;
                 E_focusLost 13900 13900;
                 E_trackActiveTab (QueryTabs [Some "https://b.example/"]) 16000 16001;
                 E_trackActiveTab (QueryTabs []) 20500 20500] in
  snd (tracker_run Url.hostname events not_tracking)
    = [("a.example", 11%Z); ("a.example", 2%Z); ("b.example", 4%Z)]
  /\ (1000 * total_seconds (snd (tracker_run Url.hostname events not_tracking))
      <= 20500 - 1000)%Z.
Proof.
  intros events. split; [vm_compute; reflexivity|].
  apply (tracker_never_over_reports Url.hostname events 1000). vm_compute. reflexivity.
Defined.

(** X29. Losing the focus does not stop the clock. With a domain tracked, a
    focus loss reports the whole seconds so far and restarts the count
    at once; when the focus comes back to a page of the same domain
    nothing changes, so the next periodic report counts from the moment
    the focus was lost, the time away included. *)
Theorem time_away_is_counted (url_hostname : string -> option string) (tr : Tracker)
    (d : string) (t0 lost_report lost_start back_report back_start : Z)
    (urls : list (option string)) (url : string) (tick_report tick_start : Z) :
  tracked tr = Some (d, t0) ->
  lost_start <> 0%Z ->
  first_tab_url urls = Some url ->
  is_internal_page url = false ->
  extractDomain_of url_hostname url = Some d ->
  (10 <= elapsed_seconds tick_report lost_start)%Z ->
  tracker_run url_hostname
    [E_focusLost lost_report lost_start;
     E_trackActiveTab (QueryTabs urls) back_report back_start;
     E_periodicUsageReport tick_report tick_start] tr
  = ({| currentDomain := Some d; trackingStartTime := Some tick_start |},
     report_current lost_report tr ++ [(d, elapsed_seconds tick_report lost_start)]).
Proof.
  intros Ht Hn Hu Hi He H10.
  destruct (tracked_domain tr d t0 Ht) as [Hd Hc].
  simpl. unfold focusLost. rewrite Ht, Hc.
  unfold trackActiveTab. rewrite Hu, Hi, He.
  apply String.eqb_neq in Hd. rewrite Hd. simpl currentDomain.
  rewrite bool_decide_eq_true_2 by reflexivity.
  unfold periodicUsageReport, tracked. simpl. rewrite Hd.
  apply Z.eqb_neq in Hn. rewrite Hn. simpl.
  apply Z.leb_le in H10. rewrite H10. simpl. reflexivity.
Qed.

Lemma time_away_is_counted_witness :
  tracker_run Url.hostname
    [E_focusLost 61000 61000;
     E_trackActiveTab (QueryTabs [Some "https://www.a.example/page"]) 3661000 3661000;
     E_periodicUsageReport 3662000 3662000]
    {| currentDomain := Some "a.example"; trackingStartTime := Some 60000%Z |}
  = ({| currentDomain := Some "a.example"; trackingStartTime := Some 3662000%Z |},
     [("a.example", 1%Z); ("a.example", 3601%Z)]).
Proof.
  apply (time_away_is_counted Url.hostname
           {| currentDomain := Some "a.example"; trackingStartTime := Some 60000%Z |}
           "a.example" 60000 61000 61000 3661000 3661000
           [Some "https://www.a.example/page"] "https://www.a.example/page" 3662000 3662000);
    try (vm_compute; reflexivity).
  - discriminate.
  - vm_compute. discriminate.
Defined.

(** ** Page loads *)

Lemma extractDomain_of_host url_hostname url host :
  url_hostname url = Some host ->
  extractDomain_of url_hostname url = Some (Js.toLowerCase (strip_prefix "www." host)).
Proof. intros H. unfold extractDomain_of. rewrite H, remove_www. reflexivity. Qed.

Lemma strip_www_empty h : strip_prefix "www." h = "" -> h = "" \/ h = "www.".
Proof.
  unfold strip_prefix.
  destruct (Js.startsWith h "www.") eqn:E; [|intros ->; left; reflexivity].
  intros Hd. right.
  destruct h as [|c1 [|c2 [|c3 [|c4 h]]]]; simpl in E;
    repeat (apply andb_true_iff in E as [?%Ascii.eqb_eq E]); try discriminate E.
  simpl in Hd. subst. reflexivity.
Qed.

(** X24. A page that gives no domain is passed over. [extractDomain]
    gives [null] or the empty string exactly when [new URL] throws or
    the host name is empty or is [www.]; [trackActiveTab] then returns
    with the tracker as it was and the [onUpdated] listener does not
    call [checkPageContent]. So with a domain tracked, the next
    periodic report counts the time on that page for that domain. *)
Theorem page_without_domain_is_passed_over (url_hostname : string -> option string)
    (url : string) (urls : list (option string)) (tab : Tab) (tr : Tracker) :
  let no_domain :=
    extractDomain_of url_hostname url = None \/ extractDomain_of url_hostname url = Some "" in
  (no_domain <->
     url_hostname url = None \/ url_hostname url = Some "" \/ url_hostname url = Some "www.")
  /\ (no_domain ->
      (first_tab_url urls = Some url ->
       forall t1 t2, trackActiveTab url_hostname (QueryTabs urls) t1 t2 tr = (tr, []))
      /\ (truthy (tab_url tab) = Some url ->
          forall tabId changeInfo, snd (onUpdated url_hostname tabId changeInfo tab) = None)
      /\ (first_tab_url urls = Some url ->
          forall d t0 t1 t2 r1 r2,
            tracked tr = Some (d, t0) ->
            (10 <= elapsed_seconds r1 t0)%Z ->
            tracker_run url_hostname
              [E_trackActiveTab (QueryTabs urls) t1 t2; E_periodicUsageReport r1 r2] tr
            = ({| currentDomain := Some d; trackingStartTime := Some r2 |},
               [(d, elapsed_seconds r1 t0)]))).
Proof.
  intros no_domain.
  assert (Hlow : forall s, Js.toLowerCase s = "" -> s = "").
  { intros [|c s]; [reflexivity | discriminate]. }
  pose proof strip_www_empty as Hstrip.
  assert (Hskip : no_domain ->
            first_tab_url urls = Some url ->
            forall t1 t2, trackActiveTab url_hostname (QueryTabs urls) t1 t2 tr = (tr, [])).
  { intros Hn Hu t1 t2. unfold trackActiveTab. rewrite Hu.
    destruct (is_internal_page url); [reflexivity|].
    destruct Hn as [-> | ->]; reflexivity. }
  split; [|intros Hn; split; [|split]].
  - unfold no_domain, extractDomain_of.
    destruct (url_hostname url) as [host|]; [rewrite remove_www | tauto].
    split.
    + intros [H|H]; [discriminate|]. injection H as H.
      apply Hlow, Hstrip in H as [-> | ->]; auto.
    + intros [H | [H | H]]; [discriminate | |]; injection H as ->; right; reflexivity.
  - exact (Hskip Hn).
  - intros Hu tabId changeInfo. unfold onUpdated. rewrite Hu. simpl.
    destruct (status_complete changeInfo); [|reflexivity].
    destruct (is_internal_page url); [reflexivity|].
    destruct Hn as [-> | ->]; reflexivity.
  - intros Hu d t0 t1 t2 r1 r2 Ht Hr.
    unfold tracker_run, tracker_step. rewrite (Hskip Hn Hu t1 t2).
    unfold periodicUsageReport. rewrite Ht.
    destruct (tracked_domain tr d t0 Ht) as [_ ->].
    destruct (Z.leb_spec 10 (elapsed_seconds r1 t0)); [reflexivity | lia].
Qed.

Lemma page_without_domain_is_passed_over_witness :
  let url := "file:///home/user/notes.html" in
  let tr := {| currentDomain := Some "a.example"; trackingStartTime := Some 1000%Z |} in
  Url.hostname url = Some ""
  /\ extractDomain url = Some ""
  /\ trackActiveTab Url.hostname (QueryTabs [Some url]) 61000 61000 tr = (tr, [])
  /\ tracker_run Url.hostname
       [E_trackActiveTab (QueryTabs [Some url]) 61000 61000;
        E_periodicUsageReport 75000 75001] tr
     = ({| currentDomain := Some "a.example"; trackingStartTime := Some 75001%Z |},
        [("a.example", 74%Z)]).
Proof.
  intros url tr.
  assert (Hh : Url.hostname url = Some "") by (vm_compute; reflexivity).
  assert (Hd : extractDomain_of Url.hostname url = Some "") by (vm_compute; reflexivity).
  assert (Hu : first_tab_url [Some url] = Some url) by reflexivity.
  assert (Ht : tracked tr = Some ("a.example", 1000%Z)) by reflexivity.
  assert (Hr : (10 <= elapsed_seconds 75000 1000)%Z) by (vm_compute; discriminate).
  pose proof (page_without_domain_is_passed_over Url.hostname url [Some url]
                {| tab_url := Some url; tab_active := true |} tr) as H.
  cbv zeta in H. destruct H as [_ H]. destruct (H (or_intror Hd)) as (H1 & _ & H3).
  split; [exact Hh|]. split; [exact Hd|].
  split; [exact (H1 Hu 61000%Z 61000%Z)|].
  exact (H3 Hu "a.example" 1000%Z 61000%Z 61000%Z 75000%Z 75001%Z Ht Hr).
Defined.

(** The trace after a classification run begins with the request to
    the classifier. *)
Lemma classify_run_posts base tabId url domain signals r st :
  exists more,
    trace (exec (classify_run base tabId url domain signals r) st) =
      trace st ++ PostCheckContent (make_payload url domain signals) :: more.
Proof.
  unfold exec, classify_run, classify_answer, classify_finally, try_finally, try_catch,
    classify_try, reportAdultStrike, bind, emit, fetch, json, modify, gets, storage_set,
    skip, ret.
  destruct r as [|[] [result|]]; simpl; try (exists []; reflexivity).
  destruct (negb (String.eqb (method result) "disabled")
            && negb (String.eqb (method result) "no_api_key"));
    destruct (is_nsfw result); simpl;
    try destruct (Js.array_includes (alwaysBlockedSites st) domain); simpl;
    rewrite <- ?app_assoc; simpl; eexists; reflexivity.
Qed.

(** X23. A page that finishes loading is sent to the classifier, in a
    background tab as in the active one: when the load is complete, the
    tab's URL is not an internal page and has a host, the app is
    connected and the domain is eligible, the [onUpdated] listener
    calls [checkPageContent] with the tab's URL and its domain, and the
    first thing the call does is to post them. *)
Theorem page_load_is_classified (url_hostname : string -> option string) (base : string)
    (tabId : nat) (changeInfo : ChangeInfo) (tab : Tab) (url host : string)
    (ping : fetch_result unit) (signals : option Signals) (r : fetch_result CheckResult)
    (st : State) :
  let domain := Js.toLowerCase (strip_prefix "www." host) in
  status_complete changeInfo = true ->
  truthy (tab_url tab) = Some url ->
  is_internal_page url = false ->
  url_hostname url = Some host ->
  appConnected st = true ->
  shouldCheckDomain st domain = true ->
  snd (onUpdated url_hostname tabId changeInfo tab) = Some (tabId, url, domain)
  /\ exists more,
       trace (exec (checkPageContent base tabId url domain ping signals r) st) =
         trace st ++ PostCheckContent
                       {| p_url := url; p_domain := domain;
                          p_title := match signals with Some s => title s | None => "" end;
                          p_meta_description :=
                            match signals with Some s => meta_description s | None => "" end;
                          p_body_text :=
                            match signals with Some s => body_text s | None => "" end |}
                     :: more.
Proof.
  intros domain Hc Hu Hi Hh Ha Hs.
  assert (Hd : String.eqb domain "" = false).
  { destruct (String.eqb_spec domain ""); [|reflexivity].
    unfold shouldCheckDomain in Hs. rewrite e in Hs. discriminate. }
  split.
  - unfold onUpdated. simpl snd. rewrite Hc, Hu, Hi.
    rewrite (extractDomain_of_host url_hostname url host Hh). fold domain. rewrite Hd.
    reflexivity.
  - assert (Hp : exec (classify_ping ping) st = st).
    { unfold classify_ping, exec, bind, gets. rewrite Ha. reflexivity. }
    assert (Hex : exec (checkPageContent base tabId url domain ping signals r) st
                  = exec (classify_run base tabId url domain signals r)
                      (set_aiCheckInProgress ({[domain]} ∪ aiCheckInProgress st) st)).
    { unfold checkPageContent. rewrite exec_seq by auto with returns. rewrite Hp.
      unfold exec, bind. rewrite classify_enter_spec, Ha, Hs. reflexivity. }
    rewrite Hex.
    apply (classify_run_posts base tabId url domain signals r
             (set_aiCheckInProgress ({[domain]} ∪ aiCheckInProgress st) st)).
Qed.

Lemma page_load_is_classified_witness :
  let st := set_appConnected true (exec initialize (initial_state empty_storage)) in
  let url := "https://www.Shop.example/cart" in
  snd (onUpdated Url.hostname 4 {| change_url := None; status_complete := true |}
         {| tab_url := Some url; tab_active := false |})
    = Some (4, url, "shop.example")
  /\ exists more,
       trace (exec (checkPageContent sample_base 4 url "shop.example" NetworkError None
                      NetworkError) st) =
         trace st ++ PostCheckContent
                       {| p_url := url; p_domain := "shop.example"; p_title := "";
                          p_meta_description := ""; p_body_text := "" |} :: more.
Proof.
  intros st url.
  assert (Hh : Url.hostname url = Some "www.shop.example") by (vm_compute; reflexivity).
  assert (Hs : shouldCheckDomain st (Js.toLowerCase (strip_prefix "www." "www.shop.example"))
               = true) by (vm_compute; reflexivity).
  exact (page_load_is_classified Url.hostname sample_base 4
           {| change_url := None; status_complete := true |}
           {| tab_url := Some url; tab_active := false |} url "www.shop.example"
           NetworkError None NetworkError st eq_refl eq_refl eq_refl Hh eq_refl Hs).
Defined.

(** ** The popup and the background script *)

Lemma classList_add_In name l : In name (Popup.classList_add name l).
Proof.
  unfold Popup.classList_add. destruct (Js.array_includes l name) eqn:E.
  - apply array_includes_In, E.
  - apply in_or_app. right. left. reflexivity.
Qed.

(** What [loadStatus] shows is the state of the background script. *)
Lemma loadStatus_result p st :
  Popup.loadStatus p st =
    (Returned (Popup.updateUI
                 {| reply_isBlocking := isBlocking st;
                    reply_blockedSites := blockedSites st;
                    reply_alwaysBlockedSites := alwaysBlockedSites st;
                    reply_whitelistedUrls := whitelistedUrls st;
                    reply_blockCount := blockCount st;
                    reply_appConnected := appConnected st;
                    reply_isPunishmentLocked := isPunishmentLocked st |} (snd p)),
     st).
Proof. reflexivity. Qed.

Lemma eval_bind_gets {A C} (g : State -> A) (k : A -> M C) st :
  eval (bind (gets g) k) st = eval (k (g st)) st.
Proof. reflexivity. Qed.

Lemma eval_bind_modify {C} (g : State -> State) (k : unit -> M C) st :
  eval (bind (modify g) k) st = eval (k tt) (g st).
Proof. reflexivity. Qed.

Lemma manualToggle_reply st :
  appConnected st = false ->
  eval (onMessage ManualToggle) st = Returned (ReplyToggled (negb (isBlocking st))).
Proof.
  intros Hc. unfold onMessage.
  rewrite eval_bind_gets, Hc. simpl negb. cbv iota.
  rewrite eval_bind_modify, eval_bind_gets. simpl isBlocking.
  rewrite !eval_seq by (destruct (negb (isBlocking st)); total).
  reflexivity.
Qed.

(** X30. The toggle button of the popup does what it shows. After the popup
    has loaded the status, the button carries the class [disabled]
    exactly when the app is connected; a click is then ignored and no
    message is sent. When the app is not connected the click toggles
    the blocking of the background script, which does not refuse it,
    and the popup afterwards shows the new state on the button. *)
Theorem popup_toggle_does_what_it_shows (p : Popup.Vars * Popup.Dom) (st : State) :
  let p1 := Popup.updateUI
              {| reply_isBlocking := isBlocking st;
                 reply_blockedSites := blockedSites st;
                 reply_alwaysBlockedSites := alwaysBlockedSites st;
                 reply_whitelistedUrls := whitelistedUrls st;
                 reply_blockCount := blockCount st;
                 reply_appConnected := appConnected st;
                 reply_isPunishmentLocked := isPunishmentLocked st |} (snd p) in
  Popup.loadStatus p st = (Returned p1, st)
  /\ (In "disabled" (Popup.toggleBtn_classList (snd p1)) <-> appConnected st = true)
  /\ (appConnected st = true -> Popup.toggleBlocking p1 st = (Returned p1, st))
  /\ (appConnected st = false ->
      let st2 := exec (Popup.toggleBlocking p1) st in
      isBlocking st2 = negb (isBlocking st)
      /\ exists p2,
           eval (Popup.toggleBlocking p1) st = Returned p2
           /\ Popup.isBlocking (fst p2) = isBlocking st2
           /\ Popup.appConnected (fst p2) = false
           /\ Popup.toggleBtn_textContent (snd p2)
              = (if isBlocking st2 then "Stop Blocking" else "Start Blocking")).
Proof.
  intros p1. split; [apply loadStatus_result|]. split; [|split].
  - subst p1. unfold Popup.updateUI. simpl.
    destruct (appConnected st); simpl.
    + split; [reflexivity|]. intros _. apply classList_add_In.
    + split; [|discriminate].
      destruct (isBlocking st); simpl; intros [H|[H|[]]]; discriminate H.
  - intros Hc. unfold Popup.toggleBlocking. subst p1. simpl. rewrite Hc. reflexivity.
  - intros Hc st2.
    assert (Hp1 : Popup.appConnected (fst p1) = false) by (subst p1; simpl; exact Hc).
    pose proof (manualToggle_reply st Hc) as Hr.
    destruct (manualToggle_step st Hc) as (B1 & C1 & _ & _).
    set (stt := exec (onMessage ManualToggle) st) in *.
    assert (Hrun : Popup.toggleBlocking p1 st = Popup.loadStatus p1 stt).
    { unfold Popup.toggleBlocking. rewrite Hp1. unfold bind.
      unfold eval in Hr. unfold stt, exec.
      destruct (onMessage ManualToggle st) as [o s]. simpl in *. rewrite Hr. reflexivity. }
    assert (Hst2 : st2 = stt).
    { unfold st2, exec. rewrite Hrun, loadStatus_result. reflexivity. }
    rewrite Hst2. split; [exact B1|].
    eexists. split.
    + unfold eval. rewrite Hrun, loadStatus_result. reflexivity.
    + unfold Popup.updateUI. simpl. rewrite C1. simpl.
      split; [reflexivity|]. split; reflexivity.
Qed.

Lemma popup_toggle_does_what_it_shows_witness :
  let dom := {| Popup.connectionDot_classList := ["dot"];
                Popup.connectionText_textContent := "";
                Popup.controlledMessage_display := "none";
                Popup.toggleBtn_classList := ["toggle-btn"];
                Popup.toggleBtn_textContent := "";
                Popup.statusText_textContent := "";
                Popup.statusIndicator_classList := [];
                Popup.blockCount_textContent := "";
                Popup.sitesCount_textContent := "";
                Popup.sitesPreview_innerHTML := "" |} in
  let p := ({| Popup.isBlocking := false; Popup.appConnected := false |}, dom) in
  let st := exec initialize (initial_state empty_storage) in
  let st2 := exec (Popup.toggleBlocking p) st in
  isBlocking st2 = true
  /\ exists p1 p2,
       eval (Popup.loadStatus p) st = Returned p1
       /\ Popup.sitesCount_textContent (snd p1) = "10"
       /\ eval (Popup.toggleBlocking p1) st = Returned p2
       /\ Popup.toggleBtn_textContent (snd p2) = "Stop Blocking".
Proof.
  intros dom p st st2. split; [vm_compute; reflexivity|].
  destruct (popup_toggle_does_what_it_shows p st) as (H1 & _ & _ & H4).
  assert (Hc : appConnected st = false) by (vm_compute; reflexivity).
  destruct (H4 Hc) as (Hb & p2 & He & _ & _ & Ht).
  eexists. exists p2. split; [unfold eval; rewrite H1; reflexivity|].
  split; [vm_compute; reflexivity|]. split; [exact He|].
  rewrite Ht, Hb. vm_compute. reflexivity.
Defined.

(** ** Spot checks *)

Example stripSite_protocol_and_www : stripSite "https://www.example.com" = "example.com".
Proof. vm_compute. reflexivity. Qed.
Example stripSite_www : stripSite "www.example.com" = "example.com".
Proof. vm_compute. reflexivity. Qed.
Example stripSite_bare : stripSite "example.com" = "example.com".
Proof. vm_compute. reflexivity. Qed.
Example patternSource_two_sites : patternSource ["a.com"; "www.b.org"] = "^https?://(www\.)?(a\.com|b\.org)".
Proof. vm_compute. reflexivity. Qed.
Example test_subdomain : pattern_test (buildPatternForSites ["example.com"]) "https://sub.example.com/x" = false.
Proof. vm_compute. reflexivity. Qed.
Example test_www_upper_case : pattern_test (buildPatternForSites ["example.com"]) "https://WWW.example.com/x" = true.
Proof. vm_compute. reflexivity. Qed.
Example test_text_before_domain : pattern_test (buildPatternForSites ["example.com"]) "https://notexample.com/x" = false.
Proof. vm_compute. reflexivity. Qed.
Example test_text_after_domain : pattern_test (buildPatternForSites ["example.com"]) "https://example.community/x" = true.
Proof. vm_compute. reflexivity. Qed.

Example encodeURIComponent_url : encodeURIComponent "https://a.b/c?d=e f" = "https%3A%2F%2Fa.b%2Fc%3Fd%3De%20f".
Proof. vm_compute. reflexivity. Qed.

Example popup_preview_two_sites : Popup.sites_preview ["www.a.com"; "b.org"] = "<span>a.com</span><span>b.org</span>".
Proof. vm_compute. reflexivity. Qed.
Example popup_preview_default_list : Popup.sites_preview DEFAULT_BLOCKED_SITES = "<span>facebook.com</span><span>twitter.com</span><span>x.com</span><span>instagram.com</span><span>tiktok.com</span><span>reddit.com</span><span>youtube.com</span><span>twitch.tv</span><span>+2 more</span>".
Proof. vm_compute. reflexivity. Qed.
Example popup_preview_no_sites : Popup.sites_preview [] = "<span>No sites configured</span>".
Proof. vm_compute. reflexivity. Qed.
Example tracker_short_visit_not_reported : snd (tracker_run Url.hostname [E_trackActiveTab (QueryTabs [Some "https://a.example/"]) 1000 1000; E_trackActiveTab (QueryTabs [Some "https://b.example/"]) 1900 1900] not_tracking) = [].
Proof. vm_compute. reflexivity. Qed.
Example tracker_internal_page_keeps_domain : fst (tracker_run Url.hostname [E_trackActiveTab (QueryTabs [Some "about:blank"]) 5000 5000] {| currentDomain := Some "a.example"; trackingStartTime := Some 1000%Z |}) = {| currentDomain := Some "a.example"; trackingStartTime := Some 1000%Z |}.
Proof. vm_compute. reflexivity. Qed.

Example hostname_plain : Url.hostname "https://User:pw@WWW.Example.com:8443/a/b?c=d#e" = Some "www.example.com".
Proof. vm_compute. reflexivity. Qed.
Example hostname_file_has_no_host : Url.hostname "file:///home/user/notes.html" = Some "".
Proof. vm_compute. reflexivity. Qed.
Example hostname_opaque_path : Url.hostname "blob:https://a.example/0f3c" = Some "" /\ Url.hostname "view-source:https://a.example/" = Some "" /\ Url.hostname "about:blank" = Some "".
Proof. vm_compute. repeat split; reflexivity. Qed.
Example hostname_other_scheme_keeps_case : Url.hostname "chrome://Extensions/" = Some "Extensions".
Proof. vm_compute. reflexivity. Qed.
Example hostname_without_slashes : Url.hostname "https:example.com" = Some "example.com".
Proof. vm_compute. reflexivity. Qed.
Example hostname_backslashes : Url.hostname "http:\\example.com\x" = Some "example.com".
Proof. vm_compute. reflexivity. Qed.
Example hostname_numbers : Url.hostname "http://1/" = Some "0.0.0.1" /\ Url.hostname "http://0x7f.1/" = Some "127.0.0.1" /\ Url.hostname "http://1.2.3.4.5/" = None.
Proof. vm_compute. repeat split; reflexivity. Qed.
Example hostname_ipv6 : Url.hostname "http://[0:0:0:0:0:0:0:1]:8080/" = Some "[::1]" /\ Url.hostname "http://[::FFFF:1.2.3.4]/" = Some "[::ffff:102:304]" /\ Url.hostname "http://[1::2::3]/" = None.
Proof. vm_compute. repeat split; reflexivity. Qed.
Example hostname_percent_encoded : Url.hostname "http://ex%41mple.com/" = Some "example.com" /\ Url.hostname "http://ex%2Fmple.com/" = None.
Proof. vm_compute. repeat split; reflexivity. Qed.
Example hostname_throws : Url.hostname "example.com" = None /\ Url.hostname "http://" = None /\ Url.hostname "http://a b/" = None /\ Url.hostname "http://host:99999/" = None /\ Url.hostname "http://user@/" = None.
Proof. vm_compute. repeat split; reflexivity. Qed.
Example extractDomain_without_host : extractDomain "file:///home/user/notes.html" = Some "" /\ extractDomain "https://www./" = Some "" /\ extractDomain "not a url" = None.
Proof. vm_compute. repeat split; reflexivity. Qed.
Example extractDomain_one_www_removed : extractDomain "https://www.www.Shop.example:8443/cart?x=1" = Some "www.shop.example".
Proof. vm_compute. reflexivity. Qed.
